(** * WarnPing relay: the warning lifecycle of [server.js]

    A shallow embedding of [src/server.js]: the JavaScript values the
    handlers receive, the SQLite table and its four prepared statements, the
    expiry timers, the two subscriber registries and the handlers themselves,
    followed by the properties of the specification that concern them.

    Conventions.
    - Instants are integers: milliseconds since the Unix epoch, as
      [Date.now()] and [Date.prototype.getTime] give them.  [None] stands for
      the time value [NaN] of an invalid [Date].
    - Strings are byte strings (the UTF-8 form of the text).  The two regular
      expressions and [substr(issuedISO,1,10)] only ever succeed on ASCII
      bytes, so they read the same on bytes and on characters.
    - A finite JavaScript number is the rational it denotes.  Arithmetic
      on numbers rounds its exact result to a double with [double], a
      function of the host that leaves the whole numbers up to 2^53 alone.
    - Whatever ECMAScript or SQLite leave to the host is a field of the class
      [Host]; everything proved holds for every host. *)

From Stdlib Require Import ZArith QArith Qabs List String Ascii Bool Lia.
From Stdlib Require Import DecimalString Sorted Permutation.
From Stdlib Require Qcanon.
Import ListNotations.
Local Open Scope string_scope.
Local Open Scope Z_scope.

Set Implicit Arguments.
Set Warnings "-register-all".

(** ** Exceptions and results *)

(** What a [throw] carries.  [Error] is [new Error(message)] as
    [validateIssue] raises it; the others are raised by the runtime
    ([TypeError], [RangeError]) or by the SQLite binding ([SqliteError]). *)
Inductive exn : Type :=
| Error (message : string)
| TypeError
| RangeError
| SqliteError.

Inductive result (A : Type) : Type :=
| Ok (a : A)
| Throw (e : exn).

Arguments Ok {A} a.
Arguments Throw {A} e.

Definition bind {A B : Type} (r : result A) (k : A -> result B) : result B :=
  match r with
  | Ok a => k a
  | Throw e => Throw e
  end.

Notation "x <- r ;; k" := (bind r (fun x => k))
  (at level 61, r at next level, right associativity).

(** ** JavaScript values *)

Inductive number : Type :=
| Fin (q : Q)
| NaN
| PosInf
| NegInf.

(** The values a JSON frame or a Socket.IO packet decodes to. *)
Inductive value : Type :=
| VUndefined
| VNull
| VBool (b : bool)
| VNum (n : number)
| VStr (s : string)
| VArr (items : list value)
| VObj (props : list (string * value)).

(** [v == null] *)
Definition nullish (v : value) : bool :=
  match v with
  | VUndefined | VNull => true
  | _ => false
  end.

(** [a ?? b] *)
Definition coalesce (a b : value) : value := if nullish a then b else a.

Definition isFinite (n : number) : bool :=
  match n with
  | Fin _ => true
  | _ => false
  end.

(** [a < b] on numbers; every comparison with [NaN] is false. *)
Definition num_ltb (a b : number) : bool :=
  match a, b with
  | NaN, _ | _, NaN => false
  | Fin x, Fin y => negb (Qle_bool y x)
  | NegInf, NegInf => false
  | NegInf, _ => true
  | _, PosInf => match a with PosInf => false | _ => true end
  | _, _ => false
  end.

(** Truncation toward zero. *)
Definition Qtrunc (q : Q) : Z := Z.quot (Qnum q) (Z.pos (Qden q)).

Definition ToBoolean (v : value) : bool :=
  match v with
  | VUndefined | VNull => false
  | VBool b => b
  | VNum (Fin q) => negb (Qeq_bool q 0)
  | VNum NaN => false
  | VNum _ => true
  | VStr s => negb (String.eqb s EmptyString)
  | VArr _ | VObj _ => true
  end.

Definition Array_isArray (v : value) : bool :=
  match v with
  | VArr _ => true
  | _ => false
  end.

Fixpoint lookup (k : string) (props : list (string * value)) : option value :=
  match props with
  | [] => None
  | (k', v) :: rest => if String.eqb k k' then Some v else lookup k rest
  end.

Definition has_own (k : string) (props : list (string * value)) : bool :=
  match lookup k props with
  | Some _ => true
  | None => false
  end.

(** [o[k]] for the property names this program reads ([id], [type],
    [polygon], [issuedISO], [minutes], the optional fields, [kind],
    [payload]): none of them exists on the prototype of an array or of a
    primitive, so only an object's own property can answer.  Reading a
    property of [null] or [undefined] is a [TypeError]. *)
Definition get (o : value) (k : string) : result value :=
  match o with
  | VUndefined | VNull => Throw TypeError
  | VObj props =>
      match lookup k props with
      | Some v => Ok v
      | None => Ok VUndefined
      end
  | _ => Ok VUndefined
  end.

(** Assignment of one property: in place when the key exists, at the end
    otherwise. *)
Fixpoint set_prop (k : string) (v : value) (props : list (string * value))
  : list (string * value) :=
  match props with
  | [] => [(k, v)]
  | (k', v') :: rest =>
      if String.eqb k k' then (k, v) :: rest else (k', v') :: set_prop k v rest
  end.

(** The own enumerable properties [{...o}] copies.  The program spreads
    objects only. *)
Definition spread (o : value) : list (string * value) :=
  match o with
  | VObj props => props
  | _ => []
  end.

(** A value as SQLite holds it. *)
Inductive sqlval : Type :=
| SNull
| SInt (z : Z)
| SReal (n : number)
| SText (s : string).

(** ** The host *)

(** The parts of the platform that ECMAScript or SQLite leave open, or
    whose exact text never matters here. *)
Class Host : Type := {
  (** [Date.parse] outside the one format [Date_parse] below decides itself:
      other ECMAScript forms, and the engine's own heuristics. *)
  host_Date_parse : string -> option Z;
  (** [Number(s)] on a string. *)
  StringToNumber : string -> number;
  (** [String(n)] on a number. *)
  NumberToString : number -> string;
  (** The text SQLite stores when a REAL is written to a TEXT column. *)
  sqlite_text_of_real : number -> string;
  (** What SQLite stores when a text is written to an INTEGER column: the
      number it spells, or the text itself when it spells none. *)
  sqlite_numeric_of_text : string -> sqlval;
  (** The double nearest to a rational, an infinity beyond the range of the
      doubles: the rounding of every arithmetic operation on numbers.  A
      whole number up to 2^53 in magnitude is a double. *)
  double : Q -> number;
  double_exact : forall q z,
    (q == inject_Z z)%Q -> Z.abs z <= 2 ^ 53 -> double q = Fin (inject_Z z)
}.

(** ** Regular expressions *)

Definition is_digit (c : ascii) : bool :=
  let n := Z.of_nat (nat_of_ascii c) in (48 <=? n) && (n <=? 57).

Definition digit_value (c : ascii) : Z := Z.of_nat (nat_of_ascii c) - 48.

(** One position of a pattern: [\d] or a literal character. *)
Inductive atom : Type :=
| Digit
| Lit (c : ascii).

Definition atom_matches (a : atom) (c : ascii) : bool :=
  match a with
  | Digit => is_digit c
  | Lit c' => Ascii.eqb c c'
  end.

(** Matches the atoms at the start of [s]; returns what follows them. *)
Fixpoint match_prefix (pat : list atom) (s : string) : option string :=
  match pat with
  | [] => Some s
  | a :: pat' =>
      match s with
      | EmptyString => None
      | String c s' => if atom_matches a c then match_prefix pat' s' else None
      end
  end.

Definition date_atoms : list atom :=
  [Digit; Digit; Digit; Digit; Lit "-"; Digit; Digit; Lit "-"; Digit; Digit]%char.

(** [/^\d{4}-\d{2}-\d{2}T/.test(s)] *)
Definition issuedISO_re_test (s : string) : bool :=
  match match_prefix (date_atoms ++ [Lit "T"%char]) s with
  | Some _ => true
  | None => false
  end.

(** [/^\d{4}-\d{2}-\d{2}$/.test(s)] *)
Definition date_re_test (s : string) : bool :=
  match match_prefix date_atoms s with
  | Some EmptyString => true
  | _ => false
  end.

(** ** Calendar arithmetic

    Days are counted from 1970-01-01 in the proleptic Gregorian calendar,
    which is the calendar of both ECMAScript and SQLite. *)

Definition msPerDay : Z := 86400000.

(** Year within the 400-year cycle (counted from 1 March), month and day of
    the [doe]-th day of the cycle. *)
Definition civil_of_doe (doe : Z) : Z * Z * Z :=
  let yoe := (doe - doe / 1460 + doe / 36524 - doe / 146096) / 365 in
  let doy := doe - (365 * yoe + yoe / 4 - yoe / 100) in
  let mp := (5 * doy + 2) / 153 in
  let d := doy - (153 * mp + 2) / 5 + 1 in
  let m := if mp <? 10 then mp + 3 else mp - 9 in
  (yoe + (if m <=? 2 then 1 else 0), m, d).

Definition civil_from_days (z : Z) : Z * Z * Z :=
  let z' := z + 719468 in
  let '(y, m, d) := civil_of_doe (z' mod 146097) in
  (y + 400 * (z' / 146097), m, d).

Definition days_from_civil (y m d : Z) : Z :=
  let y' := y - (if m <=? 2 then 1 else 0) in
  let yoe := y' mod 400 in
  let mp := if 2 <? m then m - 3 else m + 9 in
  let doy := (153 * mp + 2) / 5 + d - 1 in
  (y' / 400) * 146097 + (yoe * 365 + yoe / 4 - yoe / 100 + doy) - 719468.

Definition is_leap (y : Z) : bool :=
  (y mod 4 =? 0) && (negb (y mod 100 =? 0) || (y mod 400 =? 0)).

Definition days_in_month (y m : Z) : Z :=
  if m =? 2 then (if is_leap y then 29 else 28)
  else if (m =? 4) || (m =? 6) || (m =? 9) || (m =? 11) then 30
  else 31.

(** ** Decimal fields *)

Definition digit_char (k : Z) : ascii := ascii_of_nat (Z.to_nat (48 + k)).

(** The [n] low decimal digits of [k], most significant first. *)
Fixpoint pad (n : nat) (k : Z) : string :=
  match n with
  | O => EmptyString
  | S n' => String (digit_char (k / 10 ^ Z.of_nat n' mod 10)) (pad n' k)
  end.

(** Reads exactly [n] digits. *)
Fixpoint read_digits (n : nat) (acc : Z) (s : string) : option (Z * string) :=
  match n with
  | O => Some (acc, s)
  | S n' =>
      match s with
      | EmptyString => None
      | String c s' =>
          if is_digit c then read_digits n' (10 * acc + digit_value c) s'
          else None
      end
  end.

Definition expect (c : ascii) (s : string) : option string :=
  match s with
  | String c' s' => if Ascii.eqb c c' then Some s' else None
  | EmptyString => None
  end.

Notation "'let?' p := e 'in' k" :=
  (match e with
   | Some p => k
   | None => None
   end)
  (at level 10, p pattern, e at level 200, k at level 200).

(** The fields of [YYYY-MM-DDTHH:MM:SS.sssZ], and nothing after them. *)
Definition read_timestamp (s : string)
  : option (Z * Z * Z * Z * Z * Z * Z) :=
  let? (y, s) := read_digits 4 0 s in
  let? s := expect "-" s in
  let? (mo, s) := read_digits 2 0 s in
  let? s := expect "-" s in
  let? (d, s) := read_digits 2 0 s in
  let? s := expect "T" s in
  let? (h, s) := read_digits 2 0 s in
  let? s := expect ":" s in
  let? (mi, s) := read_digits 2 0 s in
  let? s := expect ":" s in
  let? (sec, s) := read_digits 2 0 s in
  let? s := expect "." s in
  let? (ms, s) := read_digits 3 0 s in
  let? s := expect "Z" s in
  match s with
  | EmptyString => Some (y, mo, d, h, mi, sec, ms)
  | _ => None
  end.

(** ** [Date] *)

(** [new Date(t).toISOString()] for a valid time value [t]: four digits for
    the years 0 to 9999, a sign and six digits otherwise. *)
Definition ISO_string (t : Z) : string :=
  let '(y, m, d) := civil_from_days (t / msPerDay) in
  let ms := t mod msPerDay in
  (if (0 <=? y) && (y <=? 9999) then pad 4 y
   else (if y <? 0 then "-" else "+") ++ pad 6 (Z.abs y))
  ++ "-" ++ pad 2 m ++ "-" ++ pad 2 d
  ++ "T" ++ pad 2 (ms / 3600000) ++ ":" ++ pad 2 (ms / 60000 mod 60)
  ++ ":" ++ pad 2 (ms / 1000 mod 60) ++ "." ++ pad 3 (ms mod 1000) ++ "Z".

(** [toISOString] throws a [RangeError] on an invalid date. *)
Definition toISOString (d : option Z) : result string :=
  match d with
  | Some t => Ok (ISO_string t)
  | None => Throw RangeError
  end.

(** The ECMAScript date-time format in its complete UTC form, with every
    field a legal one.  On such a string every engine gives this instant. *)
Definition parse_iso_utc (s : string) : option Z :=
  let? (y, mo, d, h, mi, sec, ms) := read_timestamp s in
  if (1 <=? mo) && (mo <=? 12) && (1 <=? d) && (d <=? days_in_month y mo)
     && (h <=? 23) && (mi <=? 59) && (sec <=? 59)
  then Some (days_from_civil y mo d * msPerDay
             + h * 3600000 + mi * 60000 + sec * 1000 + ms)
  else None.

(** The time value of [new Date(n)] for a number [n]. *)
Definition TimeClip (n : number) : option Z :=
  match n with
  | Fin q =>
      if Qle_bool (Qabs q) (inject_Z 8640000000000000) then Some (Qtrunc q)
      else None
  | _ => None
  end.

(** [getTime()] as a number. *)
Definition time_number (d : option Z) : number :=
  match d with
  | Some t => Fin (inject_Z t)
  | None => NaN
  end.

(** ** SQLite's [datetime]

    [datetime(x)] is the text [YYYY-MM-DD HH:MM:SS] of the instant [x]
    denotes, without its fraction of a second, or NULL when [x] is not a
    time.  The text form is [datetime_text]; [sqlite_datetime] gives the
    same instant as its whole number of seconds since the epoch, which is
    how the query below compares two of them: for the years 0000 to 9999,
    all that [datetime] can produce, the texts are ordered as the instants
    are.

    The only time strings the table ever holds are those [toISOString]
    wrote, so only that shape is read here (SQLite accepts further ones).
    SQLite takes a day of the month up to 31 whatever the month and lets it
    run into the next one, as [days_from_civil] does. *)
Definition sqlite_datetime (x : string) : option Z :=
  let? (y, mo, d, h, mi, sec, ms) := read_timestamp x in
  if (1 <=? mo) && (mo <=? 12) && (1 <=? d) && (d <=? 31)
     && (h <=? 24) && (mi <=? 59) && (sec <=? 59)
  then Some (days_from_civil y mo d * 86400 + h * 3600 + mi * 60 + sec)
  else None.

(** [datetime('now')] at the instant [now], in seconds. *)
Definition sqlite_now (now : Z) : Z := now / 1000.

(** The text of a [datetime] result. *)
Definition datetime_text (seconds : Z) : string :=
  let '(y, m, d) := civil_from_days (seconds / 86400) in
  let s := seconds mod 86400 in
  pad 4 y ++ "-" ++ pad 2 m ++ "-" ++ pad 2 d ++ " "
  ++ pad 2 (s / 3600) ++ ":" ++ pad 2 (s / 60 mod 60) ++ ":" ++ pad 2 (s mod 60).

(** ** Coercions *)

Section Relay.

Context {host : Host}.

Definition num_sign (n : number) : comparison :=
  match n with
  | Fin q => (0 ?= q)%Q
  | PosInf => Lt
  | NegInf => Gt
  | NaN => Eq
  end.

(** [a * b] on numbers: the exact product, rounded. *)
Definition num_mul (a b : number) : number :=
  match a, b with
  | NaN, _ | _, NaN => NaN
  | Fin x, Fin y => double (x * y)
  | _, _ =>
      match num_sign a, num_sign b with
      | Eq, _ | _, Eq => NaN
      | Lt, Lt | Gt, Gt => PosInf
      | _, _ => NegInf
      end
  end.

(** [a + b] on numbers: the exact sum, rounded. *)
Definition num_add (a b : number) : number :=
  match a, b with
  | NaN, _ | _, NaN => NaN
  | Fin x, Fin y => double (x + y)
  | PosInf, NegInf | NegInf, PosInf => NaN
  | PosInf, _ | _, PosInf => PosInf
  | NegInf, _ | _, NegInf => NegInf
  end.

(** [String(v)].  An array joins its elements with commas, [null] and
    [undefined] elements giving the empty string.  A decoded object has no
    function among its properties: one that shadows [toString] cannot be
    converted, the others print as [[object Object]]. *)
Fixpoint ToString (v : value) : result string :=
  match v with
  | VUndefined => Ok "undefined"
  | VNull => Ok "null"
  | VBool b => Ok (if b then "true" else "false")
  | VNum n => Ok (NumberToString n)
  | VStr s => Ok s
  | VArr items =>
      (fix join (l : list value) : result string :=
         match l with
         | [] => Ok EmptyString
         | x :: rest =>
             match (if nullish x then Ok EmptyString else ToString x) with
             | Throw e => Throw e
             | Ok sx =>
                 match rest with
                 | [] => Ok sx
                 | _ :: _ =>
                     match join rest with
                     | Throw e => Throw e
                     | Ok sr => Ok (sx ++ "," ++ sr)
                     end
                 end
             end
         end) items
  | VObj props =>
      if has_own "toString" props then Throw TypeError
      else Ok "[object Object]"
  end.

(** [Number(v)] *)
Definition ToNumber (v : value) : result number :=
  match v with
  | VUndefined => Ok NaN
  | VNull => Ok (Fin 0)
  | VBool b => Ok (Fin (if b then 1 else 0))
  | VNum n => Ok n
  | VStr s => Ok (StringToNumber s)
  | VArr _ => s <- ToString v ;; Ok (StringToNumber s)
  | VObj props => if has_own "toString" props then Throw TypeError else Ok NaN
  end.

(** [Date.parse(s)] *)
Definition Date_parse (s : string) : option Z :=
  match parse_iso_utc s with
  | Some t => Some t
  | None => host_Date_parse s
  end.

(** The time value of [new Date(v)]: a string (or what converts to one) is
    parsed, anything else is taken as a number of milliseconds. *)
Definition new_Date (v : value) : result (option Z) :=
  match v with
  | VStr s => Ok (Date_parse s)
  | VArr _ | VObj _ => s <- ToString v ;; Ok (Date_parse s)
  | _ => n <- ToNumber v ;; Ok (TimeClip n)
  end.

(** ** JSON *)

(** The value the text [JSON.stringify(v)] denotes, that is
    [JSON.parse(JSON.stringify(v))]: a number that is not finite and an
    [undefined] array element become [null], a property whose value is
    [undefined] is left out. *)
Fixpoint json_value (v : value) : value :=
  match v with
  | VUndefined => VNull
  | VNum (Fin q) => VNum (Fin q)
  | VNum _ => VNull
  | VArr items => VArr (map json_value items)
  | VObj props =>
      VObj ((fix walk (l : list (string * value)) : list (string * value) :=
               match l with
               | [] => []
               | (k, VUndefined) :: rest => walk rest
               | (k, x) :: rest => (k, json_value x) :: walk rest
               end) props)
  | _ => v
  end.

(** ** The table [warnings] *)

Definition is_integral (q : Q) : bool := Z.rem (Qnum q) (Z.pos (Qden q)) =? 0.

(** How better-sqlite3 binds one JavaScript value: a number as a double,
    whatever its value, a string as text, [null] and [undefined] as NULL;
    it refuses everything else.  SQLite reads the double [NaN] as NULL. *)
Definition bind_value (v : value) : result sqlval :=
  match v with
  | VNull | VUndefined => Ok SNull
  | VNum NaN => Ok SNull
  | VNum n => Ok (SReal n)
  | VStr s => Ok (SText s)
  | VBool _ | VArr _ | VObj _ => Throw TypeError
  end.

Definition Z_text (z : Z) : string := NilZero.string_of_int (Z.to_int z).

(** A value written to, or compared with, a column of type TEXT. *)
Definition text_affinity (v : sqlval) : option string :=
  match v with
  | SNull => None
  | SInt z => Some (Z_text z)
  | SReal n => Some (sqlite_text_of_real n)
  | SText s => Some s
  end.

(** A value written to a column of type INTEGER. *)
Definition integer_affinity (v : sqlval) : sqlval :=
  match v with
  | SText s => sqlite_numeric_of_text s
  | SReal (Fin q) =>
      if is_integral q && (Z.abs (Qtrunc q) <? 2 ^ 63) then SInt (Qtrunc q)
      else v
  | _ => v
  end.

(** One row of [warnings]; [None] is NULL.  The column [polygon] holds the
    text [JSON.stringify] made of the polygon: the row keeps the value that
    text denotes, which is what [JSON.parse(row.polygon)] returns. *)
Record row : Type := {
  id : option string;
  type : string;
  polygon : value;
  issuedISO : string;
  minutes : sqlval;
  expiresISO : string;
  wind : option string;
  hail : option string;
  threat : option string;
  author : option string;
  info : option string;
  possibleTag : option string;
  active : Z;
  created_at : string
}.

(** The object [row] that [handleIssue] hands to [insertWarning.run]; its
    [polygon] and [expiresISO] are strings made by the handler, [active] is
    the literal 1 there. *)
Record new_row : Type := {
  n_id : value;
  n_type : value;
  n_polygon : value;
  n_issuedISO : value;
  n_minutes : value;
  n_expiresISO : string;
  n_wind : value;
  n_hail : value;
  n_threat : value;
  n_author : value;
  n_info : value;
  n_possibleTag : value
}.

Definition option_eqb (a b : option string) : bool :=
  match a, b with
  | Some x, Some y => String.eqb x y
  | _, _ => false
  end.

(** [id = ?] in a WHERE clause, and the uniqueness of the primary key: NULL
    equals nothing. *)
Definition id_is (k : option string) (r : row) : bool := option_eqb (id r) k.

(** A failure of the storage layer is an input of every statement: [fault]
    says whether this execution meets one. *)
Definition storage (fault : bool) : result unit :=
  if fault then Throw SqliteError else Ok tt.

(** A NOT NULL column refuses NULL. *)
Definition not_null {A : Type} (o : option A) : result A :=
  match o with
  | Some a => Ok a
  | None => Throw SqliteError
  end.

(** [insertWarning.run(row)]: INSERT OR REPLACE deletes the row that has
    the new row's id, if any, and appends the new one.  [created_at] is not
    among the columns written, so it takes its default,
    [datetime('now')]. *)
Definition insertWarning_run (fault : bool) (now : Z) (n : new_row)
    (tbl : list row) : result (list row) :=
  c_id <- bind_value (n_id n) ;;
  c_type <- bind_value (n_type n) ;;
  c_issued <- bind_value (n_issuedISO n) ;;
  c_minutes <- bind_value (n_minutes n) ;;
  c_wind <- bind_value (n_wind n) ;;
  c_hail <- bind_value (n_hail n) ;;
  c_threat <- bind_value (n_threat n) ;;
  c_author <- bind_value (n_author n) ;;
  c_info <- bind_value (n_info n) ;;
  c_tag <- bind_value (n_possibleTag n) ;;
  _ <- storage fault ;;
  ty <- not_null (text_affinity c_type) ;;
  iss <- not_null (text_affinity c_issued) ;;
  mins <- not_null (match integer_affinity c_minutes with
                    | SNull => None
                    | m => Some m
                    end) ;;
  let r := {| id := text_affinity c_id;
              type := ty;
              polygon := n_polygon n;
              issuedISO := iss;
              minutes := mins;
              expiresISO := n_expiresISO n;
              wind := text_affinity c_wind;
              hail := text_affinity c_hail;
              threat := text_affinity c_threat;
              author := text_affinity c_author;
              info := text_affinity c_info;
              possibleTag := text_affinity c_tag;
              active := 1;
              created_at := datetime_text (sqlite_now now) |} in
  Ok (filter (fun r' => negb (id_is (id r) r')) tbl ++ [r])%list.

(** The WHERE clause of [getActive]; a NULL [datetime] selects nothing. *)
Definition is_active_at (now : Z) (r : row) : bool :=
  (active r =? 1) &&
  match sqlite_datetime (expiresISO r) with
  | Some e => sqlite_now now <? e
  | None => false
  end.

(** [getActive.all()] *)
Definition getActive_all (fault : bool) (now : Z) (tbl : list row)
  : result (list row) :=
  _ <- storage fault ;; Ok (filter (is_active_at now) tbl).

Definition deactivate (r : row) : row :=
  {| id := id r; type := type r; polygon := polygon r;
     issuedISO := issuedISO r; minutes := minutes r;
     expiresISO := expiresISO r; wind := wind r; hail := hail r;
     threat := threat r; author := author r; info := info r;
     possibleTag := possibleTag r; active := 0;
     created_at := created_at r |}.

(** The parameters of [expireById.run(id)].  better-sqlite3 takes an array
    argument as the list of parameters, binding them in order, and a plain
    object as named parameters; the statement has one anonymous
    parameter. *)
Definition expire_param (v : value) : result sqlval :=
  match v with
  | VArr [] | VObj _ => Throw RangeError
  | VArr (x :: rest) =>
      k <- bind_value x ;;
      match rest with
      | [] => Ok k
      | _ :: _ => Throw RangeError
      end
  | _ => bind_value v
  end.

(** [expireById.run(id)] *)
Definition expireById_run (fault : bool) (v : value) (tbl : list row)
  : result (list row) :=
  k <- expire_param v ;;
  _ <- storage fault ;;
  Ok (map (fun r => if id_is (text_affinity k) r then deactivate r else r) tbl).

(** [substr(s, 1, 10)] *)
Definition substr_1_10 (s : string) : string := substring 0 10 s.

(** Insertion into a list ordered by [issuedISO]; equal keys keep their
    order of arrival (SQLite promises no order among them). *)
Fixpoint insert_by_issued (r : row) (l : list row) : list row :=
  match l with
  | [] => [r]
  | x :: rest =>
      if String.leb (issuedISO r) (issuedISO x)
         && negb (String.eqb (issuedISO r) (issuedISO x))
      then r :: l
      else x :: insert_by_issued r rest
  end.

(** ORDER BY issuedISO ASC, in the byte order of the texts. *)
Definition order_by_issuedISO (l : list row) : list row :=
  fold_left (fun acc r => insert_by_issued r acc) l [].

(** [getByDate.all(date)] *)
Definition getByDate_all (fault : bool) (date : string) (tbl : list row)
  : result (list row) :=
  _ <- storage fault ;;
  Ok (order_by_issuedISO
        (filter (fun r => String.eqb (substr_1_10 (issuedISO r)) date) tbl)).

Definition text_value (o : option string) : value :=
  match o with
  | Some s => VStr s
  | None => VNull
  end.

Definition sql_value (v : sqlval) : value :=
  match v with
  | SNull => VNull
  | SInt z => VNum (Fin (inject_Z z))
  | SReal n => VNum n
  | SText s => VStr s
  end.

(** [({ ...r, polygon: JSON.parse(r.polygon) })]: the row as the object
    better-sqlite3 returns, its polygon decoded. *)
Definition row_object (r : row) : value :=
  VObj [("id", text_value (id r));
        ("type", VStr (type r));
        ("polygon", polygon r);
        ("issuedISO", VStr (issuedISO r));
        ("minutes", sql_value (minutes r));
        ("expiresISO", VStr (expiresISO r));
        ("wind", text_value (wind r));
        ("hail", text_value (hail r));
        ("threat", text_value (threat r));
        ("author", text_value (author r));
        ("info", text_value (info r));
        ("possibleTag", text_value (possibleTag r));
        ("active", VNum (Fin (inject_Z (active r))));
        ("created_at", VStr (created_at r))].

(** ** The relay's state *)

(** A pending [setTimeout]: the instant from which it may fire and the [id]
    its callback closed over. *)
Record timer : Type := {
  due : Z;
  target : value
}.

(** A connected Socket.IO socket, with the events emitted to it so far. *)
Record io_socket : Type := {
  io_conn : nat;
  io_inbox : list (string * value)
}.

(** A member of [wsClients], with the frames sent to it so far (each frame
    is the value its JSON text denotes). *)
Record ws_client : Type := {
  ws_conn : nat;
  readyState : Z;
  ws_inbox : list value
}.

(** A line of the console. *)
Inductive entry : Type :=
| LogIssue (src : string) (type id : value)
| LogExpire (src : string) (id : value)
| IssueError (e : exn)
| ExpireError (e : exn)
| TimerError (e : exn).

(** [db] is the table, the only part that survives the process.  [emitted]
    is not a variable of the program: it records every call of [broadcast]
    that ran, in order.  [connections] numbers the connections accepted so
    far. *)
Record state : Type := {
  db : list row;
  clock : Z;
  timers : list timer;
  ioSockets : list io_socket;
  wsClients : list ws_client;
  console : list entry;
  emitted : list (string * value);
  connections : nat
}.

Definition set_db (tbl : list row) (s : state) : state :=
  {| db := tbl; clock := clock s; timers := timers s;
     ioSockets := ioSockets s; wsClients := wsClients s;
     console := console s; emitted := emitted s;
     connections := connections s |}.

Definition set_timers (l : list timer) (s : state) : state :=
  {| db := db s; clock := clock s; timers := l;
     ioSockets := ioSockets s; wsClients := wsClients s;
     console := console s; emitted := emitted s;
     connections := connections s |}.

Definition log (e : entry) (s : state) : state :=
  {| db := db s; clock := clock s; timers := timers s;
     ioSockets := ioSockets s; wsClients := wsClients s;
     console := (console s ++ [e])%list; emitted := emitted s;
     connections := connections s |}.

(** ** Fan-out *)

Definition io_emit (ev : string) (obj : value) (k : io_socket) : io_socket :=
  {| io_conn := io_conn k; io_inbox := (io_inbox k ++ [(ev, obj)])%list |}.

Definition ws_send (frame : value) (c : ws_client) : ws_client :=
  {| ws_conn := ws_conn c; readyState := readyState c;
     ws_inbox := (ws_inbox c ++ [frame])%list |}.

(** [JSON.stringify({ kind, ...(kind === "issue" ? { payload: obj } : obj) })] *)
Definition ws_frame (kind : string) (obj : value) : value :=
  json_value
    (VObj (fold_left (fun acc kv => set_prop (fst kv) (snd kv) acc)
             (if String.eqb kind "issue" then [("payload", obj)] else spread obj)
             [("kind", VStr kind)])).

Definition broadcast (kind : string) (obj : value) (s : state) : state :=
  let io1 := if String.eqb kind "issue"
             then map (io_emit "issue" obj) (ioSockets s) else ioSockets s in
  let io2 := if String.eqb kind "expire"
             then map (io_emit "expire" obj) io1 else io1 in
  let json := ws_frame kind obj in
  {| db := db s; clock := clock s; timers := timers s;
     ioSockets := io2;
     wsClients := map (fun client =>
                         if readyState client =? 1 then ws_send json client
                         else client) (wsClients s);
     console := console s;
     emitted := (emitted s ++ [(kind, obj)])%list;
     connections := connections s |}.

(** ** Expiry timers *)

Definition TIMEOUT_MAX : Z := 2147483647.

(** The delay Node gives a timer: a delay that is not a number between 1
    and [TIMEOUT_MAX] is replaced by 1. *)
Definition timeout_delay (ms : option Z) : Z :=
  match ms with
  | Some d => if (1 <=? d) && (d <=? TIMEOUT_MAX) then d else 1
  | None => 1
  end.

(** [setTimeout(callback, ms)], the callback being the expiry of [id]. *)
Definition setTimeout (id : value) (ms : option Z) (s : state) : state :=
  set_timers (timers s ++ [{| due := clock s + timeout_delay ms; target := id |}])%list s.

(** [ms] is [NaN] when [expiresISO] is not a date, and [NaN <= 0] is
    false. *)
Definition scheduleExpiry (id : value) (expiresISO : string) (s : state)
  : state :=
  let ms := option_map (fun e => e - clock s) (Date_parse expiresISO) in
  match ms with
  | Some d => if d <=? 0 then s else setTimeout id ms s
  | None => setTimeout id ms s
  end.

(** The callback of the timer. *)
Definition expire_timer (id : value) (fault : bool) (s : state) : state :=
  match expireById_run fault id (db s) with
  | Ok tbl => broadcast "expire" (VObj [("id", id)]) (set_db tbl s)
  | Throw e => log (TimerError e) s
  end.

(** ** Commands *)

Definition required : list string :=
  ["id"; "type"; "polygon"; "issuedISO"; "minutes"].

Fixpoint check_required (ks : list string) (p : value) : result unit :=
  match ks with
  | [] => Ok tt
  | k :: rest =>
      v <- get p k ;;
      if nullish v then Throw (Error ("Missing " ++ k))
      else check_required rest p
  end.

Definition validateIssue (p : value) : result unit :=
  _ <- check_required required p ;;
  polygon <- get p "polygon" ;;
  if negb (Array_isArray polygon)
  then Throw (Error "polygon must be an array of rings/points") else
  issued <- get p "issuedISO" ;;
  text <- ToString issued ;;
  if negb (issuedISO_re_test text)
  then Throw (Error "issuedISO must be ISO string") else
  mv <- get p "minutes" ;;
  m <- ToNumber mv ;;
  if negb (isFinite m) || num_ltb m (Fin 1) || num_ltb (Fin 1440) m
  then Throw (Error "minutes out of range")
  else Ok tt.

(** [new Date(new Date(payload.issuedISO).getTime() + payload.minutes * 60000).toISOString()] *)
Definition expiry_of (payload : value) : result string :=
  issued <- get payload "issuedISO" ;;
  d <- new_Date issued ;;
  mv <- get payload "minutes" ;;
  m <- ToNumber mv ;;
  toISOString (TimeClip (num_add (time_number d) (num_mul m (Fin 60000)))).

Definition optional (payload : value) (k : string) : result value :=
  v <- get payload k ;; Ok (coalesce v VNull).

(** The object literal [row] of [handleIssue]. *)
Definition make_row (payload : value) (expiresISO : string) : result new_row :=
  v_id <- get payload "id" ;;
  v_type <- get payload "type" ;;
  v_polygon <- get payload "polygon" ;;
  v_issued <- get payload "issuedISO" ;;
  v_minutes <- get payload "minutes" ;;
  v_wind <- optional payload "wind" ;;
  v_hail <- optional payload "hail" ;;
  v_threat <- optional payload "threat" ;;
  v_author <- optional payload "author" ;;
  v_info <- optional payload "info" ;;
  v_tag <- optional payload "possibleTag" ;;
  Ok {| n_id := v_id; n_type := v_type; n_polygon := json_value v_polygon;
        n_issuedISO := v_issued; n_minutes := v_minutes;
        n_expiresISO := expiresISO;
        n_wind := v_wind; n_hail := v_hail; n_threat := v_threat;
        n_author := v_author; n_info := v_info; n_possibleTag := v_tag |}.

(** The first three steps of [handleIssue]: validation, the expiry instant
    and the upsert.  Whatever they throw is caught by the handler. *)
Definition persist_issue (payload : value) (fault : bool) (now : Z)
    (tbl : list row) : result (new_row * list row) :=
  _ <- validateIssue payload ;;
  expiresISO <- expiry_of payload ;;
  n <- make_row payload expiresISO ;;
  tbl' <- insertWarning_run fault now n tbl ;;
  Ok (n, tbl').

Definition handleIssue (payload : value) (src : string) (fault : bool)
    (s : state) : state :=
  match persist_issue payload fault (clock s) (db s) with
  | Ok (n, tbl) =>
      let s1 := set_db tbl s in
      let s2 := scheduleExpiry (n_id n) (n_expiresISO n) s1 in
      let s3 := broadcast "issue"
                  (VObj (set_prop "expiresISO" (VStr (n_expiresISO n))
                           (spread payload))) s2 in
      log (LogIssue src (n_type n) (n_id n)) s3
  | Throw e => log (IssueError e) s
  end.

Definition handleExpire (id : value) (src : string) (fault : bool)
    (s : state) : state :=
  match expireById_run fault id (db s) with
  | Ok tbl =>
      log (LogExpire src id)
        (broadcast "expire" (VObj [("id", id)]) (set_db tbl s))
  | Throw e => log (ExpireError e) s
  end.

(** ** Connections *)

(** [getActive.all().map(r => ({ ...r, polygon: JSON.parse(r.polygon) }))] *)
Definition actives (fault : bool) (s : state) : result value :=
  rows <- getActive_all fault (clock s) (db s) ;;
  Ok (VArr (map row_object rows)).

Definition add_io (k : io_socket) (s : state) : state :=
  {| db := db s; clock := clock s; timers := timers s;
     ioSockets := (ioSockets s ++ [k])%list; wsClients := wsClients s;
     console := console s; emitted := emitted s;
     connections := S (connections s) |}.

Definition add_ws (c : ws_client) (s : state) : state :=
  {| db := db s; clock := clock s; timers := timers s;
     ioSockets := ioSockets s; wsClients := (wsClients s ++ [c])%list;
     console := console s; emitted := emitted s;
     connections := S (connections s) |}.

(** [io.on("connection", ...)].  Nothing catches a failure of the query
    here: [None] is the process ending on the uncaught exception. *)
Definition io_connection (fault : bool) (s : state) : option state :=
  match actives fault s with
  | Ok rows =>
      Some (add_io {| io_conn := connections s;
                      io_inbox := [("bootstrap", rows)] |} s)
  | Throw _ => None
  end.

(** [wss.on("connection", ...)]: the client joins [wsClients] first, and a
    failure of the bootstrap is swallowed. *)
Definition ws_connection (fault : bool) (s : state) : state :=
  add_ws {| ws_conn := connections s;
            readyState := 1;
            ws_inbox :=
              match actives fault s with
              | Ok rows =>
                  [json_value (VObj [("kind", VStr "bootstrap");
                                     ("warnings", rows)])]
              | Throw _ => []
              end |} s.

Definition is_string (v : value) (text : string) : bool :=
  match v with
  | VStr s => String.eqb s text
  | _ => false
  end.

Definition field (o : value) (k : string) : value :=
  match get o k with
  | Ok v => v
  | Throw _ => VUndefined
  end.

(** [ws.on("message", ...)]; [data] is [None] when [JSON.parse] throws. *)
Definition ws_message (data : option value) (fault : bool) (s : state)
  : state :=
  match data with
  | None => s
  | Some msg =>
      if negb (ToBoolean msg) || negb (ToBoolean (field msg "kind")) then s
      else
        let s1 := if is_string (field msg "kind") "issue"
                     && ToBoolean (field msg "payload")
                  then handleIssue (field msg "payload") "ws" fault s
                  else s in
        if is_string (field msg "kind") "expire" && ToBoolean (field msg "id")
        then handleExpire (field msg "id") "ws" fault s1
        else s1
  end.

(** [socket.on("expire", ({ id }) => handleExpire(id, "io"))]: taking [id]
    out of [null] or [undefined] throws, uncaught. *)
Definition io_expire (arg : value) (fault : bool) (s : state) : option state :=
  match get arg "id" with
  | Ok v => Some (handleExpire v "io" fault s)
  | Throw _ => None
  end.

Definition has_io (c : nat) (s : state) : bool :=
  existsb (fun k => Nat.eqb (io_conn k) c) (ioSockets s).

Definition has_ws (c : nat) (s : state) : bool :=
  existsb (fun k => Nat.eqb (ws_conn k) c) (wsClients s).

Definition drop_io (c : nat) (s : state) : state :=
  {| db := db s; clock := clock s; timers := timers s;
     ioSockets := filter (fun k => negb (Nat.eqb (io_conn k) c)) (ioSockets s);
     wsClients := wsClients s;
     console := console s; emitted := emitted s;
     connections := connections s |}.

Definition set_ws (l : list ws_client) (s : state) : state :=
  {| db := db s; clock := clock s; timers := timers s;
     ioSockets := ioSockets s; wsClients := l;
     console := console s; emitted := emitted s;
     connections := connections s |}.

(** ** Start of the process *)

(** The state of a process that starts on the table [tbl] at [now]:
    [for (const row of getActive.all()) scheduleExpiry(row.id, row.expiresISO)].
    [history] and [conns] carry the record of past broadcasts and the
    numbering of connections over the restart.  A failure of the query ends
    the process ([None]). *)
Definition boot (fault : bool) (now : Z) (tbl : list row)
    (history : list (string * value)) (conns : nat) : option state :=
  match getActive_all fault now tbl with
  | Ok rows =>
      Some (fold_left
              (fun s r => scheduleExpiry (text_value (id r)) (expiresISO r) s)
              rows
              {| db := tbl; clock := now; timers := [];
                 ioSockets := []; wsClients := [];
                 console := []; emitted := history;
                 connections := conns |})
  | Throw _ => None
  end.

(** ** Runs *)

Inductive event : Type :=
| IoConnect (fault : bool)
| IoIssue (conn : nat) (payload : value) (fault : bool)
| IoExpire (conn : nat) (arg : value) (fault : bool)
| IoDisconnect (conn : nat)
| WsConnect (fault : bool)
| WsMessage (conn : nat) (data : option value) (fault : bool)
| WsClosing (conn : nat)
| WsClose (conn : nat)
| Tick (d : Z)
| Fire (n : nat) (fault : bool)
| Restart (fault : bool).

Fixpoint remove_nth {A : Type} (n : nat) (l : list A) : list A :=
  match n, l with
  | _, [] => []
  | O, _ :: rest => rest
  | S n', x :: rest => x :: remove_nth n' rest
  end.

(** One event of the event loop.  [None]: the event cannot happen in this
    state (a message from a connection that is not open, a timer that is not
    due, time running backwards), or it ends the process on an uncaught
    exception; the table is then as it was, and what follows is a [boot]. *)
Definition step (s : state) (ev : event) : option state :=
  match ev with
  | IoConnect fault => io_connection fault s
  | IoIssue c payload fault =>
      if has_io c s then Some (handleIssue payload "io" fault s) else None
  | IoExpire c arg fault =>
      if has_io c s then io_expire arg fault s else None
  | IoDisconnect c =>
      if has_io c s then Some (drop_io c s) else None
  | WsConnect fault => Some (ws_connection fault s)
  | WsMessage c data fault =>
      if has_ws c s then Some (ws_message data fault s) else None
  | WsClosing c =>
      if has_ws c s
      then Some (set_ws (map (fun k => if Nat.eqb (ws_conn k) c
                                       then {| ws_conn := ws_conn k;
                                               readyState := 2;
                                               ws_inbox := ws_inbox k |}
                                       else k) (wsClients s)) s)
      else None
  | WsClose c =>
      if has_ws c s
      then Some (set_ws (filter (fun k => negb (Nat.eqb (ws_conn k) c))
                           (wsClients s)) s)
      else None
  | Tick d =>
      if 0 <=? d
      then Some {| db := db s; clock := clock s + d; timers := timers s;
                   ioSockets := ioSockets s; wsClients := wsClients s;
                   console := console s; emitted := emitted s;
                   connections := connections s |}
      else None
  | Fire n fault =>
      match nth_error (timers s) n with
      | Some t =>
          if due t <=? clock s
          then Some (expire_timer (target t) fault
                       (set_timers (remove_nth n (timers s)) s))
          else None
      | None => None
      end
  | Restart fault => boot fault (clock s) (db s) (emitted s) (connections s)
  end.

Fixpoint run (s : state) (evs : list event) : option state :=
  match evs with
  | [] => Some s
  | ev :: rest =>
      match step s ev with
      | Some s' => run s' rest
      | None => None
      end
  end.

(** ** The history endpoint *)

(** The value of [req.query.date]: absent, a string, or (a repeated or
    bracketed parameter) an array or an object. *)
Inductive query : Type :=
| QAbsent
| QString (s : string)
| QArray
| QObject.

Inductive response : Type :=
| BadRequest (error : string)
| Json (date : string) (count : nat) (warnings : list value)
| ServerError.

Definition bytes (l : list Z) : list ascii :=
  map (fun z => ascii_of_nat (Z.to_nat z)) l.

(** The white space and line terminators of ECMAScript, in UTF-8. *)
Definition white_space : list (list ascii) :=
  map bytes
    [[9]; [10]; [11]; [12]; [13]; [32]; [194; 160]; [225; 154; 128];
     [226; 128; 128]; [226; 128; 129]; [226; 128; 130]; [226; 128; 131];
     [226; 128; 132]; [226; 128; 133]; [226; 128; 134]; [226; 128; 135];
     [226; 128; 136]; [226; 128; 137]; [226; 128; 138]; [226; 128; 168];
     [226; 128; 169]; [226; 128; 175]; [226; 129; 159]; [227; 128; 128];
     [239; 187; 191]].

Fixpoint drop_prefix (p s : list ascii) : option (list ascii) :=
  match p, s with
  | [], _ => Some s
  | a :: p', b :: s' => if Ascii.eqb a b then drop_prefix p' s' else None
  | _ :: _, [] => None
  end.

Fixpoint first_drop (seqs : list (list ascii)) (s : list ascii)
  : option (list ascii) :=
  match seqs with
  | [] => None
  | p :: rest =>
      match drop_prefix p s with
      | Some r => Some r
      | None => first_drop rest s
      end
  end.

Fixpoint strip (fuel : nat) (seqs : list (list ascii)) (s : list ascii)
  : list ascii :=
  match fuel with
  | O => s
  | S fuel' =>
      match first_drop seqs s with
      | Some r => strip fuel' seqs r
      | None => s
      end
  end.

(** [s.trim()] *)
Definition trim (s : string) : string :=
  let l := list_ascii_of_string s in
  let front := strip (List.length l) white_space l in
  string_of_list_ascii
    (rev (strip (List.length l) (map (@rev ascii) white_space) (rev front))).

(** [app.get("/warnings", ...)].  An array or an object has no [trim]: the
    call throws and Express answers with its server error, as it does when
    the query fails. *)
Definition get_warnings (q : query) (fault : bool) (tbl : list row)
  : response :=
  match q with
  | QArray | QObject => ServerError
  | _ =>
      let date := trim (match q with QString s => s | _ => EmptyString end) in
      if negb (date_re_test date) then BadRequest "Use ?date=YYYY-MM-DD"
      else
        match getByDate_all fault date tbl with
        | Ok rows => Json date (List.length rows) (map row_object rows)
        | Throw _ => ServerError
        end
  end.

End Relay.

(** ** What the properties speak of *)

(** The instants [toISOString] writes with a four-digit year: from
    0000-01-01T00:00:00.000Z to 9999-12-31T23:59:59.999Z. *)
Definition four_digit_year (t : Z) : Prop :=
  -62167219200000 <= t <= 253402300799999.

Section Observations.

Context {host : Host}.

(** An id as the table knows it: the text its primary key holds for the
    value.  [None] for a value the binding refuses and for NULL. *)
Definition id_key (v : value) : option string :=
  match bind_value v with
  | Ok k => text_affinity k
  | Throw _ => None
  end.

(** A broadcast of the given kind about the id [w]. *)
Definition is_broadcast (kind w : string) (b : string * value) : bool :=
  String.eqb (fst b) kind && option_eqb (id_key (field (snd b) "id")) (Some w).

Definition expire_count (w : string) (h : list (string * value)) : nat :=
  List.length (filter (is_broadcast "expire" w) h).

(** The timers pending for [w]. *)
Definition pending (w : string) (l : list timer) : nat :=
  List.length (filter (fun t => option_eqb (id_key (target t)) (Some w)) l).

(** No two expire broadcasts for [w] without an issue broadcast for [w]
    between them; [expired] says whether one was seen since the last
    issue. *)
Fixpoint episodes_ok (w : string) (expired : bool) (h : list (string * value))
  : bool :=
  match h with
  | [] => true
  | b :: rest =>
      if is_broadcast "issue" w b then episodes_ok w false rest
      else if is_broadcast "expire" w b
           then (if expired then false else episodes_ok w true rest)
           else episodes_ok w expired rest
  end.

(** The command an event hands to [handleIssue] or [handleExpire], with
    the id it is about. *)
Definition command (ev : event) : option (string * value) :=
  match ev with
  | IoIssue _ payload _ => Some ("issue", field payload "id")
  | IoExpire _ arg _ => Some ("expire", field arg "id")
  | WsMessage _ (Some msg) _ =>
      if negb (ToBoolean msg) || negb (ToBoolean (field msg "kind")) then None
      else if is_string (field msg "kind") "issue"
              && ToBoolean (field msg "payload")
      then Some ("issue", field (field msg "payload") "id")
      else if is_string (field msg "kind") "expire"
              && ToBoolean (field msg "id")
      then Some ("expire", field msg "id")
      else None
  | _ => None
  end.

Definition is_command (kind w : string) (ev : event) : bool :=
  match command ev with
  | Some (k, v) => String.eqb k kind && option_eqb (id_key v) (Some w)
  | None => false
  end.

Definition commands (kind w : string) (evs : list event) : nat :=
  List.length (filter (is_command kind w) evs).

Definition is_restart (ev : event) : bool :=
  match ev with
  | Restart _ => true
  | _ => false
  end.

(** The active set of the table at the state's instant, as the array of
    objects a bootstrap carries. *)
Definition snapshot (s : state) : value :=
  VArr (map row_object (filter (is_active_at (clock s)) (db s))).

(** The bootstrap frame of the native transport. *)
Definition ws_bootstrap (rows : value) : value :=
  json_value (VObj [("kind", VStr "bootstrap"); ("warnings", rows)]).

(** An issue or expire event, on either transport. *)
Definition io_event (m : string * value) : bool :=
  String.eqb (fst m) "issue" || String.eqb (fst m) "expire".

Definition ws_event (frame : value) : bool :=
  is_string (field frame "kind") "issue"
  || is_string (field frame "kind") "expire".

(** The states of a process started by [boot]. *)
Definition reachable (s : state) : Prop :=
  exists fault now tbl history conns evs s0,
    boot fault now tbl history conns = Some s0 /\ run s0 evs = Some s.

(** 1 when the value [v] is the id [w], 0 otherwise. *)
Definition about (w : string) (v : value) : nat :=
  if option_eqb (id_key v) (Some w) then 1%nat else 0%nat.

(** The expire broadcasts made for [w] so far, and those its pending timers
    can still make. *)
Definition budget (w : string) (s : state) : nat :=
  (expire_count w (emitted s) + pending w (timers s))%nat.

(** What an event may add to the budget of [w]. *)
Definition charge (w : string) (ev : event) : nat :=
  ((if is_command "issue" w ev then 1 else 0)
   + (if is_command "expire" w ev then 1 else 0))%nat.

(** The timer [scheduleExpiry] arms at [now] for the row [r], if any. *)
Definition rearmed (now : Z) (r : row) : list timer :=
  match Date_parse (expiresISO r) with
  | Some e =>
      if e - now <=? 0 then []
      else [{| due := now + timeout_delay (Some (e - now));
               target := text_value (id r) |}]
  | None => [{| due := now + 1; target := text_value (id r) |}]
  end.

(** The sockets of [l'] are sockets of [l] that received issue and expire
    events only. *)
Definition io_from (l l' : list io_socket) : Prop :=
  forall k', In k' l' ->
    exists k later, In k l /\ io_conn k' = io_conn k
      /\ io_inbox k' = (io_inbox k ++ later)%list
      /\ Forall (fun m => io_event m = true) later.

Definition ws_from (l l' : list ws_client) : Prop :=
  forall c', In c' l' ->
    exists c later, In c l /\ ws_conn c' = ws_conn c
      /\ ws_inbox c' = (ws_inbox c ++ later)%list
      /\ Forall (fun f => ws_event f = true) later.

(** What a handler does to the registries: nothing, or one delivery. *)
Definition delivery (s s' : state) : Prop :=
  connections s' = connections s
  /\ io_from (ioSockets s) (ioSockets s')
  /\ ws_from (wsClients s) (wsClients s').

(** One event: each socket of the new state is the one that just
    connected, numbered by the old count of connections, or a socket of the
    old state that received issue and expire events only. *)
Definition io_step (s s' : state) : Prop :=
  (connections s <= connections s')%nat
  /\ forall k', In k' (ioSockets s') ->
       (io_conn k' = connections s
        /\ (connections s < connections s')%nat)
       \/ exists k later, In k (ioSockets s) /\ io_conn k' = io_conn k
            /\ io_inbox k' = (io_inbox k ++ later)%list
            /\ Forall (fun m => io_event m = true) later.

Definition ws_step (s s' : state) : Prop :=
  (connections s <= connections s')%nat
  /\ forall c', In c' (wsClients s') ->
       (ws_conn c' = connections s
        /\ (connections s < connections s')%nat)
       \/ exists c later, In c (wsClients s) /\ ws_conn c' = ws_conn c
            /\ ws_inbox c' = (ws_inbox c ++ later)%list
            /\ Forall (fun f => ws_event f = true) later.

(** The socket numbered [c] has [first] as the first message of its inbox
    and issue and expire events after it. *)
Definition io_bootstrapped (c : nat) (first : string * value) (s : state)
  : Prop :=
  (c < connections s)%nat
  /\ forall k, In k (ioSockets s) -> io_conn k = c ->
       exists later, io_inbox k = first :: later
                     /\ Forall (fun m => io_event m = true) later.

Definition ws_bootstrapped (c : nat) (first : value) (s : state) : Prop :=
  (c < connections s)%nat
  /\ forall k, In k (wsClients s) -> ws_conn k = c ->
       exists later, ws_inbox k = first :: later
                     /\ Forall (fun f => ws_event f = true) later.

(** Connections are numbered in order: no open connection bears the next
    number. *)
Definition fresh_connections (s : state) : Prop :=
  Forall (fun k => (io_conn k < connections s)%nat) (ioSockets s)
  /\ Forall (fun c => (ws_conn c < connections s)%nat) (wsClients s).

(** [s'] is [s] with the error [e] of an issue on the console and nothing
    else changed. *)
Definition issue_aborted (e : exn) (s s' : state) : Prop :=
  db s' = db s
  /\ timers s' = timers s
  /\ emitted s' = emitted s
  /\ ioSockets s' = ioSockets s
  /\ wsClients s' = wsClients s
  /\ console s' = (console s ++ [IssueError e])%list.

(** The table holds a row for the id [key] that expires at [e], is active,
    and is among the active rows at every instant of a whole second before
    that of [e]. *)
Definition stored_active_until (tbl : list row) (key : option string) (e : Z)
  : Prop :=
  exists r,
    In r tbl
    /\ id r = key
    /\ expiresISO r = ISO_string e
    /\ active r = 1
    /\ forall now, now / 1000 < e / 1000 ->
       exists rows, getActive_all false now tbl = Ok rows /\ In r rows.

(** A number, a string, [null] or [undefined]. *)
Definition is_scalar (v : value) : bool :=
  match v with
  | VUndefined | VNull | VNum _ | VStr _ => true
  | VBool _ | VArr _ | VObj _ => false
  end.

(** [s'] is [s] after an expire of [id] that changed no row: the table and
    the timers are as they were, the console has the line of a normal
    expire, and every Socket.IO socket and every open client of the native
    transport has the event as one more message at the end of its inbox,
    the clients that are not open having the inbox they had. *)
Definition expire_delivered (id : value) (src : string) (s s' : state) : Prop :=
  db s' = db s
  /\ timers s' = timers s
  /\ console s' = (console s ++ [LogExpire src id])%list
  /\ emitted s' = (emitted s ++ [("expire", VObj [("id", id)])])%list
  /\ Forall2 (fun k k' =>
                io_conn k' = io_conn k
                /\ io_inbox k'
                   = (io_inbox k ++ [("expire", VObj [("id", id)])])%list)
       (ioSockets s) (ioSockets s')
  /\ Forall2 (fun c c' =>
                ws_conn c' = ws_conn c /\ readyState c' = readyState c
                /\ ws_inbox c'
                   = if readyState c =? 1
                     then (ws_inbox c
                           ++ [json_value (VObj [("kind", VStr "expire");
                                                 ("id", id)])])%list
                     else ws_inbox c)
       (wsClients s) (wsClients s').

(** [s'] is [s] with the error [e] of an expire on the console and nothing
    else changed. *)
Definition expire_refused (e : exn) (s s' : state) : Prop :=
  db s' = db s
  /\ timers s' = timers s
  /\ emitted s' = emitted s
  /\ ioSockets s' = ioSockets s
  /\ wsClients s' = wsClients s
  /\ console s' = (console s ++ [ExpireError e])%list.

(** The process started on [tbl] at [now] holds a timer for [w] due at [e],
    and no more timers than the active query returned rows; wherever that
    timer is pending it cannot fire before [e], and firing it from [e] on
    leaves every row of [w] inactive. *)
Definition rearmed_at (e : Z) (w : string) (now : Z) (tbl : list row)
    (s : state) : Prop :=
  db s = tbl /\ clock s = now
  /\ In {| due := e; target := VStr w |} (timers s)
  /\ (List.length (timers s)
      <= List.length (filter (is_active_at now) tbl))%nat
  /\ (forall s1 n fault,
        nth_error (timers s1) n = Some {| due := e; target := VStr w |} ->
        clock s1 < e -> step s1 (Fire n fault) = None)
  /\ (forall s1 n,
        nth_error (timers s1) n = Some {| due := e; target := VStr w |} ->
        e <= clock s1 ->
        exists s2, step s1 (Fire n false) = Some s2
                   /\ forall r', In r' (db s2) -> id r' = Some w ->
                                 active r' = 0).

(** A Socket.IO connection accepted in [s] gets the snapshot of [s] as its
    one bootstrap, and only issue and expire events after it, however the
    run goes on. *)
Definition io_bootstrap_first (s : state) : Prop :=
  exists s1 k,
    step s (IoConnect false) = Some s1
    /\ ioSockets s1 = (ioSockets s ++ [k])%list
    /\ io_conn k = connections s
    /\ io_inbox k = [("bootstrap", snapshot s)]
    /\ forall evs s2 k2,
         run s1 evs = Some s2 -> In k2 (ioSockets s2) ->
         io_conn k2 = connections s ->
         exists later,
           io_inbox k2 = ("bootstrap", snapshot s) :: later
           /\ Forall (fun m => io_event m = true) later.

(** The same for a connection of the native transport. *)
Definition ws_bootstrap_first (s : state) : Prop :=
  exists s1 c,
    step s (WsConnect false) = Some s1
    /\ wsClients s1 = (wsClients s ++ [c])%list
    /\ ws_conn c = connections s
    /\ ws_inbox c = [ws_bootstrap (snapshot s)]
    /\ forall evs s2 c2,
         run s1 evs = Some s2 -> In c2 (wsClients s2) ->
         ws_conn c2 = connections s ->
         exists later,
           ws_inbox c2 = ws_bootstrap (snapshot s) :: later
           /\ Forall (fun f => ws_event f = true) later.

(** The upsert wrote one row for the id of [n], stamped with the second of
    [now], in place of whatever row had that id. *)
Definition upsert_stamps (now : Z) (n : new_row) (tbl tbl' : list row) : Prop :=
  exists r,
    tbl' = (filter (fun r' => negb (id_is (id r) r')) tbl ++ [r])%list
    /\ id r = id_key (n_id n)
    /\ created_at r = datetime_text (now / 1000).

(** Deactivation changes neither the ids nor the creation stamps. *)
Definition expire_keeps_stamps : Prop :=
  forall fault v tbl tbl',
    expireById_run fault v tbl = Ok tbl' ->
    map created_at tbl' = map created_at tbl /\ map id tbl' = map id tbl.

End Observations.

Definition issued_le (a b : row) : Prop :=
  String.leb (issuedISO a) (issuedISO b) = true.

(** Written from the specification's words, to compare with the check the
    endpoint makes: a well-formed calendar date is [YYYY-MM-DD] with a month
    from 1 to 12 and a day that exists in that month. *)
Definition well_formed_calendar_date (s : string) : bool :=
  match read_digits 4 0 s with
  | Some (y, s1) =>
      match expect "-" s1 with
      | Some s2 =>
          match read_digits 2 0 s2 with
          | Some (m, s3) =>
              match expect "-" s3 with
              | Some s4 =>
                  match read_digits 2 0 s4 with
                  | Some (d, EmptyString) =>
                      (1 <=? m) && (m <=? 12) && (1 <=? d)
                      && (d <=? days_in_month y m)
                  | _ => false
                  end
              | None => false
              end
          | None => false
          end
      | None => false
      end
  | None => false
  end.

(** ** Invariants of the table and of the process *)

(** The primary key: no two rows share an id. *)
Definition unique_ids (tbl : list row) : Prop :=
  forall w, (List.length (filter (id_is (Some w)) tbl) <= 1)%nat.

(** Every row of the id [w] is inactive. *)
Definition inactive (w : string) (tbl : list row) : Prop :=
  forall r, In r tbl -> id r = Some w -> active r = 0.

(** The row [r'] is the row [r] but, at most, for its [active] flag. *)
Definition same_but_active (r r' : row) : Prop :=
  id r' = id r /\ type r' = type r /\ polygon r' = polygon r
  /\ issuedISO r' = issuedISO r /\ minutes r' = minutes r
  /\ expiresISO r' = expiresISO r
  /\ wind r' = wind r /\ hail r' = hail r /\ threat r' = threat r
  /\ author r' = author r /\ info r' = info r
  /\ possibleTag r' = possibleTag r /\ created_at r' = created_at r.

Section Invariants.

Context {host : Host}.

(** Every pending timer is for an id the table has a row of. *)
Definition timers_stored (s : state) : Prop :=
  forall t, In t (timers s) -> In (id_key (target t)) (map id (db s)).

(** Every issue that was announced is about an id the table has a row
    of. *)
Definition announced_stored (s : state) : Prop :=
  forall obj, In ("issue", obj) (emitted s) ->
    In (id_key (field obj "id")) (map id (db s)).

(** The client numbered [c] was accepted, and whatever bears its number in
    the registry holds issue and expire frames only. *)
Definition ws_events_only (c : nat) (s : state) : Prop :=
  (c < connections s)%nat
  /\ forall k, In k (wsClients s) -> ws_conn k = c ->
       Forall (fun f => ws_event f = true) (ws_inbox k).

(** The client numbered [c] was accepted and is no longer registered. *)
Definition ws_gone (c : nat) (s : state) : Prop :=
  (c < connections s)%nat
  /\ forall k, In k (wsClients s) -> ws_conn k <> c.

End Invariants.

(** ** A host and some data to run the handlers on *)

Fixpoint decimal (acc : Z) (s : string) : option Z :=
  match s with
  | EmptyString => Some acc
  | String c rest =>
      if is_digit c then decimal (10 * acc + digit_value c) rest else None
  end.

(** A host for the examples.  It reads and prints whole numbers only,
    knows no date outside the common form and computes without rounding;
    the examples stay where every host agrees with it. *)
Definition reference_host : Host :=
  {| host_Date_parse := fun _ => None;
     StringToNumber := fun s =>
       match s with
       | EmptyString => Fin 0
       | _ => match decimal 0 s with
              | Some z => Fin (inject_Z z)
              | None => NaN
              end
       end;
     NumberToString := fun n =>
       match n with
       | Fin q => Z_text (Qtrunc q)
       | NaN => "NaN"
       | PosInf => "Infinity"
       | NegInf => "-Infinity"
       end;
     sqlite_text_of_real := fun n =>
       match n with
       | Fin q => Z_text (Qtrunc q) ++ ".0"
       | NaN => EmptyString
       | PosInf => "Inf"
       | NegInf => "-Inf"
       end;
     sqlite_numeric_of_text := fun s =>
       match s with
       | EmptyString => SText s
       | _ => match decimal 0 s with
              | Some z => SInt z
              | None => SText s
              end
       end;
     double := fun q => Fin (Qred q);
     double_exact := fun q z H _ =>
       eq_trans (f_equal Fin (Qred_complete q (inject_Z z) H))
         (f_equal Fin (Qcanon.Qred_identity (inject_Z z) (Z.gcd_1_r z))) |}.

(** 2024-05-01T12:00:00.000Z *)
Definition noon : Z := 1714564800000.

Definition ring : value :=
  VArr [VArr [VNum (Fin 40); VNum (Fin (-90))];
        VArr [VNum (Fin (401 # 10)); VNum (Fin (-90))];
        VArr [VNum (Fin (401 # 10)); VNum (Fin (-901 # 10))]].

(** The issue command of the specification's example, with the polygon and
    the instant of issue left open. *)
Definition warning (polygon : value) (issued : string) : value :=
  VObj [("id", VStr "W1"); ("type", VStr "TOR"); ("polygon", polygon);
        ("issuedISO", VStr issued); ("minutes", VNum (Fin 30))].

Definition W1 : value := warning (VArr [ring]) "2024-05-01T12:00:00.000Z".

(** The same warning issued half a second later. *)
Definition W1_half : value := warning (VArr [ring]) "2024-05-01T12:00:00.500Z".

Definition ws_issue (payload : value) : option value :=
  Some (VObj [("kind", VStr "issue"); ("payload", payload)]).

Definition ws_expire (id : value) : option value :=
  Some (VObj [("kind", VStr "expire"); ("id", id)]).

(** A process just started on an empty table at [now]. *)
Definition started (now : Z) : state :=
  {| db := []; clock := now; timers := []; ioSockets := [];
     wsClients := []; console := []; emitted := []; connections := 0 |}.

(** A warning whose id is a number. *)
Definition W7 : value :=
  VObj [("id", VNum (Fin 7)); ("type", VStr "TOR"); ("polygon", VArr [ring]);
        ("issuedISO", VStr "2024-05-01T12:00:00.000Z");
        ("minutes", VNum (Fin 30))].

(** The invalid command of the specification's examples. *)
Definition W2 : value := VObj [("id", VStr "W2"); ("minutes", VNum (Fin 0))].

(** The row object [handleIssue] builds for [W1]. *)
Definition W1_row : new_row :=
  {| n_id := VStr "W1"; n_type := VStr "TOR"; n_polygon := VArr [ring];
     n_issuedISO := VStr "2024-05-01T12:00:00.000Z";
     n_minutes := VNum (Fin 30);
     n_expiresISO := "2024-05-01T12:30:00.000Z";
     n_wind := VNull; n_hail := VNull; n_threat := VNull;
     n_author := VNull; n_info := VNull; n_possibleTag := VNull |}.

(** The row the store holds for [W1] once it is issued at [noon]. *)
Definition W1_stored : row :=
  {| id := Some "W1"; type := "TOR"; polygon := VArr [ring];
     issuedISO := "2024-05-01T12:00:00.000Z"; minutes := SInt 30;
     expiresISO := "2024-05-01T12:30:00.000Z";
     wind := None; hail := None; threat := None; author := None;
     info := None; possibleTag := None;
     active := 1; created_at := "2024-05-01 12:00:00" |}.

(** The state the reference host reaches from [started noon] by a run. *)
Definition after (evs : list event) : state :=
  match run (host := reference_host) (started noon) evs with
  | Some s => s
  | None => started noon
  end.

(** A client of the native transport connects and issues the warning. *)
Definition issue_run (payload : value) : list event :=
  [WsConnect false; WsMessage 0 (ws_issue payload) false].

(** The warning is issued, expired by hand, and its timer fires at the
    expiry. *)
Definition episode : list event :=
  issue_run W1
  ++ [WsMessage 0 (ws_expire (VStr "W1")) false; Tick 1800000; Fire 0 false].

(** The row of [W1] once it is expired. *)
Definition W1_expired : row := deactivate W1_stored.

(** The process restarted a minute past noon on the table that holds
    [W1]. *)
Definition rebooted : state :=
  {| db := [W1_stored]; clock := noon + 60000;
     timers := [{| due := noon + 1800000; target := VStr "W1" |}];
     ioSockets := []; wsClients := []; console := []; emitted := [];
     connections := 0 |}.

(** A client of the native transport that got the bootstrap of an empty
    table and is closing. *)
Definition closing_client : ws_client :=
  {| ws_conn := 0; readyState := 2; ws_inbox := [ws_bootstrap (VArr [])] |}.

(** A Socket.IO socket connects and issues the warning. *)
Definition io_issue_run (payload : value) : list event :=
  [IoConnect false; IoIssue 1 payload false].

Unset Implicit Arguments.

(** * Lemmas and theorems *)

(** ** The calendar *)

Lemma civil_of_doe_spec doe :
  0 <= doe < 146097 ->
  let '(y, m, d) := civil_of_doe doe in
  0 <= y <= 400 /\ 1 <= m <= 12 /\ 1 <= d <= days_in_month y m /\
  days_from_civil y m d = doe - 719468 /\
  (doe <= 146036 -> y <= 399) /\ (146037 <= doe -> y = 400).
Proof.
  intros H. unfold civil_of_doe.
  set (yoe := (doe - doe / 1460 + doe / 36524 - doe / 146096) / 365).
  set (doy := doe - (365 * yoe + yoe / 4 - yoe / 100)).
  set (mp := (5 * doy + 2) / 153).
  set (d := doy - (153 * mp + 2) / 5 + 1).
  assert (Hy : 0 <= yoe <= 399 /\ 0 <= doy <= 365).
  { subst yoe doy mp d. Z.div_mod_to_equations. lia. }
  assert (Hleap : doy = 365 ->
            (yoe + 1) mod 4 = 0 /\
            ((yoe + 1) mod 100 <> 0 \/ (yoe + 1) mod 400 = 0)).
  { subst yoe doy mp d. Z.div_mod_to_equations. lia. }
  assert (Hlast : (doe <= 146036 -> yoe < 399 \/ doy <= 305) /\
                  (146037 <= doe -> yoe = 399 /\ 306 <= doy)).
  { subst yoe doy mp d. Z.div_mod_to_equations. lia. }
  assert (Hdoe : doe = 365 * yoe + yoe / 4 - yoe / 100 + doy)
    by (subst doy; lia).
  assert (Hmp : 153 * mp <= 5 * doy + 2 < 153 * (mp + 1)).
  { subst mp. Z.div_mod_to_equations. lia. }
  assert (Hd : d = doy - (153 * mp + 2) / 5 + 1) by reflexivity.
  clearbody d mp doy yoe.
  set (m := if mp <? 10 then mp + 3 else mp - 9).
  assert (Hm : (mp < 10 /\ m = mp + 3) \/ (10 <= mp /\ m = mp - 9)).
  { subst m. destruct (Z.ltb_spec mp 10); lia. }
  clearbody m.
  set (c := if m <=? 2 then 1 else 0).
  assert (Hc : (m <= 2 /\ c = 1) \/ (2 < m /\ c = 0)).
  { subst c. destruct (Z.leb_spec m 2); lia. }
  unfold days_from_civil, days_in_month, is_leap.
  fold c. clearbody c.
  replace (yoe + c - c) with yoe by lia.
  rewrite (Z.mod_small yoe 400), (Z.div_small yoe 400) by lia.
  replace (if 2 <? m then m - 3 else m + 9) with mp
    by (destruct (Z.ltb_spec 2 m); lia).
  assert (Hd1 : 1 <= d) by (Z.div_mod_to_equations; lia).
  split; [lia|]. split; [lia|]. split; [split; [exact Hd1|] |].
  - destruct (Z.eqb_spec m 2) as [E2|E2].
    + assert (d <= 28 \/ doy = 365 /\ d = 29) by (Z.div_mod_to_equations; lia).
      destruct ((yoe + c) mod 4 =? 0) eqn:E4;
        destruct ((yoe + c) mod 100 =? 0) eqn:E100;
        destruct ((yoe + c) mod 400 =? 0) eqn:E400; cbn [andb orb negb];
        rewrite ?Z.eqb_eq, ?Z.eqb_neq in *;
        try lia;
        (assert (c = 1) by lia; subst c; lia).
    + destruct (Z.eqb_spec m 4), (Z.eqb_spec m 6), (Z.eqb_spec m 9),
        (Z.eqb_spec m 11); cbn [orb]; Z.div_mod_to_equations; lia.
  - split; [Z.div_mod_to_equations; lia|]. split; intros; lia.
Qed.

Lemma days_from_civil_shift y m d k :
  days_from_civil (y + 400 * k) m d = days_from_civil y m d + 146097 * k.
Proof.
  unfold days_from_civil.
  set (c := if m <=? 2 then 1 else 0).
  replace (y + 400 * k - c) with (y - c + k * 400) by lia.
  rewrite Z.div_add, Z.mod_add by lia. lia.
Qed.

Lemma is_leap_shift y k : is_leap (y + 400 * k) = is_leap y.
Proof.
  unfold is_leap.
  replace ((y + 400 * k) mod 4) with (y mod 4)
    by (replace (y + 400 * k) with (y + (100 * k) * 4) by lia;
        now rewrite Z.mod_add by lia).
  replace ((y + 400 * k) mod 100) with (y mod 100)
    by (replace (y + 400 * k) with (y + (4 * k) * 100) by lia;
        now rewrite Z.mod_add by lia).
  replace ((y + 400 * k) mod 400) with (y mod 400)
    by (replace (y + 400 * k) with (y + k * 400) by lia;
        now rewrite Z.mod_add by lia).
  reflexivity.
Qed.

Lemma civil_from_days_spec z :
  let '(y, m, d) := civil_from_days z in
  1 <= m <= 12 /\ 1 <= d <= days_in_month y m /\ days_from_civil y m d = z.
Proof.
  unfold civil_from_days.
  assert (Hr : 0 <= (z + 719468) mod 146097 < 146097)
    by (apply Z.mod_pos_bound; lia).
  pose proof (civil_of_doe_spec _ Hr) as Hs.
  destruct (civil_of_doe ((z + 719468) mod 146097)) as [[y m] d].
  destruct Hs as (_ & Hm & Hd & Hdays & _).
  split; [exact Hm|]. split.
  - unfold days_in_month in *. now rewrite is_leap_shift.
  - rewrite days_from_civil_shift, Hdays.
    pose proof (Z.div_mod (z + 719468) 146097). lia.
Qed.

Lemma civil_year_range z :
  -719528 <= z <= 2932896 ->
  let '(y, _, _) := civil_from_days z in 0 <= y <= 9999.
Proof.
  intros Hz. unfold civil_from_days.
  assert (Hr : 0 <= (z + 719468) mod 146097 < 146097)
    by (apply Z.mod_pos_bound; lia).
  pose proof (civil_of_doe_spec _ Hr) as Hs.
  destruct (civil_of_doe ((z + 719468) mod 146097)) as [[y m] d].
  destruct Hs as (Hy & _ & _ & _ & Hlo & Hhi).
  Z.div_mod_to_equations. lia.
Qed.
Lemma digit_char_ok k :
  0 <= k <= 9 ->
  is_digit (digit_char k) = true /\ digit_value (digit_char k) = k.
Proof.
  intros H.
  assert (Hk : k = 0 \/ k = 1 \/ k = 2 \/ k = 3 \/ k = 4 \/ k = 5 \/ k = 6 \/
               k = 7 \/ k = 8 \/ k = 9) by lia.
  repeat (destruct Hk as [-> | Hk]); try subst k; split; reflexivity.
Qed.

Lemma read_digits_pad n : forall k acc rest,
  read_digits n acc (pad n k ++ rest)
  = Some (acc * 10 ^ Z.of_nat n + k mod 10 ^ Z.of_nat n, rest).
Proof.
  induction n as [|n IH]; intros k acc rest.
  - cbn [read_digits pad append Z.of_nat]. rewrite Z.pow_0_r, Z.mod_1_r.
    f_equal. f_equal. lia.
  - cbn [read_digits pad append].
    assert (Hd : 0 <= k / 10 ^ Z.of_nat n mod 10 <= 9)
      by (pose proof (Z.mod_pos_bound (k / 10 ^ Z.of_nat n) 10); lia).
    destruct (digit_char_ok _ Hd) as [-> ->].
    rewrite IH. f_equal. f_equal.
    rewrite Nat2Z.inj_succ, Z.pow_succ_r by lia.
    assert (Hp : 0 < 10 ^ Z.of_nat n) by (apply Z.pow_pos_nonneg; lia).
    rewrite (Z.mul_comm 10 (10 ^ Z.of_nat n)).
    rewrite (Z.rem_mul_r k (10 ^ Z.of_nat n) 10) by lia.
    lia.
Qed.

Lemma read_field n k rest :
  0 <= k < 10 ^ Z.of_nat n ->
  read_digits n 0 (pad n k ++ rest) = Some (k, rest).
Proof.
  intros H. rewrite read_digits_pad, Z.mod_small by exact H. reflexivity.
Qed.

Lemma read_timestamp_fields y mo d h mi sec ms :
  0 <= y <= 9999 -> 0 <= mo <= 99 -> 0 <= d <= 99 -> 0 <= h <= 99 ->
  0 <= mi <= 99 -> 0 <= sec <= 99 -> 0 <= ms <= 999 ->
  read_timestamp
    (pad 4 y ++ "-" ++ pad 2 mo ++ "-" ++ pad 2 d ++ "T" ++ pad 2 h ++ ":"
     ++ pad 2 mi ++ ":" ++ pad 2 sec ++ "." ++ pad 3 ms ++ "Z")
  = Some (y, mo, d, h, mi, sec, ms).
Proof.
  intros. unfold read_timestamp.
  repeat (rewrite read_field by (cbn; lia); cbn [append expect Ascii.eqb Bool.eqb]).
  reflexivity.
Qed.

Lemma read_ISO_string t :
  four_digit_year t ->
  exists y mo d,
    civil_from_days (t / msPerDay) = (y, mo, d) /\
    read_timestamp (ISO_string t)
    = Some (y, mo, d, t mod msPerDay / 3600000, t mod msPerDay / 60000 mod 60,
            t mod msPerDay / 1000 mod 60, t mod msPerDay mod 1000).
Proof.
  intros Ht. unfold four_digit_year, msPerDay in *.
  assert (Hdays : -719528 <= t / 86400000 <= 2932896)
    by (Z.div_mod_to_equations; lia).
  pose proof (civil_year_range _ Hdays) as Hy.
  pose proof (civil_from_days_spec (t / 86400000)) as Hc.
  unfold ISO_string, msPerDay.
  destruct (civil_from_days (t / 86400000)) as [[y mo] d].
  exists y, mo, d. split; [reflexivity|].
  destruct Hc as (Hmo & Hd & _).
  assert (Hdm : days_in_month y mo <= 31).
  { unfold days_in_month.
    destruct (mo =? 2); [destruct (is_leap y); lia|].
    destruct ((mo =? 4) || (mo =? 6) || (mo =? 9) || (mo =? 11)); lia. }
  replace ((0 <=? y) && (y <=? 9999)) with true
    by (symmetry; apply andb_true_intro; split; apply Z.leb_le; lia).
  pose proof (Z.mod_pos_bound t 86400000).
  apply read_timestamp_fields; try lia; Z.div_mod_to_equations; lia.
Qed.

Lemma parse_ISO_string t :
  four_digit_year t -> parse_iso_utc (ISO_string t) = Some t.
Proof.
  intros Ht. destruct (read_ISO_string _ Ht) as (y & mo & d & Hc & Hr).
  pose proof (civil_from_days_spec (t / msPerDay)) as Hs.
  rewrite Hc in Hs. destruct Hs as (Hmo & Hd & Hdays).
  unfold parse_iso_utc. rewrite Hr. unfold msPerDay in *.
  pose proof (Z.mod_pos_bound t 86400000).
  replace ((1 <=? mo) && (mo <=? 12) && (1 <=? d) && (d <=? days_in_month y mo)
           && (t mod 86400000 / 3600000 <=? 23)
           && (t mod 86400000 / 60000 mod 60 <=? 59)
           && (t mod 86400000 / 1000 mod 60 <=? 59)) with true.
  - rewrite Hdays. f_equal. Z.div_mod_to_equations. lia.
  - symmetry. repeat (apply andb_true_intro; split); apply Z.leb_le; try lia;
      Z.div_mod_to_equations; lia.
Qed.

Lemma sqlite_datetime_ISO_string t :
  four_digit_year t -> sqlite_datetime (ISO_string t) = Some (t / 1000).
Proof.
  intros Ht. destruct (read_ISO_string _ Ht) as (y & mo & d & Hc & Hr).
  pose proof (civil_from_days_spec (t / msPerDay)) as Hs.
  rewrite Hc in Hs. destruct Hs as (Hmo & Hd & Hdays).
  assert (Hdm : days_in_month y mo <= 31).
  { unfold days_in_month.
    destruct (mo =? 2); [destruct (is_leap y); lia|].
    destruct ((mo =? 4) || (mo =? 6) || (mo =? 9) || (mo =? 11)); lia. }
  unfold sqlite_datetime. rewrite Hr. unfold msPerDay in *.
  pose proof (Z.mod_pos_bound t 86400000).
  replace ((1 <=? mo) && (mo <=? 12) && (1 <=? d) && (d <=? 31)
           && (t mod 86400000 / 3600000 <=? 24)
           && (t mod 86400000 / 60000 mod 60 <=? 59)
           && (t mod 86400000 / 1000 mod 60 <=? 59)) with true.
  - rewrite Hdays. f_equal. Z.div_mod_to_equations. lia.
  - symmetry. repeat (apply andb_true_intro; split); apply Z.leb_le; try lia;
      Z.div_mod_to_equations; lia.
Qed.

(** ** Issue commands *)

Section Handlers.

Context {host : Host}.

Lemma get_field p k : nullish p = false -> get p k = Ok (field p k).
Proof.
  intros H. unfold field. destruct p; try discriminate H; cbn; try reflexivity.
  destruct (lookup k props); reflexivity.
Qed.

Lemma get_nullish p k : nullish p = true -> get p k = Throw TypeError.
Proof. destruct p; try discriminate; reflexivity. Qed.

Lemma validateIssue_nullish p :
  nullish p = true -> validateIssue p = Throw TypeError.
Proof. destruct p; try discriminate; reflexivity. Qed.

Lemma validateIssue_ok_object p :
  validateIssue p = Ok tt -> nullish p = false.
Proof.
  intros H. destruct (nullish p) eqn:E; [|reflexivity].
  rewrite (validateIssue_nullish _ E) in H. discriminate H.
Qed.

Lemma make_row_ok p x :
  nullish p = false ->
  exists n, make_row p x = Ok n /\ n_id n = field p "id" /\ n_expiresISO n = x
            /\ n_issuedISO n = field p "issuedISO" /\ n_minutes n = field p "minutes".
Proof.
  intros H. unfold make_row, optional.
  rewrite !(get_field _ _ H). cbn [bind].
  eexists. split; [reflexivity|]. cbn. repeat split.
Qed.

Lemma persist_issue_throw payload fault now tbl e :
  persist_issue payload fault now tbl = Throw e <->
  validateIssue payload = Throw e
  \/ (validateIssue payload = Ok tt /\ expiry_of payload = Throw e)
  \/ (exists x n, validateIssue payload = Ok tt /\ expiry_of payload = Ok x
                  /\ make_row payload x = Ok n
                  /\ insertWarning_run fault now n tbl = Throw e).
Proof.
  unfold persist_issue.
  destruct (validateIssue payload) as [[]|e0] eqn:Ev; cbn [bind].
  - destruct (expiry_of payload) as [x|e1] eqn:Ex; cbn [bind].
    + destruct (make_row_ok payload x (validateIssue_ok_object _ Ev))
        as (n & Hn & _).
      rewrite Hn. cbn [bind].
      destruct (insertWarning_run fault now n tbl) as [tbl'|e2] eqn:Ei;
        cbn [bind].
      * split; [discriminate|].
        intros [H|[[_ H]|(x' & n' & _ & Hx & Hn' & Hi)]]; try discriminate.
        injection Hx as <-. rewrite Hn in Hn'. injection Hn' as <-.
        rewrite Ei in Hi. discriminate.
      * split.
        -- intros H. right. right. exists x, n. injection H as <-. auto.
        -- intros [H|[[_ H]|(x' & n' & _ & Hx & Hn' & Hi)]]; try discriminate.
           injection Hx as <-. rewrite Hn in Hn'. injection Hn' as <-.
           rewrite Ei in Hi. injection Hi as <-. reflexivity.
    + split.
      * intros H. injection H as <-. right. left. auto.
      * intros [H|[[_ H]|(x' & n' & _ & Hx & _)]]; try discriminate.
        injection H as <-. reflexivity.
  - split.
    + intros H. injection H as <-. left. reflexivity.
    + intros [H|[[H _]|(x' & n' & H & _)]]; try discriminate.
      injection H as <-. reflexivity.
Qed.

(** C5.  When an issue command fails in its validation, in the computation
    of its expiry or in the upsert, with whatever error [e], [handleIssue]
    returns normally with the table, the timers, both registries with their
    inboxes and the record of broadcasts exactly as they were: no timer is
    armed, nothing is broadcast, the warning keeps its stored state, and the
    error is one more line of the console. *)
Theorem failed_issue_aborts payload src fault s e :
  validateIssue payload = Throw e
  \/ (validateIssue payload = Ok tt /\ expiry_of payload = Throw e)
  \/ (exists x n, validateIssue payload = Ok tt /\ expiry_of payload = Ok x
                  /\ make_row payload x = Ok n
                  /\ insertWarning_run fault (clock s) n (db s) = Throw e) ->
  issue_aborted e s (handleIssue payload src fault s).
Proof.
  intros H. apply persist_issue_throw in H.
  unfold issue_aborted, handleIssue. rewrite H. cbn. repeat split.
Qed.

Lemma check_required_throw ks p e :
  nullish p = false -> check_required ks p = Throw e ->
  exists k, In k ks /\ nullish (field p k) = true.
Proof.
  intros Hp. induction ks as [|k ks IH]; cbn [check_required]; [discriminate|].
  rewrite (get_field _ _ Hp). cbn [bind].
  destruct (nullish (field p k)) eqn:E.
  - intros _. exists k. split; [left; reflexivity | exact E].
  - intros H. destruct (IH H) as (k' & Hin & Hk). exists k'. split; [right|]; auto.
Qed.

Lemma check_required_ok ks p :
  nullish p = false -> check_required ks p = Ok tt ->
  forall k, In k ks -> nullish (field p k) = false.
Proof.
  intros Hp. induction ks as [|k ks IH]; cbn [check_required]; [intros _ k []|].
  rewrite (get_field _ _ Hp). cbn [bind].
  destruct (nullish (field p k)) eqn:E; [discriminate|].
  intros H k' [<-|Hin]; auto.
Qed.

Lemma scheduleExpiry_frame id iso s :
  db (scheduleExpiry id iso s) = db s
  /\ clock (scheduleExpiry id iso s) = clock s
  /\ ioSockets (scheduleExpiry id iso s) = ioSockets s
  /\ wsClients (scheduleExpiry id iso s) = wsClients s
  /\ console (scheduleExpiry id iso s) = console s
  /\ emitted (scheduleExpiry id iso s) = emitted s
  /\ connections (scheduleExpiry id iso s) = connections s.
Proof.
  unfold scheduleExpiry. destruct (Date_parse iso) as [e|]; cbn [option_map].
  - destruct (e - clock s <=? 0); cbn; repeat split.
  - cbn. repeat split.
Qed.

Lemma scheduleExpiry_timers id iso s :
  timers (scheduleExpiry id iso s)
  = (timers s ++
     match Date_parse iso with
     | Some e =>
         if e - clock s <=? 0 then []
         else [{| due := clock s + timeout_delay (Some (e - clock s));
                  target := id |}]
     | None => [{| due := clock s + 1; target := id |}]
     end)%list.
Proof.
  unfold scheduleExpiry. destruct (Date_parse iso) as [e|]; cbn [option_map].
  - destruct (e - clock s <=? 0); cbn; [now rewrite app_nil_r | reflexivity].
  - reflexivity.
Qed.

Ltac step_bind H :=
  match type of H with
  | bind ?r _ = _ =>
      let E := fresh "E" in
      destruct r eqn:E; cbn [bind] in H; [|discriminate H]
  end.

Lemma insertWarning_run_ok fault now n tbl tbl' :
  insertWarning_run fault now n tbl = Ok tbl' ->
  exists r,
    tbl' = (filter (fun r' => negb (id_is (id r) r')) tbl ++ [r])%list
    /\ id r = id_key (n_id n)
    /\ polygon r = n_polygon n
    /\ expiresISO r = n_expiresISO n
    /\ active r = 1
    /\ created_at r = datetime_text (sqlite_now now)
    /\ fault = false.
Proof.
  intros H. unfold insertWarning_run in H.
  repeat step_bind H.
  cbv zeta in H.
  match type of H with Ok (_ ++ [?r])%list = _ => exists r end.
  injection H as <-. split; [reflexivity|].
  cbn. unfold id_key. rewrite E. repeat split.
  destruct fault; [|reflexivity].
  match goal with E' : storage true = Ok _ |- _ => discriminate E' end.
Qed.

Lemma handleIssue_ok payload src fault s n tbl :
  persist_issue payload fault (clock s) (db s) = Ok (n, tbl) ->
  db (handleIssue payload src fault s) = tbl
  /\ timers (handleIssue payload src fault s)
     = timers (scheduleExpiry (n_id n) (n_expiresISO n) (set_db tbl s))
  /\ emitted (handleIssue payload src fault s)
     = (emitted s ++
        [("issue", VObj (set_prop "expiresISO" (VStr (n_expiresISO n))
                           (spread payload)))])%list
  /\ console (handleIssue payload src fault s)
     = (console s ++ [LogIssue src (n_type n) (n_id n)])%list.
Proof.
  intros H. unfold handleIssue. rewrite H. cbn.
  destruct (scheduleExpiry_frame (n_id n) (n_expiresISO n) (set_db tbl s))
    as (-> & _ & _ & _ & -> & -> & _).
  repeat split.
Qed.

(** C4, as the code has it.  Validation fails exactly when the payload is
    [null] or [undefined], or one of [id], [type], [polygon], [issuedISO],
    [minutes] is, or [polygon] is not an array, or [issuedISO] as a text
    does not begin with four digits, a dash, two digits, a dash, two digits
    and a [T], or [Number(minutes)] is not a finite number from 1 to 1440.
    The command is rejected, that is logged as an error, exactly when
    validation fails, or the expiry instant cannot be computed, or the
    upsert fails; a rejected command writes no row, arms no timer and
    broadcasts nothing, and a command that is not rejected is stored and
    broadcast. *)
Theorem issue_rejection payload src fault s :
  ((exists e, validateIssue payload = Throw e) <->
   nullish payload = true
   \/ (exists k, In k required /\ nullish (field payload k) = true)
   \/ Array_isArray (field payload "polygon") = false
   \/ (forall text, ToString (field payload "issuedISO") = Ok text ->
       issuedISO_re_test text = false)
   \/ (forall m, ToNumber (field payload "minutes") = Ok m ->
       isFinite m = false \/ num_ltb m (Fin 1) = true
       \/ num_ltb (Fin 1440) m = true))
  /\ ((exists e, handleIssue payload src fault s = log (IssueError e) s) <->
      (exists e, validateIssue payload = Throw e)
      \/ (exists e, expiry_of payload = Throw e)
      \/ (exists x n e, expiry_of payload = Ok x /\ make_row payload x = Ok n
                        /\ insertWarning_run fault (clock s) n (db s) = Throw e))
  /\ (forall e, handleIssue payload src fault s = log (IssueError e) s ->
      db (handleIssue payload src fault s) = db s
      /\ timers (handleIssue payload src fault s) = timers s
      /\ emitted (handleIssue payload src fault s) = emitted s)
  /\ ((forall e, handleIssue payload src fault s <> log (IssueError e) s) ->
      exists obj r,
        emitted (handleIssue payload src fault s)
        = (emitted s ++ [("issue", obj)])%list
        /\ In r (db (handleIssue payload src fault s))
        /\ id r = id_key (field payload "id")).
Proof.
  split; [|split; [|split]].
  - destruct (nullish payload) eqn:Hp.
    { rewrite (validateIssue_nullish _ Hp). split; eauto. }
    unfold validateIssue. rewrite !(get_field _ _ Hp).
    destruct (check_required required payload) as [[]|e0] eqn:Hc; cbn [bind].
    2:{ split; [intros _|eauto].
        right. left. eapply check_required_throw; eauto. }
    pose proof (check_required_ok _ _ Hp Hc) as Hreq.
    destruct (Array_isArray (field payload "polygon")) eqn:Ha; cbn [negb].
    2:{ split; eauto. }
    destruct (ToString (field payload "issuedISO")) as [text|e1] eqn:Ht;
      cbn [bind].
    2:{ split; [intros _|eauto]. do 3 right. left. discriminate. }
    destruct (issuedISO_re_test text) eqn:Hre; cbn [negb].
    2:{ split; [intros _|eauto]. do 3 right. left.
        intros t' Ht'. injection Ht' as <-. exact Hre. }
    destruct (ToNumber (field payload "minutes")) as [m|e2] eqn:Hm; cbn [bind].
    2:{ split; [intros _|eauto]. do 4 right. discriminate. }
    destruct (negb (isFinite m) || num_ltb m (Fin 1) || num_ltb (Fin 1440) m)
      eqn:Hbad.
    + split; [intros _|eauto]. do 4 right.
      intros m' Hm'. injection Hm' as <-.
      apply orb_true_iff in Hbad as [Hbad|Hbad]; [|auto].
      apply orb_true_iff in Hbad as [Hbad|Hbad]; [|auto].
      left. now apply negb_true_iff.
    + split; [intros [e He]; discriminate He|].
      apply orb_false_iff in Hbad as [Hbad H3].
      apply orb_false_iff in Hbad as [H1 H2]. apply negb_false_iff in H1.
      intros [H|[(k & Hin & Hk)|[H|[H|H]]]].
      * discriminate H.
      * rewrite (Hreq _ Hin) in Hk. discriminate Hk.
      * discriminate H.
      * rewrite (H _ eq_refl) in Hre. discriminate Hre.
      * destruct (H _ eq_refl) as [H'|[H'|H']]; congruence.
  - split.
    + intros [e He].
      destruct (persist_issue payload fault (clock s) (db s))
        as [[n tbl]|e'] eqn:Hpi.
      * destruct (handleIssue_ok _ src _ _ _ _ Hpi) as (_ & _ & _ & Hc).
        rewrite He in Hc. cbn in Hc. apply app_inj_tail in Hc as [_ Hc].
        discriminate Hc.
      * apply persist_issue_throw in Hpi
          as [H|[[_ H]|(x & n & _ & Hx & Hn & Hi)]]; eauto 10.
    + assert (Hthrow : forall e,
                persist_issue payload fault (clock s) (db s) = Throw e ->
                exists e', handleIssue payload src fault s
                           = log (IssueError e') s).
      { intros e He. exists e. unfold handleIssue. now rewrite He. }
      intros [[e He]|[[e He]|(x & n & e & Hx & Hn & Hi)]].
      * apply (Hthrow e), persist_issue_throw. auto.
      * destruct (validateIssue payload) as [[]|e0] eqn:Hv.
        -- apply (Hthrow e), persist_issue_throw. auto.
        -- apply (Hthrow e0), persist_issue_throw. auto.
      * destruct (validateIssue payload) as [[]|e0] eqn:Hv.
        -- apply (Hthrow e), persist_issue_throw. right. right.
           exists x, n. auto.
        -- apply (Hthrow e0), persist_issue_throw. auto.
  - intros e He. rewrite He. cbn. auto.
  - intros Hacc.
    destruct (persist_issue payload fault (clock s) (db s))
      as [[n tbl]|e'] eqn:Hpi.
    2:{ exfalso. apply (Hacc e'). unfold handleIssue. now rewrite Hpi. }
    destruct (handleIssue_ok _ src _ _ _ _ Hpi) as (Hdb & _ & Hem & _).
    rewrite Hdb, Hem.
    unfold persist_issue in Hpi.
    destruct (validateIssue payload) as [[]|] eqn:Hv; [|discriminate Hpi].
    cbn [bind] in Hpi.
    destruct (expiry_of payload) as [x|]; [|discriminate Hpi].
    cbn [bind] in Hpi.
    destruct (make_row_ok payload x (validateIssue_ok_object _ Hv))
      as (n' & Hn' & Hid & _).
    rewrite Hn' in Hpi. cbn [bind] in Hpi.
    destruct (insertWarning_run fault (clock s) n' (db s)) as [tbl'|] eqn:Hi;
      [|discriminate Hpi].
    cbn [bind] in Hpi. injection Hpi as <- <-.
    destruct (insertWarning_run_ok _ _ _ _ _ Hi) as (r & -> & Hr & _).
    eexists. exists r. split; [reflexivity|]. split.
    + apply in_or_app. right. left. reflexivity.
    + now rewrite Hr, Hid.
Qed.

End Handlers.

(** ** Expiry instants *)

Section Expiry.

Context {host : Host}.

Lemma Date_parse_ISO_string t :
  four_digit_year t -> Date_parse (ISO_string t) = Some t.
Proof. intros H. unfold Date_parse. now rewrite parse_ISO_string. Qed.

Lemma TimeClip_sum t k :
  1 <= k <= 1440 ->
  four_digit_year (t + k * 60000) ->
  TimeClip (num_add (time_number (Some t))
              (num_mul (Fin (inject_Z k)) (Fin 60000)))
  = Some (t + k * 60000).
Proof.
  intros Hk H. unfold four_digit_year in H.
  cbn [time_number num_mul].
  rewrite (double_exact (z := k * 60000));
    [|unfold Qeq, Qmult, inject_Z; cbn [Qnum Qden]; lia | lia].
  cbn [num_add].
  rewrite (double_exact (z := t + k * 60000));
    [|unfold Qeq, Qplus, inject_Z; cbn [Qnum Qden]; lia | lia].
  cbn [TimeClip].
  replace (Qle_bool (Qabs (inject_Z (t + k * 60000)))
             (inject_Z 8640000000000000)) with true.
  - unfold Qtrunc, inject_Z. cbn [Qnum Qden]. now rewrite Z.quot_1_r.
  - symmetry. apply Qle_bool_iff. unfold Qabs, Qle, inject_Z. cbn [Qnum Qden].
    lia.
Qed.

Lemma num_ltb_whole a b :
  num_ltb (Fin (inject_Z a)) (Fin (inject_Z b)) = (a <? b).
Proof.
  cbn [num_ltb]. destruct (Z.ltb_spec a b) as [H|H].
  - apply negb_true_iff. destruct (Qle_bool (inject_Z b) (inject_Z a)) eqn:E;
      [|reflexivity].
    apply Qle_bool_iff in E. unfold Qle, inject_Z in E. cbn [Qnum Qden] in E.
    lia.
  - apply negb_false_iff, Qle_bool_iff. unfold Qle, inject_Z. cbn [Qnum Qden].
    lia.
Qed.

(** The minutes of a validated command, when a whole number, are from 1 to
    1440. *)
Lemma validateIssue_minutes p k :
  validateIssue p = Ok tt ->
  ToNumber (field p "minutes") = Ok (Fin (inject_Z k)) ->
  1 <= k <= 1440.
Proof.
  intros Hv Hk. pose proof (validateIssue_ok_object _ Hv) as Hp.
  unfold validateIssue in Hv. rewrite !(get_field _ _ Hp) in Hv.
  destruct (check_required required p) as [[]|]; [|discriminate Hv].
  cbn [bind] in Hv.
  destruct (negb (Array_isArray (field p "polygon"))); [discriminate Hv|].
  destruct (ToString (field p "issuedISO")) as [text|]; [|discriminate Hv].
  cbn [bind] in Hv.
  destruct (negb (issuedISO_re_test text)); [discriminate Hv|].
  rewrite Hk in Hv. cbn [bind isFinite negb orb] in Hv.
  change (Fin 1) with (Fin (inject_Z 1)) in Hv.
  change (Fin 1440) with (Fin (inject_Z 1440)) in Hv.
  rewrite !num_ltb_whole in Hv.
  destruct (Z.ltb_spec k 1); [discriminate Hv|].
  destruct (Z.ltb_spec 1440 k); [discriminate Hv|]. lia.
Qed.

Lemma is_active_at_ISO now r e :
  active r = 1 -> expiresISO r = ISO_string e -> four_digit_year e ->
  is_active_at now r = (now / 1000 <? e / 1000).
Proof.
  intros Ha He Hy. unfold is_active_at, sqlite_now.
  rewrite Ha, He, (sqlite_datetime_ISO_string _ Hy). reflexivity.
Qed.

(** C3, as the code has it.  When an issue command is persisted (it passed
    validation and the upsert succeeded), its [issuedISO] denotes the
    instant [t], its [minutes] is the integer [k] and [t + k * 60000] has a
    four-digit year, the row stored for its id expires at [t + k * 60000]
    exactly, written as an ISO-8601 UTC timestamp, and the active query run
    on the table at any instant whose whole second is before the whole
    second of that expiry returns the row. *)
Theorem issued_expiry_and_active payload fault now tbl n tbl' t k :
  persist_issue payload fault now tbl = Ok (n, tbl') ->
  new_Date (field payload "issuedISO") = Ok (Some t) ->
  ToNumber (field payload "minutes") = Ok (Fin (inject_Z k)) ->
  four_digit_year (t + k * 60000) ->
  stored_active_until tbl' (id_key (field payload "id")) (t + k * 60000).
Proof.
  intros Hpi Ht Hk Hy. unfold stored_active_until, persist_issue in *.
  destruct (validateIssue payload) as [[]|] eqn:Hv; [|discriminate Hpi].
  cbn [bind] in Hpi.
  pose proof (validateIssue_ok_object _ Hv) as Hp.
  assert (Hx : expiry_of payload = Ok (ISO_string (t + k * 60000))).
  { unfold expiry_of. rewrite !(get_field _ _ Hp). cbn [bind].
    rewrite Ht. cbn [bind]. rewrite Hk. cbn [bind].
    rewrite (TimeClip_sum _ _ (validateIssue_minutes _ _ Hv Hk) Hy).
    reflexivity. }
  rewrite Hx in Hpi. cbn [bind] in Hpi.
  destruct (make_row_ok payload (ISO_string (t + k * 60000)) Hp)
    as (n' & Hn' & Hid & Hexp & _).
  rewrite Hn' in Hpi. cbn [bind] in Hpi.
  destruct (insertWarning_run fault now n' tbl) as [tbl1|] eqn:Hi;
    [|discriminate Hpi].
  cbn [bind] in Hpi. injection Hpi as <- <-.
  destruct (insertWarning_run_ok _ _ _ _ _ Hi)
    as (r & -> & Hr & _ & He & Ha & _).
  rewrite Hexp in He. exists r.
  assert (Hin : In r (filter (fun r' => negb (id_is (id r) r')) tbl ++ [r])).
  { apply in_or_app. right. left. reflexivity. }
  split; [exact Hin|]. split; [now rewrite Hr, Hid|].
  split; [exact He|]. split; [exact Ha|].
  intros now' Hnow. eexists. split; [reflexivity|].
  apply filter_In. split; [exact Hin|].
  rewrite (is_active_at_ISO _ _ _ Ha He Hy). now apply Z.ltb_lt.
Qed.

End Expiry.

(** ** The store *)

Section Store.

Context {host : Host}.

Lemma map_unmatched {A : Type} (f : A -> bool) (g : A -> A) (l : list A) :
  (forall x, In x l -> f x = false) ->
  map (fun x => if f x then g x else x) l = l.
Proof.
  induction l as [|x l IH]; intros H; [reflexivity|].
  cbn [map]. rewrite (H x (or_introl eq_refl)), IH; [reflexivity|].
  intros y Hy. apply H. now right.
Qed.

Lemma expireById_run_ok fault v tbl tbl' :
  expireById_run fault v tbl = Ok tbl' ->
  exists k, expire_param v = Ok k /\ fault = false
    /\ tbl' = map (fun r => if id_is (text_affinity k) r then deactivate r
                            else r) tbl.
Proof.
  unfold expireById_run. intros H.
  destruct (expire_param v) as [k|]; [|discriminate H]. cbn [bind] in H.
  destruct fault; [discriminate H|]. cbn in H. injection H as <-.
  exists k. auto.
Qed.

Lemma handleExpire_ok id src s tbl :
  expireById_run false id (db s) = Ok tbl ->
  handleExpire id src false s
  = log (LogExpire src id)
      (broadcast "expire" (VObj [("id", id)]) (set_db tbl s)).
Proof. intros H. unfold handleExpire. now rewrite H. Qed.

Lemma bind_value_scalar v : (exists k, bind_value v = Ok k) <-> is_scalar v = true.
Proof.
  split.
  - intros [k H]. destruct v; try discriminate H; reflexivity.
  - destruct v as [| |b|[]|t|l|props]; try discriminate; cbn; eauto.
Qed.

Lemma expire_param_scalar v k :
  expire_param v = Ok k <->
  (is_scalar v = true /\ bind_value v = Ok k)
  \/ (exists x, v = VArr [x] /\ is_scalar x = true /\ bind_value x = Ok k).
Proof.
  split.
  - intros H.
    destruct v as [| |b|n|t|l|props];
      try (left; split; [reflexivity | exact H]); try discriminate H.
    destruct l as [|x [|y l]]; [discriminate H| |].
    + cbn [expire_param] in H.
      destruct (bind_value x) as [k'|] eqn:E; cbn [bind] in H;
        [|discriminate H].
      injection H as <-. right. exists x. split; [reflexivity|].
      split; [apply bind_value_scalar; eauto | exact E].
    + cbn [expire_param] in H. destruct (bind_value x); discriminate H.
  - intros [[Hs Hb]|(x & -> & Hs & Hb)].
    + destruct v; try discriminate Hs; exact Hb.
    + cbn [expire_param]. rewrite Hb. reflexivity.
Qed.

(** C10, as the code has it.  The UPDATE takes as its parameter a number, a
    string, [null] or [undefined], alone or as the one element of an array,
    and nothing else.  For an expire command whose id no row of the table
    has: when the id is such a value, on a working store, the table is
    unchanged, the handler returns normally and logs a normal expire, and
    the expire event with that id is added to the inbox of every Socket.IO
    socket and of every client of the native transport that is open, the
    inboxes of the others staying as they are; when the id is anything
    else, or the store fails, the handler returns normally too, but it only
    logs the error: nothing is broadcast. *)
Theorem expire_of_unknown_id_still_broadcast id src s :
  (forall k r, expire_param id = Ok k -> In r (db s) ->
               id_is (text_affinity k) r = false) ->
  ((exists k, expire_param id = Ok k) <->
   is_scalar id = true \/ exists x, id = VArr [x] /\ is_scalar x = true)
  /\ ((exists k, expire_param id = Ok k) ->
      expire_delivered id src s (handleExpire id src false s))
  /\ (forall fault e,
        expireById_run fault id (db s) = Throw e ->
        expire_refused e s (handleExpire id src fault s)).
Proof.
  intros Hnone. split; [|split].
  - split.
    + intros [k Hk]. apply expire_param_scalar in Hk
        as [[Hs _]|(x & -> & Hs & _)]; eauto.
    + intros [Hs|(x & -> & Hs)];
        destruct (proj2 (bind_value_scalar _) Hs) as [k Hk]; exists k;
        apply expire_param_scalar; [left; auto | right; eauto].
  - intros [k Hk]. unfold expire_delivered.
    assert (Hrun : expireById_run false id (db s) = Ok (db s)).
    { unfold expireById_run. rewrite Hk. cbn [bind storage].
      rewrite map_unmatched; [reflexivity|]. intros r Hr. eauto. }
    rewrite (handleExpire_ok _ _ _ _ Hrun).
    cbn [log broadcast set_db db timers console emitted ioSockets wsClients
         String.eqb Ascii.eqb Bool.eqb].
    do 4 (split; [reflexivity|]). split.
    + induction (ioSockets s) as [|x l IH]; cbn [map]; constructor; auto.
    + induction (wsClients s) as [|x l IH]; cbn [map]; constructor; [|exact IH].
      destruct (readyState x =? 1); cbn; auto.
  - intros fault e He. unfold expire_refused, handleExpire. rewrite He.
    cbn. repeat split.
Qed.

(** C8, as the code has it.  [created_at] is assigned by the store at every
    upsert: the row an upsert writes, for a first issue and for a re-issue
    alike, replaces the row of that id and carries the store's time at that
    moment, to the second.  Deactivation leaves every creation stamp as it
    is. *)
Theorem created_at_set_by_every_upsert fault now n tbl tbl' :
  insertWarning_run fault now n tbl = Ok tbl' ->
  upsert_stamps now n tbl tbl' /\ expire_keeps_stamps.
Proof.
  intros H. unfold upsert_stamps, expire_keeps_stamps. split.
  - destruct (insertWarning_run_ok _ _ _ _ _ H) as (r & Ht & Hid & _ & _ & _ & Hc & _).
    exists r. auto.
  - intros fault' v tbl1 tbl2 He.
    destruct (expireById_run_ok _ _ _ _ He) as (k & _ & _ & ->).
    rewrite !map_map. split; apply map_ext; intros r;
      destruct (id_is (text_affinity k) r); reflexivity.
Qed.

End Store.

(** ** Timers *)

Section Timers.

Context {host : Host}.

Lemma persist_issue_id payload fault now tbl n tbl' :
  persist_issue payload fault now tbl = Ok (n, tbl') ->
  n_id n = field payload "id".
Proof.
  unfold persist_issue. intros H.
  destruct (validateIssue payload) as [[]|] eqn:Hv; [|discriminate H].
  cbn [bind] in H.
  destruct (expiry_of payload) as [x|]; [|discriminate H]. cbn [bind] in H.
  destruct (make_row_ok payload x (validateIssue_ok_object _ Hv))
    as (n' & Hn' & Hid & _).
  rewrite Hn' in H. cbn [bind] in H.
  destruct (insertWarning_run fault now n' tbl); [|discriminate H].
  cbn [bind] in H. now injection H as <- <-.
Qed.

(** What a command does to the timers and to the record of broadcasts. *)
Lemma handleIssue_effects payload src fault s :
  (exists l, timers (handleIssue payload src fault s) = (timers s ++ l)%list
             /\ (List.length l <= 1)%nat
             /\ Forall (fun t => target t = field payload "id") l)
  /\ (emitted (handleIssue payload src fault s) = emitted s
      \/ exists obj, emitted (handleIssue payload src fault s)
                     = (emitted s ++ [("issue", obj)])%list).
Proof.
  destruct (persist_issue payload fault (clock s) (db s)) as [[n tbl]|e] eqn:Hpi.
  - destruct (handleIssue_ok _ src _ _ _ _ Hpi) as (_ & Ht & He & _).
    rewrite Ht, He, scheduleExpiry_timers, (persist_issue_id _ _ _ _ _ _ Hpi).
    split; [|eauto]. cbn [timers set_db clock].
    eexists. split; [reflexivity|].
    destruct (Date_parse (n_expiresISO n)) as [e|].
    + destruct (e - clock s <=? 0); cbn; split; auto.
    + cbn. split; auto.
  - unfold handleIssue. rewrite Hpi. cbn. split; [|auto].
    exists []. rewrite app_nil_r. cbn. auto.
Qed.

Lemma handleExpire_effects id src fault s :
  timers (handleExpire id src fault s) = timers s
  /\ (emitted (handleExpire id src fault s) = emitted s
      \/ emitted (handleExpire id src fault s)
         = (emitted s ++ [("expire", VObj [("id", id)])])%list).
Proof.
  unfold handleExpire.
  destruct (expireById_run fault id (db s)); cbn; auto.
Qed.

Lemma expire_timer_effects id fault s :
  timers (expire_timer id fault s) = timers s
  /\ (emitted (expire_timer id fault s) = emitted s
      \/ emitted (expire_timer id fault s)
         = (emitted s ++ [("expire", VObj [("id", id)])])%list).
Proof.
  unfold expire_timer.
  destruct (expireById_run fault id (db s)); cbn; auto.
Qed.

Lemma is_string_both v : is_string v "issue" && is_string v "expire" = false.
Proof.
  destruct v; try reflexivity. cbn.
  destruct (String.eqb_spec s "issue") as [->|]; reflexivity.
Qed.

(** A frame of the native transport runs at most one handler, the one
    [command] names. *)
Lemma ws_message_cases c data fault s :
  (ws_message data fault s = s /\ command (WsMessage c data fault) = None)
  \/ (exists payload,
        ws_message data fault s = handleIssue payload "ws" fault s
        /\ command (WsMessage c data fault) = Some ("issue", field payload "id"))
  \/ (exists id,
        ws_message data fault s = handleExpire id "ws" fault s
        /\ command (WsMessage c data fault) = Some ("expire", id)).
Proof.
  unfold ws_message, command. destruct data as [msg|]; [|auto].
  destruct (negb (ToBoolean msg) || negb (ToBoolean (field msg "kind")));
    [auto|].
  pose proof (is_string_both (field msg "kind")) as Hboth.
  destruct (is_string (field msg "kind") "issue") eqn:Hi;
    destruct (is_string (field msg "kind") "expire") eqn:He;
    try discriminate Hboth; cbn [andb].
  - destruct (ToBoolean (field msg "payload")); eauto.
  - destruct (ToBoolean (field msg "id")); eauto.
  - auto.
Qed.

Lemma io_expire_some arg fault s s' :
  io_expire arg fault s = Some s' ->
  s' = handleExpire (field arg "id") "io" fault s.
Proof.
  unfold io_expire, field. destruct (get arg "id"); [|discriminate].
  now intros [= <-].
Qed.

(** Every event but a timer's firing and a restart is a command, or leaves
    the table, the timers and the record of broadcasts alone. *)
Lemma step_cases s ev s' :
  step s ev = Some s' ->
  (forall n fault, ev <> Fire n fault) -> is_restart ev = false ->
  (command ev = None /\ db s' = db s /\ timers s' = timers s
   /\ emitted s' = emitted s)
  \/ (exists payload src fault,
        s' = handleIssue payload src fault s
        /\ command ev = Some ("issue", field payload "id"))
  \/ (exists id src fault,
        s' = handleExpire id src fault s
        /\ command ev = Some ("expire", id)).
Proof.
  intros Hs Hfire Hres. destruct ev; cbn [step] in Hs.
  - left. unfold io_connection in Hs.
    destruct (actives fault s); [|discriminate Hs].
    injection Hs as <-. cbn. auto.
  - destruct (has_io conn s); [|discriminate Hs]. injection Hs as <-.
    right. left. eauto.
  - destruct (has_io conn s); [|discriminate Hs].
    apply io_expire_some in Hs. right. right. eauto.
  - destruct (has_io conn s); [|discriminate Hs]. injection Hs as <-.
    left. cbn. auto.
  - injection Hs as <-. left. cbn. auto.
  - destruct (has_ws conn s); [|discriminate Hs]. injection Hs as <-.
    destruct (ws_message_cases conn data fault s)
      as [[-> Hc]|[(p & -> & Hc)|(i & -> & Hc)]].
    + left. auto.
    + right. left. eauto.
    + right. right. eauto.
  - destruct (has_ws conn s); [|discriminate Hs]. injection Hs as <-.
    left. cbn. auto.
  - destruct (has_ws conn s); [|discriminate Hs]. injection Hs as <-.
    left. cbn. auto.
  - destruct (0 <=? d); [|discriminate Hs]. injection Hs as <-.
    left. cbn. auto.
  - exfalso. eapply Hfire. reflexivity.
  - discriminate Hres.
Qed.

Lemma step_fire s n fault s' :
  step s (Fire n fault) = Some s' ->
  exists t, nth_error (timers s) n = Some t /\ due t <= clock s
    /\ s' = expire_timer (target t) fault
              (set_timers (remove_nth n (timers s)) s).
Proof.
  cbn [step]. destruct (nth_error (timers s) n) as [t|]; [|discriminate].
  destruct (Z.leb_spec (due t) (clock s)); [|discriminate].
  intros [= <-]. eauto.
Qed.

Lemma expire_timer_ok id s k :
  expire_param id = Ok k ->
  expire_timer id false s
  = broadcast "expire" (VObj [("id", id)])
      (set_db (map (fun r => if id_is (text_affinity k) r then deactivate r
                             else r) (db s)) s).
Proof.
  intros Hk. unfold expire_timer, expireById_run. rewrite Hk. reflexivity.
Qed.

Lemma deactivated_rows k tbl r :
  In r (map (fun r => if id_is (text_affinity k) r then deactivate r else r)
          tbl) ->
  id_is (text_affinity k) r = true -> active r = 0.
Proof.
  intros Hin Hid. apply in_map_iff in Hin as (r0 & <- & _).
  destruct (id_is (text_affinity k) r0) eqn:E; [reflexivity|].
  rewrite E in Hid. discriminate Hid.
Qed.

Lemma fire_due_timer s n t k :
  nth_error (timers s) n = Some t -> due t <= clock s ->
  expire_param (target t) = Ok k ->
  exists s',
    step s (Fire n false) = Some s'
    /\ emitted s' = (emitted s ++ [("expire", VObj [("id", target t)])])%list
    /\ forall r, In r (db s') -> id_is (text_affinity k) r = true ->
                 active r = 0.
Proof.
  intros Hn Hdue Hk. cbn [step]. rewrite Hn.
  destruct (Z.leb_spec (due t) (clock s)); [|lia].
  eexists. split; [reflexivity|].
  rewrite (expire_timer_ok _ _ _ Hk). cbn. split; [reflexivity|].
  apply deactivated_rows.
Qed.

Lemma issue_arms_one_timer payload src fault s n tbl e :
  persist_issue payload fault (clock s) (db s) = Ok (n, tbl) ->
  Date_parse (n_expiresISO n) = Some e -> clock s < e ->
  timers (handleIssue payload src fault s)
  = (timers s ++ [{| due := clock s + timeout_delay (Some (e - clock s));
                     target := field payload "id" |}])%list.
Proof.
  intros Hp He Hlt.
  destruct (handleIssue_ok _ src _ _ _ _ Hp) as (_ & -> & _).
  rewrite scheduleExpiry_timers, (persist_issue_id _ _ _ _ _ _ Hp), He.
  cbn [timers set_db clock].
  destruct (Z.leb_spec (e - clock s) 0); [lia | reflexivity].
Qed.

(** C2, as the code has it.  Arming never replaces or cancels a timer:
    [scheduleExpiry] appends one timer when the expiry is later than now (or
    is not a date) and none otherwise, and keeps every pending timer; an
    issue that is persisted with an expiry later than now appends exactly
    one timer for its id after all the pending ones, so that the id has one
    pending timer more than before, the earlier ones included; no event but
    a timer's own firing, or a restart, removes a timer; and every pending
    timer, once due, fires: it deactivates the rows of its id and makes its
    own expire broadcast. *)
Theorem arming_never_cancels :
  (forall id iso s,
     timers (scheduleExpiry id iso s)
     = (timers s ++
        match Date_parse iso with
        | Some e =>
            if e - clock s <=? 0 then []
            else [{| due := clock s + timeout_delay (Some (e - clock s));
                     target := id |}]
        | None => [{| due := clock s + 1; target := id |}]
        end)%list)
  /\ (forall payload src fault s n tbl e w,
        persist_issue payload fault (clock s) (db s) = Ok (n, tbl) ->
        Date_parse (n_expiresISO n) = Some e -> clock s < e ->
        id_key (field payload "id") = Some w ->
        timers (handleIssue payload src fault s)
        = (timers s ++ [{| due := clock s + timeout_delay (Some (e - clock s));
                           target := field payload "id" |}])%list
        /\ pending w (timers (handleIssue payload src fault s))
           = S (pending w (timers s)))
  /\ (forall s ev s',
        step s ev = Some s' ->
        (forall n fault, ev <> Fire n fault) -> is_restart ev = false ->
        exists l, timers s' = (timers s ++ l)%list)
  /\ (forall s n t k,
        nth_error (timers s) n = Some t -> due t <= clock s ->
        expire_param (target t) = Ok k ->
        exists s',
          step s (Fire n false) = Some s'
          /\ emitted s'
             = (emitted s ++ [("expire", VObj [("id", target t)])])%list
          /\ forall r, In r (db s') -> id_is (text_affinity k) r = true ->
                       active r = 0).
Proof.
  split; [exact scheduleExpiry_timers|]. split; [|split].
  - intros payload src fault s n tbl e w Hp He Hlt Hw.
    rewrite (issue_arms_one_timer _ src _ _ _ _ _ Hp He Hlt).
    split; [reflexivity|].
    unfold pending. rewrite filter_app, length_app. cbn [filter target].
    rewrite Hw. cbn [option_eqb]. rewrite String.eqb_refl. cbn [List.length].
    lia.
  - intros s ev s' Hs Hf Hr.
    destruct (step_cases _ _ _ Hs Hf Hr)
      as [(_ & _ & -> & _)|[(p & src & f & -> & _)|(i & src & f & -> & _)]].
    + exists []. now rewrite app_nil_r.
    + destruct (handleIssue_effects p src f s) as [(l & -> & _) _]. eauto.
    + destruct (handleExpire_effects i src f s) as [-> _].
      exists []. now rewrite app_nil_r.
  - exact fire_due_timer.
Qed.

End Timers.

(** ** Counting expire broadcasts *)

Section Budget.

Context {host : Host}.

Lemma expire_count_issue w h obj :
  expire_count w (h ++ [("issue", obj)]) = expire_count w h.
Proof.
  unfold expire_count. rewrite filter_app, length_app. cbn. lia.
Qed.

Lemma expire_count_expire w h id :
  expire_count w (h ++ [("expire", VObj [("id", id)])])
  = (expire_count w h + about w id)%nat.
Proof.
  unfold expire_count, about. rewrite filter_app, length_app. cbn.
  destruct (option_eqb (id_key id) (Some w)); reflexivity.
Qed.

Lemma pending_app w l l' :
  pending w (l ++ l') = (pending w l + pending w l')%nat.
Proof. unfold pending. now rewrite filter_app, length_app. Qed.

Lemma pending_new w l v :
  (List.length l <= 1)%nat -> Forall (fun t => target t = v) l ->
  (pending w l <= about w v)%nat.
Proof.
  intros Hl Hf. destruct l as [|t [|t' l]]; cbn in Hl; try lia.
  - cbn. lia.
  - inversion Hf as [|? ? Ht _]; subst. unfold pending, about. cbn.
    destruct (option_eqb (id_key (target t)) (Some w)); cbn; lia.
Qed.

Lemma pending_remove_nth w n : forall l t,
  nth_error l n = Some t ->
  (pending w (remove_nth n l) + about w (target t))%nat = pending w l.
Proof.
  induction n as [|n IH]; intros [|x l] t H; try discriminate H.
  - cbn in H. injection H as ->. unfold pending, about. cbn.
    destruct (option_eqb (id_key (target t)) (Some w)); cbn; lia.
  - cbn in H. specialize (IH l t H). unfold pending in *. cbn.
    destruct (option_eqb (id_key (target x)) (Some w)); cbn; lia.
Qed.

Lemma step_budget w s ev s' :
  step s ev = Some s' -> is_restart ev = false ->
  (budget w s' <= budget w s + charge w ev)%nat.
Proof.
  intros Hs Hr. unfold budget.
  destruct ev as [| | | | | | | | |n fault|]; [..|discriminate Hr].
  10:{ apply step_fire in Hs as (t & Hn & _ & ->).
       destruct (expire_timer_effects (target t) fault
                   (set_timers (remove_nth n (timers s)) s)) as [-> He].
       cbn [timers set_timers] in *.
       pose proof (pending_remove_nth w _ _ _ Hn).
       destruct He as [-> | ->]; cbn [emitted set_timers];
         rewrite ?expire_count_expire; lia. }
  all: match type of Hs with
       | step _ ?ev = Some _ =>
           assert (Hf : forall n fault, ev <> Fire n fault) by discriminate;
           destruct (step_cases _ _ _ Hs Hf Hr)
             as [(_ & _ & -> & ->)
                |[(p & src & f & -> & Hc)|(i & src & f & -> & Hc)]];
           [lia| |]
       end.
  all: unfold charge, is_command; rewrite Hc;
       cbn [String.eqb Ascii.eqb Bool.eqb andb].
  all: try (destruct (handleIssue_effects p src f s)
              as [(l & -> & Hl & Hf') He];
            rewrite pending_app;
            pose proof (pending_new w _ _ Hl Hf') as Hp; unfold about in Hp;
            destruct He as [-> | (obj & ->)];
            rewrite ?expire_count_issue;
            destruct (option_eqb (id_key (field p "id")) (Some w)); lia).
  all: destruct (handleExpire_effects i src f s) as [-> He];
       destruct He as [-> | ->]; rewrite ?expire_count_expire;
       unfold about; destruct (option_eqb (id_key i) (Some w)); lia.
Qed.

Lemma run_budget w evs : forall s s',
  run s evs = Some s' ->
  forallb (fun ev => negb (is_restart ev)) evs = true ->
  (budget w s' <= budget w s + commands "issue" w evs
                  + commands "expire" w evs)%nat.
Proof.
  induction evs as [|ev evs IH]; intros s s' Hrun Hnr.
  - injection Hrun as <-. unfold commands. cbn. lia.
  - cbn [run] in Hrun. destruct (step s ev) as [s1|] eqn:Hs; [|discriminate].
    cbn [forallb] in Hnr. apply andb_prop in Hnr as [Hr Hnr].
    apply negb_true_iff in Hr.
    pose proof (step_budget w _ _ _ Hs Hr) as H1.
    specialize (IH _ _ Hrun Hnr). unfold charge in H1.
    unfold commands in *. cbn [filter].
    destruct (is_command "issue" w ev), (is_command "expire" w ev);
      cbn [List.length]; lia.
Qed.

(** C1, as the code has it.  Every expire broadcast for an id comes from
    one firing of a timer or from one explicit expire command; a timer
    fires at most once and an issue arms at most one.  So in a run without
    a restart the expire broadcasts made for an id, together with the timers
    still pending for it, never exceed what there was at the start plus the
    issue commands and the explicit expire commands for that id.  In
    particular an id with no timer pending, issued at most once and never
    expired by hand, gets at most one expire broadcast. *)
Theorem expire_broadcasts_bounded w s evs s' :
  run s evs = Some s' ->
  forallb (fun ev => negb (is_restart ev)) evs = true ->
  (expire_count w (emitted s') + pending w (timers s')
   <= expire_count w (emitted s) + pending w (timers s)
      + commands "issue" w evs + commands "expire" w evs)%nat
  /\ (pending w (timers s) = 0%nat ->
      (commands "issue" w evs <= 1)%nat ->
      commands "expire" w evs = 0%nat ->
      (expire_count w (emitted s') <= expire_count w (emitted s) + 1)%nat).
Proof.
  intros Hrun Hnr. pose proof (run_budget w _ _ _ Hrun Hnr) as H.
  unfold budget in H. split; [exact H | lia].
Qed.

End Budget.

(** ** Restart *)

Section Restart.

Context {host : Host}.

Lemma boot_loop rows : forall s0,
  let s := fold_left
             (fun s r => scheduleExpiry (text_value (id r)) (expiresISO r) s)
             rows s0 in
  db s = db s0 /\ clock s = clock s0
  /\ timers s = (timers s0 ++ flat_map (rearmed (clock s0)) rows)%list.
Proof.
  induction rows as [|r rows IH]; intros s0; cbn [fold_left flat_map].
  - rewrite app_nil_r. auto.
  - specialize (IH (scheduleExpiry (text_value (id r)) (expiresISO r) s0)).
    cbv zeta in IH. destruct IH as (Hdb & Hclock & Ht).
    destruct (scheduleExpiry_frame (text_value (id r)) (expiresISO r) s0)
      as (Hdb0 & Hclock0 & _).
    rewrite Hdb, Hclock, Ht, Hdb0, Hclock0, scheduleExpiry_timers.
    split; [reflexivity|]. split; [reflexivity|].
    now rewrite <- app_assoc.
Qed.

Lemma rearmed_length now rows :
  (List.length (flat_map (rearmed now) rows) <= List.length rows)%nat.
Proof.
  induction rows as [|r rows IH]; [cbn; lia|].
  cbn [flat_map]. rewrite length_app. cbn [List.length].
  assert (List.length (rearmed now r) <= 1)%nat.
  { unfold rearmed. destruct (Date_parse (expiresISO r)) as [e|];
      [destruct (e - now <=? 0)|]; cbn; lia. }
  lia.
Qed.

Lemma whole_seconds_lt a b : a / 1000 < b / 1000 -> a < b.
Proof. intros H. Z.div_mod_to_equations. lia. Qed.

(** C6, as the code has it.  A row that is active, has the id [w] and
    expires at [e] (with a four-digit year), when the process starts at an
    instant whose whole second is before that of [e] and at most
    [TIMEOUT_MAX] milliseconds before [e]: the start arms a timer for [w]
    due at [e] itself, and no more timers than the active query returned
    rows; that timer cannot fire before [e], and when it fires, at [e] or
    later, every row of [w] becomes inactive. *)
Theorem restart_rearms tbl now history conns r w e :
  In r tbl -> active r = 1 -> id r = Some w ->
  expiresISO r = ISO_string e -> four_digit_year e ->
  now / 1000 < e / 1000 -> e - now <= TIMEOUT_MAX ->
  exists s,
    boot false now tbl history conns = Some s /\ rearmed_at e w now tbl s.
Proof.
  intros Hin Ha Hid He Hy Hnow Hmax.
  unfold rearmed_at, boot, getActive_all. cbn [storage bind].
  eexists. split; [reflexivity|].
  match goal with
  | |- context [fold_left ?f ?rows ?s0] =>
      destruct (boot_loop rows s0) as (Hdb & Hclock & Ht)
  end.
  rewrite Hdb, Hclock, Ht. cbn [db clock timers app].
  split; [reflexivity|]. split; [reflexivity|]. split; [|split; [|split]].
  - apply in_flat_map. exists r. split.
    + apply filter_In. split; [exact Hin|].
      rewrite (is_active_at_ISO _ _ _ Ha He Hy). now apply Z.ltb_lt.
    + unfold rearmed. rewrite He, (Date_parse_ISO_string _ Hy), Hid.
      apply whole_seconds_lt in Hnow.
      destruct (Z.leb_spec (e - now) 0); [lia|].
      unfold timeout_delay.
      replace ((1 <=? e - now) && (e - now <=? TIMEOUT_MAX)) with true
        by (symmetry; apply andb_true_intro; split; apply Z.leb_le; lia).
      left. cbn [text_value]. f_equal. lia.
  - apply rearmed_length.
  - intros s1 n fault Hn Hclk. cbn [step]. rewrite Hn. cbn [due].
    destruct (Z.leb_spec e (clock s1)); [lia | reflexivity].
  - intros s1 n Hn Hclk.
    destruct (fire_due_timer s1 n _ (SText w) Hn Hclk eq_refl)
      as (s2 & Hs2 & _ & Hrows).
    exists s2. split; [exact Hs2|].
    intros r' Hr' Hid'. apply Hrows; [exact Hr'|].
    unfold id_is. rewrite Hid'. cbn. apply String.eqb_refl.
Qed.

End Restart.

(** ** The history endpoint *)

Section History.

Context {host : Host}.

Lemma issued_le_refl r : issued_le r r.
Proof.
  unfold issued_le. destruct (String.leb_total (issuedISO r) (issuedISO r)); auto.
Qed.

Lemma insert_by_issued_perm r l : Permutation (insert_by_issued r l) (r :: l).
Proof.
  induction l as [|x l IH]; cbn [insert_by_issued]; [reflexivity|].
  destruct (String.leb (issuedISO r) (issuedISO x)
            && negb (String.eqb (issuedISO r) (issuedISO x))); [reflexivity|].
  rewrite IH. apply perm_swap.
Qed.

Lemma insert_by_issued_sorted r l :
  Sorted issued_le l -> Sorted issued_le (insert_by_issued r l).
Proof.
  induction l as [|x l IH]; intros Hs; cbn [insert_by_issued].
  - constructor; constructor.
  - destruct (String.leb (issuedISO r) (issuedISO x)
              && negb (String.eqb (issuedISO r) (issuedISO x))) eqn:E.
    + apply andb_prop in E as [E _]. constructor; [exact Hs|].
      constructor. exact E.
    + assert (Hxr : issued_le x r).
      { unfold issued_le.
        destruct (String.leb_total (issuedISO r) (issuedISO x)) as [H|H];
          [|exact H].
        rewrite H in E. cbn in E. apply negb_false_iff in E.
        apply String.eqb_eq in E. rewrite E. apply issued_le_refl. }
      inversion Hs as [|? ? Hs' Hhd]; subst.
      constructor; [apply IH; exact Hs'|].
      destruct l as [|y l]; cbn [insert_by_issued].
      * constructor. exact Hxr.
      * destruct (String.leb (issuedISO r) (issuedISO y)
                  && negb (String.eqb (issuedISO r) (issuedISO y))).
        -- constructor. exact Hxr.
        -- inversion Hhd; subst. constructor. assumption.
Qed.

Lemma order_by_issuedISO_spec l :
  Permutation (order_by_issuedISO l) l /\ Sorted issued_le (order_by_issuedISO l).
Proof.
  unfold order_by_issuedISO.
  assert (H : forall acc,
            Sorted issued_le acc ->
            Permutation (fold_left (fun acc r => insert_by_issued r acc) l acc)
              (acc ++ l)
            /\ Sorted issued_le
                 (fold_left (fun acc r => insert_by_issued r acc) l acc)).
  { induction l as [|r l IH]; intros acc Hacc; cbn [fold_left].
    - rewrite app_nil_r. auto.
    - destruct (IH (insert_by_issued r acc)
                  (insert_by_issued_sorted r acc Hacc)) as [Hp Hs].
      split; [|exact Hs]. rewrite Hp, insert_by_issued_perm.
      apply Permutation_middle. }
  destruct (H [] (Sorted_nil _)) as [Hp Hs]. auto.
Qed.

(** C9, as the code has it.  For a date given as a string, on a working
    store: the endpoint answers with the client error exactly when the
    trimmed string is not four digits, a dash, two digits, a dash and two
    digits; otherwise it answers with the rows whose [issuedISO] begins with
    that string, each of them once, in ascending order of the text of
    [issuedISO]. *)
Theorem history_by_date s tbl :
  ((exists error, get_warnings (QString s) false tbl = BadRequest error)
   <-> date_re_test (trim s) = false)
  /\ (forall fault, date_re_test (trim s) = false ->
      get_warnings (QString s) fault tbl = BadRequest "Use ?date=YYYY-MM-DD")
  /\ (date_re_test (trim s) = true ->
      exists rows,
        get_warnings (QString s) false tbl
        = Json (trim s) (List.length rows) (map row_object rows)
        /\ Permutation rows
             (filter (fun r => String.eqb (substr_1_10 (issuedISO r)) (trim s))
                tbl)
        /\ Sorted issued_le rows).
Proof.
  unfold get_warnings, getByDate_all. cbn [storage bind].
  destruct (date_re_test (trim s)) eqn:E; cbn [negb].
  - split; [split; [intros [? H]; discriminate H | discriminate]|].
    split; [discriminate|]. intros _.
    destruct (order_by_issuedISO_spec
                (filter (fun r => String.eqb (substr_1_10 (issuedISO r)) (trim s))
                   tbl)) as [Hp Hs].
    eexists. split; [reflexivity|]. split; assumption.
  - split; [split; eauto|]. split; [reflexivity | discriminate].
Qed.

End History.

(** ** Bootstrap *)

Section Bootstrap.

Context {host : Host}.

Lemma io_from_refl l : io_from l l.
Proof.
  intros k Hk. exists k, []. rewrite app_nil_r. auto.
Qed.

Lemma ws_from_refl l : ws_from l l.
Proof.
  intros c Hc. exists c, []. rewrite app_nil_r. auto.
Qed.

Lemma io_from_emit ev obj l :
  io_event (ev, obj) = true -> io_from l (map (io_emit ev obj) l).
Proof.
  intros He k' Hk'. apply in_map_iff in Hk' as (k & <- & Hk).
  exists k, [(ev, obj)]. cbn. auto.
Qed.

Lemma ws_from_send frame l :
  ws_event frame = true ->
  ws_from l (map (fun c => if readyState c =? 1 then ws_send frame c else c) l).
Proof.
  intros He c' Hc'. apply in_map_iff in Hc' as (c & <- & Hc).
  destruct (readyState c =? 1).
  - exists c, [frame]. cbn. auto.
  - exists c, []. rewrite app_nil_r. auto.
Qed.

Lemma delivery_refl s s' :
  connections s' = connections s -> ioSockets s' = ioSockets s ->
  wsClients s' = wsClients s -> delivery s s'.
Proof.
  intros H1 H2 H3. unfold delivery. rewrite H1, H2, H3.
  auto using io_from_refl, ws_from_refl.
Qed.

Lemma ws_event_issue obj : ws_event (ws_frame "issue" obj) = true.
Proof. reflexivity. Qed.

Lemma ws_event_expire id :
  ws_event (ws_frame "expire" (VObj [("id", id)])) = true.
Proof. reflexivity. Qed.

Lemma delivery_issue obj s s0 :
  connections s0 = connections s -> ioSockets s0 = ioSockets s ->
  wsClients s0 = wsClients s ->
  delivery s (broadcast "issue" obj s0).
Proof.
  intros H1 H2 H3. unfold delivery, broadcast.
  cbn [connections ioSockets wsClients String.eqb Ascii.eqb Bool.eqb].
  rewrite H1, H2, H3. split; [reflexivity|]. split.
  - now apply io_from_emit.
  - apply ws_from_send, ws_event_issue.
Qed.

Lemma delivery_expire id s s0 :
  connections s0 = connections s -> ioSockets s0 = ioSockets s ->
  wsClients s0 = wsClients s ->
  delivery s (broadcast "expire" (VObj [("id", id)]) s0).
Proof.
  intros H1 H2 H3. unfold delivery, broadcast.
  cbn [connections ioSockets wsClients String.eqb Ascii.eqb Bool.eqb].
  rewrite H1, H2, H3. split; [reflexivity|]. split.
  - now apply io_from_emit.
  - apply ws_from_send, ws_event_expire.
Qed.

Lemma delivery_log e s s' : delivery s s' -> delivery s (log e s').
Proof. intros H. exact H. Qed.

Lemma handleIssue_delivery payload src fault s :
  delivery s (handleIssue payload src fault s).
Proof.
  unfold handleIssue.
  destruct (persist_issue payload fault (clock s) (db s)) as [[n tbl]|e].
  - apply delivery_log.
    destruct (scheduleExpiry_frame (n_id n) (n_expiresISO n) (set_db tbl s))
      as (_ & _ & Hio & Hws & _ & _ & Hc).
    apply delivery_issue; assumption.
  - apply delivery_refl; reflexivity.
Qed.

Lemma handleExpire_delivery id src fault s :
  delivery s (handleExpire id src fault s).
Proof.
  unfold handleExpire. destruct (expireById_run fault id (db s)).
  - apply delivery_log, delivery_expire; reflexivity.
  - apply delivery_refl; reflexivity.
Qed.

Lemma expire_timer_delivery id fault s s0 :
  connections s0 = connections s -> ioSockets s0 = ioSockets s ->
  wsClients s0 = wsClients s ->
  delivery s (expire_timer id fault s0).
Proof.
  intros H1 H2 H3. unfold expire_timer.
  destruct (expireById_run fault id (db s0)).
  - apply delivery_expire; assumption.
  - apply delivery_refl; assumption.
Qed.

Lemma delivery_steps s s' : delivery s s' -> io_step s s' /\ ws_step s s'.
Proof.
  intros (Hc & Hio & Hws). unfold io_step, ws_step. rewrite Hc.
  split; (split; [lia|]); intros x Hx; right; auto.
Qed.

Lemma boot_loop_frame rows : forall s0,
  let s := fold_left
             (fun s r => scheduleExpiry (text_value (id r)) (expiresISO r) s)
             rows s0 in
  ioSockets s = ioSockets s0 /\ wsClients s = wsClients s0
  /\ connections s = connections s0 /\ emitted s = emitted s0.
Proof.
  induction rows as [|r rows IH]; intros s0; cbn [fold_left]; [auto|].
  specialize (IH (scheduleExpiry (text_value (id r)) (expiresISO r) s0)).
  cbv zeta in IH. destruct IH as (-> & -> & -> & ->).
  destruct (scheduleExpiry_frame (text_value (id r)) (expiresISO r) s0)
    as (_ & _ & -> & -> & _ & -> & ->).
  auto.
Qed.

Lemma boot_registries fault now tbl history conns s :
  boot fault now tbl history conns = Some s ->
  ioSockets s = [] /\ wsClients s = [] /\ connections s = conns.
Proof.
  unfold boot. destruct (getActive_all fault now tbl) as [rows|]; [|discriminate].
  intros [= <-].
  match goal with
  | |- context [fold_left ?f rows ?s0] =>
      destruct (boot_loop_frame rows s0) as (-> & -> & -> & _)
  end.
  auto.
Qed.

Lemma step_registries s ev s' :
  step s ev = Some s' -> io_step s s' /\ ws_step s s'.
Proof.
  intros Hs.
  assert (Hsame : forall s1,
            connections s1 = connections s -> ioSockets s1 = ioSockets s ->
            wsClients s1 = wsClients s -> io_step s s1 /\ ws_step s s1).
  { intros s1 H1 H2 H3. apply delivery_steps, delivery_refl; assumption. }
  destruct ev; cbn [step] in Hs.
  - unfold io_connection in Hs. destruct (actives fault s); [|discriminate Hs].
    injection Hs as <-. unfold io_step, ws_step.
    cbn [add_io connections ioSockets wsClients]. split; (split; [lia|]).
    + intros k' Hk'. apply in_app_or in Hk' as [Hk'|[<-|[]]].
      * right. exists k', []. rewrite app_nil_r. auto.
      * left. cbn. lia.
    + intros c' Hc'. right. exists c', []. rewrite app_nil_r. auto.
  - destruct (has_io conn s); [|discriminate Hs]. injection Hs as <-.
    apply delivery_steps, handleIssue_delivery.
  - destruct (has_io conn s); [|discriminate Hs].
    apply io_expire_some in Hs. subst s'.
    apply delivery_steps, handleExpire_delivery.
  - destruct (has_io conn s); [|discriminate Hs]. injection Hs as <-.
    apply delivery_steps. unfold delivery. cbn [drop_io connections ioSockets wsClients].
    split; [reflexivity|]. split; [|apply ws_from_refl].
    intros k' Hk'. apply filter_In in Hk' as [Hk' _].
    exists k', []. rewrite app_nil_r. auto.
  - injection Hs as <-. unfold io_step, ws_step, ws_connection.
    cbn [add_ws connections ioSockets wsClients]. split; (split; [lia|]).
    + intros k' Hk'. right. exists k', []. rewrite app_nil_r. auto.
    + intros c' Hc'. apply in_app_or in Hc' as [Hc'|[<-|[]]].
      * right. exists c', []. rewrite app_nil_r. auto.
      * left. cbn. lia.
  - destruct (has_ws conn s); [|discriminate Hs]. injection Hs as <-.
    apply delivery_steps.
    destruct (ws_message_cases conn data fault s)
      as [[-> _]|[(p & -> & _)|(i & -> & _)]].
    + apply delivery_refl; reflexivity.
    + apply handleIssue_delivery.
    + apply handleExpire_delivery.
  - destruct (has_ws conn s); [|discriminate Hs]. injection Hs as <-.
    apply delivery_steps. unfold delivery. cbn [set_ws connections ioSockets wsClients].
    split; [reflexivity|]. split; [apply io_from_refl|].
    intros c' Hc'. apply in_map_iff in Hc' as (c & <- & Hc).
    exists c, []. rewrite app_nil_r.
    destruct (Nat.eqb (ws_conn c) conn); cbn; auto.
  - destruct (has_ws conn s); [|discriminate Hs]. injection Hs as <-.
    apply delivery_steps. unfold delivery. cbn [set_ws connections ioSockets wsClients].
    split; [reflexivity|]. split; [apply io_from_refl|].
    intros c' Hc'. apply filter_In in Hc' as [Hc' _].
    exists c', []. rewrite app_nil_r. auto.
  - destruct (0 <=? d); [|discriminate Hs]. injection Hs as <-.
    apply Hsame; reflexivity.
  - apply step_fire in Hs as (t & _ & _ & ->).
    apply delivery_steps, expire_timer_delivery; reflexivity.
  - apply boot_registries in Hs as (Hio & Hws & Hc).
    unfold io_step, ws_step. rewrite Hio, Hws, Hc.
    split; (split; [lia|]); intros x [].
Qed.

Lemma io_bootstrapped_step c first s ev s' :
  io_bootstrapped c first s -> step s ev = Some s' ->
  io_bootstrapped c first s'.
Proof.
  intros [Hc Hin] Hs. destruct (step_registries _ _ _ Hs) as [[Hle Hio] _].
  split; [lia|]. intros k' Hk' Hconn.
  destruct (Hio k' Hk') as [[Hnew _]|(k & later & Hk & Hsame & Hinbox & Hev)];
    [lia|].
  destruct (Hin k Hk) as (later0 & H0 & Hev0); [congruence|].
  exists (later0 ++ later)%list. rewrite Hinbox, H0. split; [reflexivity|].
  apply Forall_app. auto.
Qed.

Lemma ws_bootstrapped_step c first s ev s' :
  ws_bootstrapped c first s -> step s ev = Some s' ->
  ws_bootstrapped c first s'.
Proof.
  intros [Hc Hin] Hs. destruct (step_registries _ _ _ Hs) as [_ [Hle Hws]].
  split; [lia|]. intros k' Hk' Hconn.
  destruct (Hws k' Hk') as [[Hnew _]|(k & later & Hk & Hsame & Hinbox & Hev)];
    [lia|].
  destruct (Hin k Hk) as (later0 & H0 & Hev0); [congruence|].
  exists (later0 ++ later)%list. rewrite Hinbox, H0. split; [reflexivity|].
  apply Forall_app. auto.
Qed.

Lemma io_bootstrapped_run c first evs : forall s s',
  io_bootstrapped c first s -> run s evs = Some s' ->
  io_bootstrapped c first s'.
Proof.
  induction evs as [|ev evs IH]; intros s s' H Hrun; cbn [run] in Hrun.
  - now injection Hrun as <-.
  - destruct (step s ev) as [s1|] eqn:Hs; [|discriminate Hrun].
    eapply IH; [|exact Hrun]. eapply io_bootstrapped_step; eauto.
Qed.

Lemma ws_bootstrapped_run c first evs : forall s s',
  ws_bootstrapped c first s -> run s evs = Some s' ->
  ws_bootstrapped c first s'.
Proof.
  induction evs as [|ev evs IH]; intros s s' H Hrun; cbn [run] in Hrun.
  - now injection Hrun as <-.
  - destruct (step s ev) as [s1|] eqn:Hs; [|discriminate Hrun].
    eapply IH; [|exact Hrun]. eapply ws_bootstrapped_step; eauto.
Qed.

Lemma fresh_step s ev s' :
  fresh_connections s -> step s ev = Some s' -> fresh_connections s'.
Proof.
  intros [Hio Hws] Hs.
  destruct (step_registries _ _ _ Hs) as [[Hle Hio'] [_ Hws']].
  rewrite Forall_forall in Hio, Hws.
  split; apply Forall_forall; intros x Hx.
  - destruct (Hio' x Hx) as [[-> Hlt]|(k & _ & Hk & -> & _)]; [exact Hlt|].
    specialize (Hio k Hk). lia.
  - destruct (Hws' x Hx) as [[-> Hlt]|(k & _ & Hk & -> & _)]; [exact Hlt|].
    specialize (Hws k Hk). lia.
Qed.

Lemma reachable_fresh s : reachable s -> fresh_connections s.
Proof.
  intros (fault & now & tbl & history & conns & evs & s0 & Hboot & Hrun).
  assert (H0 : fresh_connections s0).
  { apply boot_registries in Hboot as (Hio & Hws & _).
    unfold fresh_connections. rewrite Hio, Hws. auto. }
  clear Hboot. revert s0 H0 Hrun.
  induction evs as [|ev evs IH]; intros s0 H0 Hrun; cbn [run] in Hrun.
  - now injection Hrun as <-.
  - destruct (step s0 ev) as [s1|] eqn:Hs; [|discriminate Hrun].
    eapply IH; [|exact Hrun]. eapply fresh_step; eauto.
Qed.

(** C7, as the code has it.  In every state the process can be in, a new
    connection on either transport, its bootstrap query succeeding, receives
    exactly one bootstrap message: it is the first message of its inbox, its
    content is what the active query selects at the instant of connection
    (the rows that are active and expire in a later whole second), and
    whatever the run does next, all that follows it in the inbox are issue
    and expire events. *)
Theorem bootstrap_precedes_events s :
  reachable s -> io_bootstrap_first s /\ ws_bootstrap_first s.
Proof.
  intros Hreach. unfold io_bootstrap_first, ws_bootstrap_first.
  destruct (reachable_fresh _ Hreach) as [Hio Hws].
  rewrite Forall_forall in Hio, Hws. split.
  - eexists. eexists. split; [reflexivity|].
    cbn [add_io ioSockets io_conn io_inbox].
    split; [reflexivity|]. split; [reflexivity|]. split; [reflexivity|].
    intros evs s2 k2 Hrun Hk2 Hconn.
    assert (H1 : io_bootstrapped (connections s) ("bootstrap", snapshot s)
                   (add_io {| io_conn := connections s;
                              io_inbox := [("bootstrap", snapshot s)] |} s)).
    { split; [cbn; lia|]. cbn [add_io ioSockets]. intros k Hk Hc.
      apply in_app_or in Hk as [Hk|[<-|[]]].
      - specialize (Hio k Hk). lia.
      - exists []. auto. }
    destruct (io_bootstrapped_run _ _ _ _ _ H1 Hrun) as [_ H2]. auto.
  - eexists. eexists. split; [reflexivity|].
    cbn [ws_connection add_ws wsClients ws_conn ws_inbox].
    split; [reflexivity|]. split; [reflexivity|]. split; [reflexivity|].
    intros evs s2 c2 Hrun Hc2 Hconn.
    assert (H1 : ws_bootstrapped (connections s) (ws_bootstrap (snapshot s))
                   (ws_connection false s)).
    { split; [cbn; lia|]. cbn [ws_connection add_ws wsClients].
      intros k Hk Hc. apply in_app_or in Hk as [Hk|[<-|[]]].
      - specialize (Hws k Hk). lia.
      - exists []. auto. }
    destruct (ws_bootstrapped_run _ _ _ _ _ H1 Hrun) as [_ H2]. auto.
Qed.

End Bootstrap.

(** * Further properties *)

(** ** The table under upserts and deactivations *)

Section Table.

Context {host : Host}.

Lemma persist_issue_steps payload fault now tbl n tbl' :
  persist_issue payload fault now tbl = Ok (n, tbl') ->
  validateIssue payload = Ok tt
  /\ expiry_of payload = Ok (n_expiresISO n)
  /\ make_row payload (n_expiresISO n) = Ok n
  /\ insertWarning_run fault now n tbl = Ok tbl'.
Proof.
  unfold persist_issue. intros H.
  destruct (validateIssue payload) as [[]|] eqn:Hv; [|discriminate H].
  cbn [bind] in H.
  destruct (expiry_of payload) as [x|]; [|discriminate H]. cbn [bind] in H.
  destruct (make_row_ok payload x (validateIssue_ok_object _ Hv))
    as (n' & Hn' & _ & Hx & _).
  rewrite Hn' in H. cbn [bind] in H.
  destruct (insertWarning_run fault now n' tbl) eqn:Hi; [|discriminate H].
  cbn [bind] in H. injection H as <- <-. rewrite Hx. auto.
Qed.

Lemma id_is_self w r : id r = Some w -> id_is (Some w) r = true.
Proof. intros H. unfold id_is. rewrite H. cbn. apply String.eqb_refl. Qed.

Lemma id_is_true k r : id_is k r = true -> id r = k.
Proof.
  unfold id_is, option_eqb. destruct (id r) as [x|], k as [y|];
    try discriminate. intros H. apply String.eqb_eq in H. now subst.
Qed.

Lemma id_is_none r : id_is None r = false.
Proof. unfold id_is, option_eqb. now destruct (id r). Qed.

Lemma filter_filter_negb {A : Type} (f : A -> bool) (l : list A) :
  filter f (filter (fun x => negb (f x)) l) = [].
Proof.
  induction l as [|x l IH]; [reflexivity|]. cbn [filter].
  destruct (f x) eqn:E; cbn [negb filter]; [exact IH|].
  now rewrite E.
Qed.

Lemma filter_idem {A : Type} (f : A -> bool) (l : list A) :
  filter f (filter f l) = filter f l.
Proof.
  induction l as [|x l IH]; [reflexivity|]. cbn [filter].
  destruct (f x) eqn:E; cbn [filter]; [now rewrite E, IH | exact IH].
Qed.

Lemma filter_comm {A : Type} (f g : A -> bool) (l : list A) :
  filter f (filter g l) = filter g (filter f l).
Proof.
  induction l as [|x l IH]; [reflexivity|]. cbn [filter].
  destruct (f x) eqn:Ef, (g x) eqn:Eg; cbn [filter];
    rewrite ?Ef, ?Eg, IH; reflexivity.
Qed.

Lemma filter_id_removed k tbl :
  filter (id_is k) (filter (fun r' => negb (id_is k r')) tbl) = [].
Proof. exact (filter_filter_negb (id_is k) tbl). Qed.

Lemma filter_not_id_idem k tbl :
  filter (fun r' => negb (id_is k r'))
    (filter (fun r' => negb (id_is k r')) tbl)
  = filter (fun r' => negb (id_is k r')) tbl.
Proof. exact (filter_idem (fun r' => negb (id_is k r')) tbl). Qed.

(** X1.  An upsert is a full replacement: when it succeeds for an id the
    store can hold, the table has exactly one row of that id afterwards,
    the new one, active again and carrying the new expiry and polygon, and
    the rows of every other id are what they were, in their order. *)
Theorem upsert_replaces_row fault now n tbl tbl' w :
  insertWarning_run fault now n tbl = Ok tbl' ->
  id_key (n_id n) = Some w ->
  exists r,
    filter (id_is (Some w)) tbl' = [r]
    /\ active r = 1
    /\ expiresISO r = n_expiresISO n
    /\ polygon r = n_polygon n
    /\ filter (fun r' => negb (id_is (Some w) r')) tbl'
       = filter (fun r' => negb (id_is (Some w) r')) tbl.
Proof.
  intros Hi Hw.
  destruct (insertWarning_run_ok _ _ _ _ _ Hi)
    as (r & -> & Hid & Hpoly & Hexp & Hact & _).
  rewrite Hw in Hid. exists r. rewrite Hid, !filter_app.
  rewrite filter_id_removed, filter_not_id_idem. cbn [filter app].
  rewrite (id_is_self _ _ Hid). cbn [negb]. rewrite app_nil_r. auto.
Qed.

Lemma insert_unique fault now n tbl tbl' :
  insertWarning_run fault now n tbl = Ok tbl' ->
  unique_ids tbl -> unique_ids tbl'.
Proof.
  intros Hi Hu w.
  destruct (insertWarning_run_ok _ _ _ _ _ Hi) as (r & -> & _).
  rewrite filter_app, length_app. cbn [filter].
  rewrite (filter_comm (id_is (Some w)) (fun r' => negb (id_is (id r) r'))).
  destruct (id_is (Some w) r) eqn:E; cbn [List.length].
  - apply id_is_true in E. rewrite <- E.
    rewrite (filter_comm (fun r' => negb (id_is (id r) r')) (id_is (id r))).
    rewrite filter_id_removed. cbn. lia.
  - specialize (Hu w).
    pose proof (filter_length_le (fun r' => negb (id_is (id r) r'))
                  (filter (id_is (Some w)) tbl)).
    lia.
Qed.

Lemma id_is_deactivate k r : id_is k (deactivate r) = id_is k r.
Proof. reflexivity. Qed.

Lemma filter_id_expired k k' tbl :
  filter (id_is k')
    (map (fun r => if id_is k r then deactivate r else r) tbl)
  = map (fun r => if id_is k r then deactivate r else r)
      (filter (id_is k') tbl).
Proof.
  induction tbl as [|r tbl IH]; [reflexivity|]. cbn [map filter].
  assert (E : id_is k' (if id_is k r then deactivate r else r) = id_is k' r)
    by (destruct (id_is k r); reflexivity).
  rewrite E. destruct (id_is k' r); cbn [map]; now rewrite IH.
Qed.

Lemma expire_unique fault v tbl tbl' :
  expireById_run fault v tbl = Ok tbl' ->
  unique_ids tbl -> unique_ids tbl'.
Proof.
  intros He Hu w.
  destruct (expireById_run_ok _ _ _ _ He) as (k & _ & _ & ->).
  rewrite filter_id_expired, length_map. apply Hu.
Qed.

(** The table after one event: as it was, or after one upsert, or after
    one deactivation. *)
Lemma step_db s ev s' :
  step s ev = Some s' ->
  db s' = db s
  \/ (exists payload fault n,
        persist_issue payload fault (clock s) (db s) = Ok (n, db s')
        /\ command ev = Some ("issue", field payload "id"))
  \/ (exists fault v, expireById_run fault v (db s) = Ok (db s')).
Proof.
  intros Hs.
  assert (Hissue : forall p src f,
            db (handleIssue p src f s) = db s
            \/ exists n, persist_issue p f (clock s) (db s)
                         = Ok (n, db (handleIssue p src f s))).
  { intros p src f.
    destruct (persist_issue p f (clock s) (db s)) as [[n tbl]|e] eqn:Hp.
    - right. exists n. destruct (handleIssue_ok _ src _ _ _ _ Hp) as (-> & _).
      reflexivity.
    - left. unfold handleIssue. now rewrite Hp. }
  assert (Hexpire : forall i src f,
            db (handleExpire i src f s) = db s
            \/ expireById_run f i (db s) = Ok (db (handleExpire i src f s))).
  { intros i src f. unfold handleExpire.
    destruct (expireById_run f i (db s)); cbn; auto. }
  destruct ev as [| | | | | | | | |n fault|fault].
  10:{ apply step_fire in Hs as (t & _ & _ & ->). unfold expire_timer.
       cbn [db set_timers].
       destruct (expireById_run fault (target t) (db s)) eqn:He; cbn; eauto. }
  10:{ cbn [step] in Hs. unfold boot in Hs.
       destruct (getActive_all fault (clock s) (db s)) as [rows|];
         [|discriminate Hs].
       injection Hs as <-. left.
       match goal with
       | |- context [fold_left ?f rows ?s0] =>
           destruct (boot_loop rows s0) as (-> & _)
       end.
       reflexivity. }
  all: match type of Hs with
       | step _ ?ev = Some _ =>
           assert (Hf : forall n fault, ev <> Fire n fault) by discriminate;
           destruct (step_cases _ _ _ Hs Hf eq_refl)
             as [(_ & -> & _)
                |[(p & src & f & -> & Hc)|(i & src & f & -> & Hc)]];
           [auto| |]
       end.
  all: try (destruct (Hissue p src f) as [->|[n Hn]]; [auto|];
            right; left; exists p, f, n; auto).
  all: destruct (Hexpire i src f) as [->|He]; eauto.
Qed.

(** X2.  The primary key holds throughout: from a table in which no two
    rows share an id, no run of the process, restarts included, reaches a
    table in which two do. *)
Theorem ids_stay_unique s evs s' :
  unique_ids (db s) -> run s evs = Some s' -> unique_ids (db s').
Proof.
  revert s. induction evs as [|ev evs IH]; intros s Hu Hrun; cbn [run] in Hrun.
  - now injection Hrun as <-.
  - destruct (step s ev) as [s1|] eqn:Hs; [|discriminate Hrun].
    apply (IH s1); [|exact Hrun].
    destruct (step_db _ _ _ Hs)
      as [->|[(p & f & n & Hp & _)|(f & v & He)]]; [exact Hu| |].
    + apply persist_issue_steps in Hp as (_ & _ & _ & Hi).
      eapply insert_unique; eauto.
    + eapply expire_unique; eauto.
Qed.

Lemma insert_keeps_ids fault now n tbl tbl' :
  insertWarning_run fault now n tbl = Ok tbl' ->
  incl (map id tbl) (map id tbl').
Proof.
  intros Hi k Hk.
  destruct (insertWarning_run_ok _ _ _ _ _ Hi) as (r & -> & _).
  apply in_map_iff in Hk as (r0 & <- & Hr0).
  rewrite map_app. apply in_or_app.
  destruct (id_is (id r) r0) eqn:E.
  - right. left. apply id_is_true in E. symmetry. exact E.
  - left. apply in_map, filter_In. split; [exact Hr0|]. now rewrite E.
Qed.

Lemma expire_keeps_ids fault v tbl tbl' :
  expireById_run fault v tbl = Ok tbl' -> map id tbl' = map id tbl.
Proof.
  intros He. destruct (expireById_run_ok _ _ _ _ He) as (k & _ & _ & ->).
  rewrite map_map. apply map_ext. intros r.
  destruct (id_is (text_affinity k) r); reflexivity.
Qed.

Lemma step_keeps_ids s ev s' :
  step s ev = Some s' -> incl (map id (db s)) (map id (db s')).
Proof.
  intros Hs.
  destruct (step_db _ _ _ Hs) as [->|[(p & f & n & Hp & _)|(f & v & He)]].
  - apply incl_refl.
  - apply persist_issue_steps in Hp as (_ & _ & _ & Hi).
    eapply insert_keeps_ids; eauto.
  - rewrite (expire_keeps_ids _ _ _ _ He). apply incl_refl.
Qed.

(** X3.  The process never deletes a warning: whatever a run does, expiry,
    re-issue and restart included, every id the table held is still in the
    table at its end. *)
Theorem rows_never_deleted s evs s' :
  run s evs = Some s' -> incl (map id (db s)) (map id (db s')).
Proof.
  revert s. induction evs as [|ev evs IH]; intros s Hrun; cbn [run] in Hrun.
  - injection Hrun as <-. apply incl_refl.
  - destruct (step s ev) as [s1|] eqn:Hs; [|discriminate Hrun].
    eapply incl_tran; [eapply step_keeps_ids; eauto | eauto].
Qed.

End Table.

(** ** Deactivation *)

Section Deactivation.

Context {host : Host}.

Lemma expired_rows_inactive k w tbl :
  text_affinity k = Some w ->
  inactive w (map (fun r => if id_is (text_affinity k) r then deactivate r
                            else r) tbl).
Proof.
  intros Hk r Hr Hid. apply (deactivated_rows k tbl r Hr).
  rewrite Hk. now apply id_is_self.
Qed.

Lemma inactive_not_selected w tbl now r :
  inactive w tbl -> In r (filter (is_active_at now) tbl) -> id r <> Some w.
Proof.
  intros Hw Hr Hid. apply filter_In in Hr as [Hr Ha].
  unfold is_active_at in Ha. rewrite (Hw r Hr Hid) in Ha. discriminate Ha.
Qed.

(** X4.  After an expire command that the store carried out for the id
    [w], every row of [w] is inactive and the active query returns no row
    of [w], at whatever instant it is asked: a later bootstrap does not
    list the warning. *)
Theorem expired_leaves_active_set v src s k w :
  expire_param v = Ok k -> text_affinity k = Some w ->
  inactive w (db (handleExpire v src false s))
  /\ forall now rows r,
       getActive_all false now (db (handleExpire v src false s)) = Ok rows ->
       In r rows -> id r <> Some w.
Proof.
  intros Hv Hk.
  assert (Hdb : db (handleExpire v src false s)
                = map (fun r => if id_is (text_affinity k) r then deactivate r
                                else r) (db s)).
  { unfold handleExpire, expireById_run. rewrite Hv. reflexivity. }
  rewrite Hdb.
  pose proof (expired_rows_inactive k w (db s) Hk) as Hin.
  split; [exact Hin|].
  intros now rows r Hq Hr. injection Hq as <-.
  eapply inactive_not_selected; eauto.
Qed.

Lemma insert_keeps_inactive fault now n tbl tbl' w :
  insertWarning_run fault now n tbl = Ok tbl' ->
  option_eqb (id_key (n_id n)) (Some w) = false ->
  inactive w tbl -> inactive w tbl'.
Proof.
  intros Hi Hne Hw r0 Hr0 Hid.
  destruct (insertWarning_run_ok _ _ _ _ _ Hi) as (r & -> & Hr & _).
  apply in_app_or in Hr0 as [Hr0|[<-|[]]].
  - apply filter_In in Hr0 as [Hr0 _]. auto.
  - rewrite <- Hr, Hid in Hne. cbn in Hne.
    rewrite String.eqb_refl in Hne. discriminate Hne.
Qed.

Lemma expire_keeps_inactive fault v tbl tbl' w :
  expireById_run fault v tbl = Ok tbl' -> inactive w tbl -> inactive w tbl'.
Proof.
  intros He Hw r' Hr' Hid.
  destruct (expireById_run_ok _ _ _ _ He) as (k & _ & _ & ->).
  apply in_map_iff in Hr' as (r & <- & Hr).
  destruct (id_is (text_affinity k) r); [reflexivity|]. auto.
Qed.

Lemma step_keeps_inactive w s ev s' :
  step s ev = Some s' -> is_command "issue" w ev = false ->
  inactive w (db s) -> inactive w (db s').
Proof.
  intros Hs Hc Hw.
  destruct (step_db _ _ _ Hs) as [->|[(p & f & n & Hp & Hcmd)|(f & v & He)]].
  - exact Hw.
  - unfold is_command in Hc. rewrite Hcmd in Hc. cbn in Hc.
    pose proof (persist_issue_id _ _ _ _ _ _ Hp) as Hid.
    apply persist_issue_steps in Hp as (_ & _ & _ & Hi).
    eapply insert_keeps_inactive; eauto. now rewrite Hid.
  - eapply expire_keeps_inactive; eauto.
Qed.

(** X5.  Deactivation is final until a re-issue: if every row of [w] is
    inactive, it remains so through any run that has no issue command for
    [w], whatever else the run does (other commands, timers firing,
    connections, restarts). *)
Theorem inactive_until_reissued w s evs s' :
  inactive w (db s) -> run s evs = Some s' ->
  commands "issue" w evs = 0%nat -> inactive w (db s').
Proof.
  revert s. induction evs as [|ev evs IH]; intros s Hw Hrun Hc;
    cbn [run] in Hrun.
  - now injection Hrun as <-.
  - destruct (step s ev) as [s1|] eqn:Hs; [|discriminate Hrun].
    unfold commands in Hc. cbn [filter] in Hc.
    destruct (is_command "issue" w ev) eqn:E; [discriminate Hc|].
    apply (IH s1); [|exact Hrun|exact Hc].
    eapply step_keeps_inactive; eauto.
Qed.

Lemma Forall2_map_self {A : Type} (P : A -> A -> Prop) (f : A -> A) l :
  (forall x, P x (f x)) -> Forall2 P l (map f l).
Proof.
  intros H. induction l as [|x l IH]; cbn [map]; constructor; auto.
Qed.

Lemma deactivated_row k r :
  same_but_active r (if id_is (text_affinity k) r then deactivate r else r)
  /\ active (if id_is (text_affinity k) r then deactivate r else r)
     = if id_is (text_affinity k) r then 0 else active r.
Proof.
  unfold same_but_active.
  destruct (id_is (text_affinity k) r); cbn; repeat split.
Qed.

(** X6.  What the UPDATE does, and that it is idempotent.  A successful
    expire leaves the table with the same rows in the same order, every
    column of every row as it was but [active], which is 0 in the rows the
    parameter matches and untouched in the others; running the same expire
    again on the result changes nothing. *)
Theorem expire_idempotent fault v tbl tbl' :
  expireById_run fault v tbl = Ok tbl' ->
  expireById_run fault v tbl' = Ok tbl'
  /\ exists k,
       expire_param v = Ok k
       /\ Forall2 (fun r r' =>
                     same_but_active r r'
                     /\ active r' = if id_is (text_affinity k) r then 0
                                    else active r) tbl tbl'.
Proof.
  intros He. destruct (expireById_run_ok _ _ _ _ He) as (k & Hk & -> & ->).
  split.
  - unfold expireById_run. rewrite Hk. cbn [bind storage]. f_equal.
    rewrite map_map. apply map_ext. intros r.
    destruct (id_is (text_affinity k) r) eqn:E.
    + rewrite id_is_deactivate, E. reflexivity.
    + now rewrite E.
  - exists k. split; [exact Hk|].
    apply Forall2_map_self. intros r. apply deactivated_row.
Qed.

Lemma is_active_at_later now now' r :
  now <= now' -> is_active_at now' r = true -> is_active_at now r = true.
Proof.
  unfold is_active_at, sqlite_now. intros Hle H.
  apply andb_prop in H as [Ha He]. rewrite Ha. cbn [andb].
  destruct (sqlite_datetime (expiresISO r)) as [e|]; [|discriminate He].
  apply Z.ltb_lt in He. apply Z.ltb_lt.
  pose proof (Z.div_le_mono now now' 1000 ltac:(lia) Hle). lia.
Qed.

(** X7.  The active set only shrinks with time: on the same table, what
    the active query returns at a later instant is among what it returned
    at an earlier one.  A row that dropped out by time never comes back
    unless it is written again. *)
Theorem active_set_shrinks now now' tbl rows rows' :
  now <= now' ->
  getActive_all false now tbl = Ok rows ->
  getActive_all false now' tbl = Ok rows' ->
  incl rows' rows.
Proof.
  intros Hle H H'. injection H as <-. injection H' as <-.
  intros r Hr. apply filter_In in Hr as [Hr Ha]. apply filter_In.
  split; [exact Hr|]. eapply is_active_at_later; eauto.
Qed.

Lemma app_one_neq {A : Type} (l : list A) (x : A) : l <> (l ++ [x])%list.
Proof.
  intros H. apply (f_equal (@List.length A)) in H.
  rewrite length_app in H. cbn in H. lia.
Qed.

(** X8.  [handleExpire] broadcasts exactly when the UPDATE ran, whether or
    not it matched a row: it emits the expire event if and only if the
    store did not fail and the id is a value the statement accepts;
    otherwise it logs the error and changes nothing else. *)
Theorem expire_broadcast_iff id src fault s :
  (emitted (handleExpire id src fault s)
   = (emitted s ++ [("expire", VObj [("id", id)])])%list
   <-> fault = false /\ exists k, expire_param id = Ok k)
  /\ (emitted (handleExpire id src fault s) = emitted s
      <-> exists e, expire_refused e s (handleExpire id src fault s)).
Proof.
  unfold handleExpire, expireById_run, expire_refused.
  destruct (expire_param id) as [k|e] eqn:Hk; cbn [bind].
  - destruct fault; cbn [storage bind].
    + split; split.
      * intros H. cbn in H. exfalso. eapply app_one_neq; eauto.
      * intros [H _]. discriminate H.
      * intros _. eexists. cbn. repeat split.
      * reflexivity.
    + split; split.
      * eauto.
      * reflexivity.
      * cbn. intros H. exfalso. symmetry in H. eapply app_one_neq; eauto.
      * intros (e & _ & _ & H & _). cbn in H. exfalso. symmetry in H.
        eapply app_one_neq; eauto.
  - split; split.
    + intros H. cbn in H. exfalso. eapply app_one_neq; eauto.
    + intros [_ [k H]]. discriminate H.
    + intros _. eexists. cbn. repeat split.
    + reflexivity.
Qed.

Lemma expireById_run_fault v tbl :
  exists e, expireById_run true v tbl = Throw e.
Proof.
  unfold expireById_run. destruct (expire_param v); cbn; eauto.
Qed.

(** X9.  A timer is spent by its firing, whether or not the deactivation
    succeeds: the firing removes it from the pending timers, and when the
    store fails the callback only logs the error, so the row is left as it
    was, no expire is broadcast, and nothing in the process will try
    again. *)
Theorem timer_spent_by_firing s n t fault :
  nth_error (timers s) n = Some t -> due t <= clock s ->
  exists s',
    step s (Fire n fault) = Some s'
    /\ timers s' = remove_nth n (timers s)
    /\ (fault = true ->
        db s' = db s /\ emitted s' = emitted s
        /\ exists e, console s' = (console s ++ [TimerError e])%list).
Proof.
  intros Hn Hdue. cbn [step]. rewrite Hn.
  destruct (Z.leb_spec (due t) (clock s)); [|lia].
  eexists. split; [reflexivity|].
  destruct (expire_timer_effects (target t) fault
              (set_timers (remove_nth n (timers s)) s)) as [Ht _].
  split; [exact Ht|]. intros ->. unfold expire_timer. cbn [db set_timers].
  destruct (expireById_run_fault (target t) (db s)) as [e He].
  rewrite He. cbn. eauto.
Qed.

End Deactivation.

(** ** What an accepted issue leaves behind *)

Ltac bind_ok H :=
  match type of H with
  | bind ?r _ = _ =>
      let E := fresh "E" in
      destruct r eqn:E; cbn [bind] in H; [|discriminate H]
  end.

Section Issue.

Context {host : Host}.

Lemma validateIssue_required p k :
  validateIssue p = Ok tt -> In k required -> nullish (field p k) = false.
Proof.
  intros Hv Hk. pose proof (validateIssue_ok_object _ Hv) as Hp.
  unfold validateIssue in Hv.
  destruct (check_required required p) as [[]|] eqn:Hc; [|discriminate Hv].
  eapply check_required_ok; eauto.
Qed.

Lemma validateIssue_object p :
  validateIssue p = Ok tt -> exists props, p = VObj props.
Proof.
  intros Hv.
  pose proof (validateIssue_required p "id" Hv (or_introl eq_refl)) as Hid.
  destruct p; try discriminate Hid. eauto.
Qed.

Lemma lookup_set_prop_same k v props : lookup k (set_prop k v props) = Some v.
Proof.
  induction props as [|[k' v'] props IH]; cbn [lookup set_prop].
  - now rewrite String.eqb_refl.
  - destruct (String.eqb k k') eqn:E; cbn [lookup]; [|rewrite E; exact IH].
    now rewrite String.eqb_refl.
Qed.

Lemma lookup_set_prop_other k k' v props :
  k' <> k -> lookup k' (set_prop k v props) = lookup k' props.
Proof.
  intros Hne. induction props as [|[k0 v0] props IH]; cbn [lookup set_prop].
  - destruct (String.eqb_spec k' k); [contradiction | reflexivity].
  - destruct (String.eqb_spec k k0) as [->|]; cbn [lookup].
    + destruct (String.eqb_spec k' k0); [contradiction | reflexivity].
    + destruct (String.eqb k' k0); [reflexivity | exact IH].
Qed.

Lemma persist_issue_expiry payload fault now tbl n tbl' t k :
  persist_issue payload fault now tbl = Ok (n, tbl') ->
  new_Date (field payload "issuedISO") = Ok (Some t) ->
  ToNumber (field payload "minutes") = Ok (Fin (inject_Z k)) ->
  four_digit_year (t + k * 60000) ->
  n_expiresISO n = ISO_string (t + k * 60000).
Proof.
  intros Hp Ht Hk Hy.
  apply persist_issue_steps in Hp as (Hv & Hx & _).
  pose proof (validateIssue_ok_object _ Hv) as Hobj.
  unfold expiry_of in Hx. rewrite !(get_field _ _ Hobj) in Hx.
  cbn [bind] in Hx. rewrite Ht in Hx. cbn [bind] in Hx.
  rewrite Hk in Hx. cbn [bind] in Hx.
  rewrite (TimeClip_sum _ _ (validateIssue_minutes _ _ Hv Hk) Hy) in Hx. now injection Hx as <-.
Qed.

(** X10.  Where the timer of an accepted issue is set.  For a persisted
    command with the instant of issue [t], the integer [k] as its minutes
    and an expiry [t + k * 60000] of a four-digit year: no timer is armed
    when the expiry is not later than now (the warning is stored and
    announced all the same); otherwise exactly one timer is added after the
    pending ones, for the id of the command, due at the expiry itself when
    that is at most [TIMEOUT_MAX] milliseconds away and one millisecond
    from now when it is further away. *)
Theorem issue_timer_due_at_expiry payload src fault s n tbl t k :
  persist_issue payload fault (clock s) (db s) = Ok (n, tbl) ->
  new_Date (field payload "issuedISO") = Ok (Some t) ->
  ToNumber (field payload "minutes") = Ok (Fin (inject_Z k)) ->
  four_digit_year (t + k * 60000) ->
  timers (handleIssue payload src fault s)
  = (timers s ++
     if t + k * 60000 <=? clock s then []
     else [{| due := if t + k * 60000 - clock s <=? TIMEOUT_MAX
                     then t + k * 60000 else clock s + 1;
              target := field payload "id" |}])%list.
Proof.
  intros Hp Ht Hk Hy.
  destruct (handleIssue_ok _ src _ _ _ _ Hp) as (_ & -> & _).
  rewrite scheduleExpiry_timers, (persist_issue_id _ _ _ _ _ _ Hp).
  rewrite (persist_issue_expiry _ _ _ _ _ _ _ _ Hp Ht Hk Hy).
  rewrite (Date_parse_ISO_string _ Hy). cbn [timers set_db clock].
  f_equal. set (e := t + k * 60000).
  destruct (Z.leb_spec (e - clock s) 0), (Z.leb_spec e (clock s)); try lia;
    [reflexivity|].
  unfold timeout_delay.
  destruct (Z.leb_spec 1 (e - clock s)); [|lia]. cbn [andb].
  destruct (Z.leb_spec (e - clock s) TIMEOUT_MAX); do 2 f_equal; lia.
Qed.

(** X11.  What an accepted issue announces.  The event carries the payload
    as it came, every property of it, known or not, with [expiresISO] set
    to the expiry that was stored; the same object is one more message at
    the end of the inbox of every Socket.IO socket, as the argument of
    [issue], and of every open client of the native transport, as the
    [payload] of an [issue] frame; a client that is not open keeps the
    inbox it had. *)
Theorem issue_announces_payload payload src fault s n tbl :
  persist_issue payload fault (clock s) (db s) = Ok (n, tbl) ->
  exists obj r,
    emitted (handleIssue payload src fault s)
    = (emitted s ++ [("issue", obj)])%list
    /\ field obj "expiresISO" = VStr (n_expiresISO n)
    /\ (forall k, k <> "expiresISO" -> field obj k = field payload k)
    /\ In r (db (handleIssue payload src fault s))
    /\ id r = id_key (field payload "id")
    /\ expiresISO r = n_expiresISO n
    /\ Forall2 (fun k k' =>
                  io_conn k' = io_conn k
                  /\ io_inbox k' = (io_inbox k ++ [("issue", obj)])%list)
         (ioSockets s) (ioSockets (handleIssue payload src fault s))
    /\ Forall2 (fun c c' =>
                  ws_conn c' = ws_conn c /\ readyState c' = readyState c
                  /\ ws_inbox c'
                     = if readyState c =? 1
                       then (ws_inbox c
                             ++ [json_value (VObj [("kind", VStr "issue");
                                                   ("payload", obj)])])%list
                       else ws_inbox c)
         (wsClients s) (wsClients (handleIssue payload src fault s)).
Proof.
  intros Hp.
  pose proof (persist_issue_id _ _ _ _ _ _ Hp) as Hid.
  destruct (persist_issue_steps _ _ _ _ _ _ Hp) as (Hv & _ & _ & Hi).
  destruct (validateIssue_object _ Hv) as [props ->].
  destruct (insertWarning_run_ok _ _ _ _ _ Hi) as (r & Htbl & Hr & _ & He & _).
  exists (VObj (set_prop "expiresISO" (VStr (n_expiresISO n)) props)), r.
  unfold handleIssue. rewrite Hp.
  destruct (scheduleExpiry_frame (n_id n) (n_expiresISO n) (set_db tbl s))
    as (Hdb & _ & Hio & Hws & _ & Hem & _).
  cbn [log broadcast emitted db ioSockets wsClients spread
       String.eqb Ascii.eqb Bool.eqb].
  rewrite Hdb, Hio, Hws, Hem. cbn [db set_db emitted ioSockets wsClients].
  split; [reflexivity|]. split; [|split; [|split; [|split; [|split]]]].
  - unfold field. cbn [get]. now rewrite lookup_set_prop_same.
  - intros k0 Hk0. unfold field. cbn [get].
    now rewrite (lookup_set_prop_other _ _ _ _ Hk0).
  - rewrite Htbl. apply in_or_app. right. left. reflexivity.
  - now rewrite Hr, Hid.
  - exact He.
  - split.
    + apply Forall2_map_self. intros k. cbn. auto.
    + apply Forall2_map_self. intros c.
      destruct (readyState c =? 1); cbn; auto.
Qed.

Lemma insertWarning_run_texts fault now n tbl tbl' :
  insertWarning_run fault now n tbl = Ok tbl' ->
  exists r,
    In r tbl'
    /\ id r = id_key (n_id n)
    /\ Some (type r) = id_key (n_type n)
    /\ Some (issuedISO r) = id_key (n_issuedISO n)
    /\ polygon r = n_polygon n
    /\ wind r = id_key (n_wind n) /\ hail r = id_key (n_hail n)
    /\ threat r = id_key (n_threat n) /\ author r = id_key (n_author n)
    /\ info r = id_key (n_info n) /\ possibleTag r = id_key (n_possibleTag n).
Proof.
  intros H. unfold insertWarning_run in H.
  repeat bind_ok H.
  cbv zeta in H.
  match type of H with Ok (_ ++ [?r])%list = _ => exists r end.
  injection H as <-. split; [apply in_or_app; right; left; reflexivity|].
  unfold id_key. cbn [id type issuedISO polygon wind hail threat author info
                      possibleTag].
  repeat match goal with
         | E : bind_value _ = Ok _ |- _ => rewrite E; clear E
         end.
  repeat match goal with
         | E : not_null ?o = Ok _ |- _ =>
             destruct o eqn:?; cbn in E; [injection E as <-|discriminate E]
         end.
  repeat split; congruence.
Qed.

(** X12.  What an accepted issue stores.  The row of a persisted command
    holds the command's [id], [type] and [issuedISO] as the texts the store
    makes of them (a string is kept as it is), the polygon as its JSON
    text, and each optional field as its text, or NULL when the field is
    absent or [null]. *)
Theorem issue_stores_payload payload fault now tbl n tbl' :
  persist_issue payload fault now tbl = Ok (n, tbl') ->
  exists r,
    In r tbl'
    /\ id r = id_key (field payload "id")
    /\ Some (type r) = id_key (field payload "type")
    /\ Some (issuedISO r) = id_key (field payload "issuedISO")
    /\ polygon r = json_value (field payload "polygon")
    /\ wind r = id_key (coalesce (field payload "wind") VNull)
    /\ hail r = id_key (coalesce (field payload "hail") VNull)
    /\ threat r = id_key (coalesce (field payload "threat") VNull)
    /\ author r = id_key (coalesce (field payload "author") VNull)
    /\ info r = id_key (coalesce (field payload "info") VNull)
    /\ possibleTag r = id_key (coalesce (field payload "possibleTag") VNull).
Proof.
  intros Hp.
  destruct (persist_issue_steps _ _ _ _ _ _ Hp) as (Hv & _ & Hm & Hi).
  pose proof (validateIssue_ok_object _ Hv) as Hobj.
  unfold make_row, optional in Hm. rewrite !(get_field _ _ Hobj) in Hm.
  cbn [bind] in Hm. injection Hm as Hn.
  destruct (insertWarning_run_texts _ _ _ _ _ Hi) as (r & Hr). exists r.
  rewrite <- Hn in Hr. exact Hr.
Qed.

Lemma check_required_first p pre k post :
  nullish p = false ->
  Forall (fun k' => nullish (field p k') = false) pre ->
  nullish (field p k) = true ->
  check_required (pre ++ k :: post) p = Throw (Error ("Missing " ++ k)).
Proof.
  intros Hp Hpre Hk. induction Hpre as [|k' pre Hk' _ IH]; cbn [app check_required];
    rewrite (get_field _ _ Hp); cbn [bind].
  - now rewrite Hk.
  - now rewrite Hk'.
Qed.

(** X13.  Which error validation reports for a missing field.  For a
    payload that is not [null] or [undefined], the error names the first
    of [id], [type], [polygon], [issuedISO], [minutes], in that order, that
    is [null] or [undefined], whatever the fields after it hold; so a
    payload that is not an object (a string, a number, an array) is
    refused as missing its [id]. *)
Theorem validation_names_first_missing p pre k post :
  nullish p = false ->
  required = (pre ++ k :: post)%list ->
  Forall (fun k' => nullish (field p k') = false) pre ->
  nullish (field p k) = true ->
  validateIssue p = Throw (Error ("Missing " ++ k)).
Proof.
  intros Hp Hreq Hpre Hk. unfold validateIssue. rewrite Hreq.
  now rewrite (check_required_first p pre k post Hp Hpre Hk).
Qed.

End Issue.

(** ** Invariants of the running process *)

Section Process.

Context {host : Host}.

Lemma id_key_text_value o : id_key (text_value o) = o.
Proof. destruct o; reflexivity. Qed.

Lemma in_remove_nth {A : Type} (x : A) l : forall n,
  In x (remove_nth n l) -> In x l.
Proof.
  induction l as [|y l IH]; intros [|n] H; cbn [remove_nth] in H;
    try contradiction.
  - right. exact H.
  - destruct H as [<-|H]; [left; reflexivity | right; eauto].
Qed.

(** What one event is to the handlers. *)
Lemma step_effects s ev s' :
  step s ev = Some s' ->
  (db s' = db s /\ timers s' = timers s /\ emitted s' = emitted s)
  \/ (exists payload src fault, s' = handleIssue payload src fault s)
  \/ (exists id src fault, s' = handleExpire id src fault s)
  \/ (exists n t fault,
        nth_error (timers s) n = Some t
        /\ s' = expire_timer (target t) fault
                  (set_timers (remove_nth n (timers s)) s))
  \/ (exists fault,
        boot fault (clock s) (db s) (emitted s) (connections s) = Some s').
Proof.
  intros Hs. destruct ev.
  1-9: destruct (step_cases _ _ _ Hs) as [(_ & H)|[(p & src & f & -> & _)|
                                           (i & src & f & -> & _)]];
    [discriminate | reflexivity | left; exact H | right; left; eauto
    | right; right; left; eauto].
  - apply step_fire in Hs as (t & Hn & _ & ->).
    right. right. right. left. eauto.
  - right. right. right. right. exists fault. exact Hs.
Qed.

Lemma boot_state fault now tbl history conns s :
  boot fault now tbl history conns = Some s ->
  fault = false /\ db s = tbl /\ clock s = now /\ emitted s = history
  /\ timers s = flat_map (rearmed now) (filter (is_active_at now) tbl).
Proof.
  unfold boot, getActive_all. destruct fault; cbn [storage bind]; [discriminate|].
  intros [= <-].
  match goal with
  | |- context [fold_left ?f ?rows ?s0] =>
      destruct (boot_loop rows s0) as (-> & -> & ->);
      destruct (boot_loop_frame rows s0) as (_ & _ & _ & ->)
  end.
  cbn. auto.
Qed.

Lemma in_rearmed now r t :
  In t (rearmed now r) -> now < due t /\ target t = text_value (id r).
Proof.
  unfold rearmed. destruct (Date_parse (expiresISO r)) as [e|].
  - destruct (Z.leb_spec (e - now) 0); [intros []|].
    intros [<-|[]]. cbn [due target]. split; [|reflexivity].
    unfold timeout_delay.
    destruct ((1 <=? e - now) && (e - now <=? TIMEOUT_MAX)); lia.
  - intros [<-|[]]. cbn [due target]. split; [lia | reflexivity].
Qed.

Lemma boot_console rows : forall s0,
  console (fold_left
             (fun s r => scheduleExpiry (text_value (id r)) (expiresISO r) s)
             rows s0) = console s0.
Proof.
  induction rows as [|r rows IH]; intros s0; cbn [fold_left]; [reflexivity|].
  rewrite IH.
  now destruct (scheduleExpiry_frame (text_value (id r)) (expiresISO r) s0)
    as (_ & _ & _ & _ & -> & _).
Qed.

(** X14.  What a start of the process does.  It succeeds only when the
    query of the active rows does; it leaves the table as it found it,
    announces nothing and has no connection; and every timer it arms is
    for an id of a row the active query selected, due strictly later than
    the instant of the start, so that none can fire before time has
    passed. *)
Theorem boot_arms_future_timers fault now tbl history conns s :
  boot fault now tbl history conns = Some s ->
  fault = false
  /\ db s = tbl /\ emitted s = history /\ console s = []
  /\ ioSockets s = [] /\ wsClients s = []
  /\ Forall (fun t => now < due t
                      /\ exists r, In r tbl /\ is_active_at now r = true
                                   /\ target t = text_value (id r))
       (timers s).
Proof.
  intros Hb.
  destruct (boot_state _ _ _ _ _ _ Hb) as (Hf & Hdb & _ & Hem & Ht).
  destruct (boot_registries _ _ _ _ _ _ Hb) as (Hio & Hws & _).
  split; [exact Hf|]. split; [exact Hdb|]. split; [exact Hem|].
  split; [|split; [exact Hio|split; [exact Hws|]]].
  - unfold boot in Hb.
    destruct (getActive_all fault now tbl) as [rows|]; [|discriminate Hb].
    injection Hb as <-. now rewrite boot_console.
  - rewrite Ht. apply Forall_forall. intros t Hin.
    apply in_flat_map in Hin as (r & Hr & Hin).
    apply filter_In in Hr as [Hr Hact].
    destruct (in_rearmed _ _ _ Hin) as [Hdue Htgt]. eauto.
Qed.

Lemma boot_timers_stored fault now tbl history conns s :
  boot fault now tbl history conns = Some s -> timers_stored s.
Proof.
  intros Hb. destruct (boot_state _ _ _ _ _ _ Hb) as (_ & Hdb & _ & _ & Ht).
  intros t Hin. rewrite Ht in Hin. rewrite Hdb.
  apply in_flat_map in Hin as (r & Hr & Hin).
  apply filter_In in Hr as [Hr _].
  destruct (in_rearmed _ _ _ Hin) as [_ ->].
  rewrite id_key_text_value. now apply in_map.
Qed.

Lemma insert_has_id fault now n tbl tbl' :
  insertWarning_run fault now n tbl = Ok tbl' ->
  In (id_key (n_id n)) (map id tbl').
Proof.
  intros Hi. destruct (insertWarning_run_ok _ _ _ _ _ Hi) as (r & -> & <- & _).
  apply in_map, in_or_app. right. left. reflexivity.
Qed.

Lemma handleIssue_timers_stored payload src fault s :
  timers_stored s -> timers_stored (handleIssue payload src fault s).
Proof.
  intros H t Hin.
  destruct (persist_issue payload fault (clock s) (db s)) as [[n tbl]|e] eqn:Hp.
  - destruct (handleIssue_ok _ src _ _ _ _ Hp) as (Hdb & Ht & _).
    rewrite Hdb. rewrite Ht, scheduleExpiry_timers in Hin.
    destruct (persist_issue_steps _ _ _ _ _ _ Hp) as (_ & _ & _ & Hi).
    cbn [timers set_db clock] in Hin.
    apply in_app_or in Hin as [Hin|Hin].
    + eapply insert_keeps_ids; eauto.
    + assert (Ht' : target t = n_id n).
      { destruct (Date_parse (n_expiresISO n)) as [e|].
        - destruct (e - clock s <=? 0); [destruct Hin|].
          destruct Hin as [<-|[]]. reflexivity.
        - destruct Hin as [<-|[]]. reflexivity. }
      rewrite Ht'. eapply insert_has_id; eauto.
  - unfold handleIssue in Hin |- *. rewrite Hp in Hin |- *. apply H, Hin.
Qed.

Lemma handleExpire_ids v src fault s :
  map id (db (handleExpire v src fault s)) = map id (db s).
Proof.
  unfold handleExpire.
  destruct (expireById_run fault v (db s)) as [tbl|e] eqn:He; [|reflexivity].
  cbn [log broadcast set_db db]. eapply expire_keeps_ids; eauto.
Qed.

Lemma expire_timer_ids v fault s :
  map id (db (expire_timer v fault s)) = map id (db s).
Proof.
  unfold expire_timer.
  destruct (expireById_run fault v (db s)) as [tbl|e] eqn:He; [|reflexivity].
  cbn [log broadcast set_db db]. eapply expire_keeps_ids; eauto.
Qed.

Lemma step_timers_stored s ev s' :
  timers_stored s -> step s ev = Some s' -> timers_stored s'.
Proof.
  intros H Hs.
  destruct (step_effects _ _ _ Hs)
    as [(Hdb & Ht & _)|[(p & src & f & ->)|[(i & src & f & ->)|
        [(n & t0 & f & Hn & ->)|(f & Hb)]]]].
  - intros t Hin. rewrite Hdb. rewrite Ht in Hin. auto.
  - now apply handleIssue_timers_stored.
  - intros t Hin. rewrite handleExpire_ids.
    destruct (handleExpire_effects i src f s) as [Ht _].
    rewrite Ht in Hin. auto.
  - intros t Hin. rewrite expire_timer_ids.
    destruct (expire_timer_effects (target t0) f
                (set_timers (remove_nth n (timers s)) s)) as [Ht _].
    rewrite Ht in Hin. cbn [set_timers timers db] in Hin |- *.
    apply in_remove_nth in Hin. auto.
  - eapply boot_timers_stored; eauto.
Qed.

(** X15.  No timer without a row.  In every state the process can be in,
    each pending timer is for an id the table holds a row of: a timer is
    armed only after its warning was stored or read back from the table,
    and rows are never deleted. *)
Theorem timers_have_rows s : reachable s -> timers_stored s.
Proof.
  intros (fault & now & tbl & history & conns & evs & s0 & Hboot & Hrun).
  apply boot_timers_stored in Hboot. revert s0 Hboot Hrun.
  induction evs as [|ev evs IH]; intros s0 H0 Hrun; cbn [run] in Hrun.
  - now injection Hrun as <-.
  - destruct (step s0 ev) as [s1|] eqn:Hs; [|discriminate Hrun].
    eapply IH; [|exact Hrun]. eapply step_timers_stored; eauto.
Qed.

Lemma in_app_one {A : Type} (x y : A) l :
  In x (l ++ [y]) -> In x l \/ x = y.
Proof.
  intros H. apply in_app_or in H as [H|[H|[]]]; auto.
Qed.

Lemma handleIssue_announced_stored payload src fault s :
  announced_stored s -> announced_stored (handleIssue payload src fault s).
Proof.
  intros H obj Hin.
  destruct (persist_issue payload fault (clock s) (db s)) as [[n tbl]|e] eqn:Hp.
  - destruct (handleIssue_ok _ src _ _ _ _ Hp) as (Hdb & _ & Hem & _).
    rewrite Hdb. rewrite Hem in Hin.
    destruct (persist_issue_steps _ _ _ _ _ _ Hp) as (Hv & _ & _ & Hi).
    apply in_app_one in Hin as [Hin|Hin].
    + eapply insert_keeps_ids; eauto.
    + injection Hin as ->.
      destruct (validateIssue_object _ Hv) as [props ->].
      unfold field at 1. cbn [get spread].
      rewrite lookup_set_prop_other by discriminate.
      change (match lookup "id" props with
              | Some v => Ok v
              | None => Ok VUndefined
              end) with (get (VObj props) "id").
      fold (field (VObj props) "id").
      rewrite <- (persist_issue_id _ _ _ _ _ _ Hp).
      eapply insert_has_id; eauto.
  - unfold handleIssue in Hin |- *. rewrite Hp in Hin |- *. apply H, Hin.
Qed.

Lemma step_announced_stored s ev s' :
  announced_stored s -> step s ev = Some s' -> announced_stored s'.
Proof.
  intros H Hs.
  destruct (step_effects _ _ _ Hs)
    as [(Hdb & _ & Hem)|[(p & src & f & ->)|[(i & src & f & ->)|
        [(n & t0 & f & Hn & ->)|(f & Hb)]]]].
  - intros obj Hin. rewrite Hdb. rewrite Hem in Hin. auto.
  - now apply handleIssue_announced_stored.
  - intros obj Hin. rewrite handleExpire_ids.
    destruct (handleExpire_effects i src f s) as [_ [Hem|Hem]];
      rewrite Hem in Hin; [auto|].
    apply in_app_one in Hin as [Hin|Hin]; [auto | discriminate Hin].
  - intros obj Hin. rewrite expire_timer_ids.
    destruct (expire_timer_effects (target t0) f
                (set_timers (remove_nth n (timers s)) s)) as [_ [Hem|Hem]];
      rewrite Hem in Hin; cbn [set_timers emitted db] in Hin |- *; [auto|].
    apply in_app_one in Hin as [Hin|Hin]; [auto | discriminate Hin].
  - destruct (boot_state _ _ _ _ _ _ Hb) as (_ & Hdb & _ & Hem & _).
    intros obj Hin. rewrite Hdb. rewrite Hem in Hin. auto.
Qed.

(** X16.  Stored before announced.  If every issue announced so far is
    about an id the table has a row of (as when nothing was announced
    yet), the same holds after any run: an issue reaches the clients only
    after its row was written, a failed issue announces nothing, and no
    expiry, re-issue or restart removes the row. *)
Theorem announced_issues_are_stored s evs s' :
  announced_stored s -> run s evs = Some s' -> announced_stored s'.
Proof.
  revert s. induction evs as [|ev evs IH]; intros s H0 Hrun; cbn [run] in Hrun.
  - now injection Hrun as <-.
  - destruct (step s ev) as [s1|] eqn:Hs; [|discriminate Hrun].
    eapply IH; [|exact Hrun]. eapply step_announced_stored; eauto.
Qed.

End Process.

(** ** Clients of the native transport *)

Section Clients.

Context {host : Host}.

Lemma has_ws_In c s :
  has_ws c s = true -> exists k, In k (wsClients s) /\ ws_conn k = c.
Proof.
  unfold has_ws. intros H. apply existsb_exists in H as (k & Hk & E).
  apply Nat.eqb_eq in E. eauto.
Qed.

Lemma ws_gone_step c s ev s' :
  ws_gone c s -> step s ev = Some s' -> ws_gone c s'.
Proof.
  intros [Hc Hno] Hs. destruct (step_registries _ _ _ Hs) as [_ [Hle Hws]].
  split; [lia|]. intros k' Hk'.
  destruct (Hws k' Hk') as [[Hnew _]|(k & _ & Hk & -> & _)]; [lia|].
  now apply Hno.
Qed.

Lemma ws_gone_run c evs : forall s s',
  ws_gone c s -> run s evs = Some s' -> ws_gone c s'.
Proof.
  induction evs as [|ev evs IH]; intros s s' H Hrun; cbn [run] in Hrun.
  - now injection Hrun as <-.
  - destruct (step s ev) as [s1|] eqn:Hs; [|discriminate Hrun].
    eapply IH; [|exact Hrun]. eapply ws_gone_step; eauto.
Qed.

(** X17.  A closed client is gone for good.  Once the close of a client of
    the native transport has been handled, no client of the registry is
    that client, whatever happens afterwards: no later broadcast is sent to
    it. *)
Theorem closed_client_is_gone s c s1 evs s2 :
  reachable s ->
  step s (WsClose c) = Some s1 ->
  run s1 evs = Some s2 ->
  has_ws c s2 = false
  /\ forall k, In k (wsClients s2) -> ws_conn k <> c.
Proof.
  intros Hreach Hs Hrun.
  assert (Hgone : ws_gone c s1).
  { cbn [step] in Hs. destruct (has_ws c s) eqn:Hhas; [|discriminate Hs].
    injection Hs as <-. split.
    - destruct (has_ws_In _ _ Hhas) as (k & Hk & <-).
      destruct (reachable_fresh _ Hreach) as [_ Hws].
      rewrite Forall_forall in Hws. exact (Hws k Hk).
    - cbn [set_ws wsClients]. intros k Hk. apply filter_In in Hk as [_ Hk].
      destruct (Nat.eqb_spec (ws_conn k) c); [discriminate Hk | assumption]. }
  destruct (ws_gone_run _ _ _ _ Hgone Hrun) as [_ Hno].
  split; [|exact Hno].
  destruct (has_ws c s2) eqn:Hhas; [|reflexivity].
  destruct (has_ws_In _ _ Hhas) as (k & Hk & Hc). now destruct (Hno k Hk).
Qed.

Lemma broadcast_keeps_closing kind obj s c :
  In c (wsClients s) -> readyState c = 2 ->
  In c (wsClients (broadcast kind obj s)).
Proof.
  intros Hin Hr. cbn [broadcast wsClients]. apply in_map_iff.
  exists c. rewrite Hr. auto.
Qed.

Lemma handleIssue_keeps_closing payload src fault s c :
  In c (wsClients s) -> readyState c = 2 ->
  In c (wsClients (handleIssue payload src fault s)).
Proof.
  intros Hin Hr. unfold handleIssue.
  destruct (persist_issue payload fault (clock s) (db s)) as [[n tbl]|e];
    [|exact Hin].
  cbn [log wsClients]. apply broadcast_keeps_closing; [|exact Hr].
  now destruct (scheduleExpiry_frame (n_id n) (n_expiresISO n) (set_db tbl s))
    as (_ & _ & _ & -> & _).
Qed.

Lemma handleExpire_keeps_closing v src fault s c :
  In c (wsClients s) -> readyState c = 2 ->
  In c (wsClients (handleExpire v src fault s)).
Proof.
  intros Hin Hr. unfold handleExpire.
  destruct (expireById_run fault v (db s)); [|exact Hin].
  cbn [log wsClients]. now apply broadcast_keeps_closing.
Qed.

Lemma expire_timer_keeps_closing v fault s c :
  In c (wsClients s) -> readyState c = 2 ->
  In c (wsClients (expire_timer v fault s)).
Proof.
  intros Hin Hr. unfold expire_timer.
  destruct (expireById_run fault v (db s)); [|exact Hin].
  now apply broadcast_keeps_closing.
Qed.

Lemma step_keeps_closing s ev s' c :
  In c (wsClients s) -> readyState c = 2 ->
  ev <> WsClose (ws_conn c) -> is_restart ev = false ->
  step s ev = Some s' -> In c (wsClients s').
Proof.
  intros Hin Hr Hne Hnr Hs. destruct ev; cbn [step] in Hs.
  - unfold io_connection in Hs. destruct (actives fault s); [|discriminate Hs].
    injection Hs as <-. exact Hin.
  - destruct (has_io conn s); [|discriminate Hs]. injection Hs as <-.
    now apply handleIssue_keeps_closing.
  - destruct (has_io conn s); [|discriminate Hs].
    apply io_expire_some in Hs. subst s'. now apply handleExpire_keeps_closing.
  - destruct (has_io conn s); [|discriminate Hs]. injection Hs as <-.
    exact Hin.
  - injection Hs as <-. cbn [ws_connection add_ws wsClients].
    apply in_or_app. left. exact Hin.
  - destruct (has_ws conn s); [|discriminate Hs]. injection Hs as <-.
    destruct (ws_message_cases conn data fault s)
      as [[-> _]|[(p & -> & _)|(i & -> & _)]];
      [exact Hin | now apply handleIssue_keeps_closing
      | now apply handleExpire_keeps_closing].
  - destruct (has_ws conn s); [|discriminate Hs]. injection Hs as <-.
    cbn [set_ws wsClients]. apply in_map_iff. exists c. split; [|exact Hin].
    destruct (Nat.eqb (ws_conn c) conn); [|reflexivity].
    destruct c as [n r i]. cbn in Hr |- *. now rewrite Hr.
  - destruct (has_ws conn s); [|discriminate Hs]. injection Hs as <-.
    cbn [set_ws wsClients]. apply filter_In. split; [exact Hin|].
    destruct (Nat.eqb_spec (ws_conn c) conn) as [E|]; [|reflexivity].
    exfalso. apply Hne. now rewrite E.
  - destruct (0 <=? d); [|discriminate Hs]. injection Hs as <-. exact Hin.
  - apply step_fire in Hs as (t & _ & _ & ->).
    now apply expire_timer_keeps_closing.
  - discriminate Hnr.
Qed.

(** X18.  A closing client is sent nothing.  A client of the registry whose
    [readyState] is 2 stays there exactly as it is, its inbox included,
    through every run that neither handles its close nor restarts the
    process: issues and expiries, by command or by timer, skip it. *)
Theorem closing_client_receives_nothing s evs s' c :
  In c (wsClients s) -> readyState c = 2 ->
  (forall ev, In ev evs -> ev <> WsClose (ws_conn c) /\ is_restart ev = false) ->
  run s evs = Some s' ->
  In c (wsClients s').
Proof.
  intros Hin Hr. revert s Hin.
  induction evs as [|ev evs IH]; intros s Hin Hall Hrun; cbn [run] in Hrun.
  - now injection Hrun as <-.
  - destruct (step s ev) as [s1|] eqn:Hs; [|discriminate Hrun].
    destruct (Hall ev (or_introl eq_refl)) as [Hne Hnr].
    apply (IH s1); [|intros e He; apply Hall; right; exact He | exact Hrun].
    eapply step_keeps_closing; eauto.
Qed.

Lemma ws_events_only_step c s ev s' :
  ws_events_only c s -> step s ev = Some s' -> ws_events_only c s'.
Proof.
  intros [Hc Hin] Hs. destruct (step_registries _ _ _ Hs) as [_ [Hle Hws]].
  split; [lia|]. intros k' Hk' Hconn.
  destruct (Hws k' Hk') as [[Hnew _]|(k & later & Hk & Hsame & -> & Hev)];
    [lia|].
  apply Forall_app. split; [|exact Hev]. apply Hin; [exact Hk | congruence].
Qed.

Lemma ws_events_only_run c evs : forall s s',
  ws_events_only c s -> run s evs = Some s' -> ws_events_only c s'.
Proof.
  induction evs as [|ev evs IH]; intros s s' H Hrun; cbn [run] in Hrun.
  - now injection Hrun as <-.
  - destruct (step s ev) as [s1|] eqn:Hs; [|discriminate Hrun].
    eapply IH; [|exact Hrun]. eapply ws_events_only_step; eauto.
Qed.

(** X19.  A failed bootstrap is silent.  When the query of the active rows
    fails as a client of the native transport connects, the client is
    registered all the same, open and with an empty inbox; nothing is
    logged; and whatever the run does next, the client receives issue and
    expire frames only, never a bootstrap. *)
Theorem failed_bootstrap_is_silent s :
  reachable s ->
  exists s1 c,
    step s (WsConnect true) = Some s1
    /\ wsClients s1 = (wsClients s ++ [c])%list
    /\ ws_conn c = connections s /\ readyState c = 1 /\ ws_inbox c = []
    /\ console s1 = console s
    /\ forall evs s2 c2,
         run s1 evs = Some s2 -> In c2 (wsClients s2) ->
         ws_conn c2 = connections s ->
         Forall (fun f => ws_event f = true) (ws_inbox c2).
Proof.
  intros Hreach.
  destruct (reachable_fresh _ Hreach) as [_ Hws].
  rewrite Forall_forall in Hws.
  eexists. eexists. split; [reflexivity|].
  cbn [ws_connection add_ws wsClients ws_conn ws_inbox readyState console
       actives getActive_all storage bind].
  split; [reflexivity|]. do 4 (split; [reflexivity|]).
  intros evs s2 c2 Hrun Hc2 Hconn.
  assert (H1 : ws_events_only (connections s) (ws_connection true s)).
  { split; [cbn; lia|]. cbn [ws_connection add_ws wsClients].
    intros k Hk Hc. apply in_app_or in Hk as [Hk|[<-|[]]].
    - specialize (Hws k Hk). lia.
    - constructor. }
  destruct (ws_events_only_run _ _ _ _ H1 Hrun) as [_ H2]. auto.
Qed.

End Clients.

(** ** The history of a date *)

Section Archive.

Context {host : Host}.

Lemma first_drop_digit c l :
  is_digit c = true ->
  first_drop white_space (c :: l) = None
  /\ first_drop (map (@rev ascii) white_space) (c :: l) = None.
Proof.
  destruct c as [[] [] [] [] [] [] [] []]; intros H; try discriminate H;
    split; reflexivity.
Qed.

Lemma trim_between_digits s c l c' l' :
  list_ascii_of_string s = c :: l -> rev (c :: l) = c' :: l' ->
  is_digit c = true -> is_digit c' = true -> trim s = s.
Proof.
  intros Hs Hrev Hc Hc'. unfold trim. rewrite Hs. cbn [List.length strip].
  rewrite (proj1 (first_drop_digit c l Hc)). rewrite Hrev. cbn [strip].
  rewrite (proj2 (first_drop_digit c' l' Hc')). rewrite <- Hrev.
  rewrite rev_involutive, <- Hs. apply string_of_list_ascii_of_string.
Qed.

(** A text that passes the test of [issuedISO] begins with a date that
    passes the test of the endpoint and that trimming leaves alone. *)
Lemma issued_date iss :
  issuedISO_re_test iss = true ->
  date_re_test (substr_1_10 iss) = true
  /\ trim (substr_1_10 iss) = substr_1_10 iss.
Proof.
  unfold issuedISO_re_test, date_re_test, substr_1_10, date_atoms.
  cbn [app match_prefix]. intros H.
  repeat match type of H with
         | match match ?s with EmptyString => _ | String _ _ => _ end
           with _ => _ end = true =>
             destruct s as [|? ?]; [discriminate H|]
         | match (if ?b then _ else _) with _ => _ end = true =>
             let E := fresh "E" in destruct b eqn:E; [|discriminate H]
         end.
  cbn [substring match_prefix].
  repeat match goal with E : atom_matches _ _ = true |- _ =>
           rewrite E; revert E end.
  intros. split; [reflexivity|].
  eapply trim_between_digits;
    [cbn [list_ascii_of_string]; reflexivity
    | cbn [rev app]; reflexivity
    | assumption | assumption].
Qed.

Lemma validateIssue_issued p iss :
  validateIssue p = Ok tt -> field p "issuedISO" = VStr iss ->
  issuedISO_re_test iss = true.
Proof.
  intros Hv Hf. pose proof (validateIssue_ok_object _ Hv) as Hp.
  unfold validateIssue in Hv.
  destruct (check_required required p) as [[]|]; [|discriminate Hv].
  rewrite !(get_field _ _ Hp), Hf in Hv. cbn [bind ToString] in Hv.
  destruct (negb (Array_isArray (field p "polygon"))); [discriminate Hv|].
  destruct (issuedISO_re_test iss); [reflexivity | discriminate Hv].
Qed.

(** X20.  An issued warning is in the history of its day.  After a command
    whose [issuedISO] is a string was persisted, the history endpoint,
    asked for the first ten characters of that string, answers with a
    result (that date is well formed and needs no trimming) which lists a
    row of the command's id with that [issuedISO]. *)
Theorem issued_warning_in_history payload fault now tbl n tbl' iss :
  persist_issue payload fault now tbl = Ok (n, tbl') ->
  field payload "issuedISO" = VStr iss ->
  exists rows r,
    get_warnings (QString (substr_1_10 iss)) false tbl'
    = Json (substr_1_10 iss) (List.length rows) (map row_object rows)
    /\ In r rows
    /\ id r = id_key (field payload "id")
    /\ issuedISO r = iss.
Proof.
  intros Hp Hf.
  destruct (persist_issue_steps _ _ _ _ _ _ Hp) as (Hv & _ & Hm & Hi).
  destruct (issued_date _ (validateIssue_issued _ _ Hv Hf)) as [Hre Htrim].
  pose proof (validateIssue_ok_object _ Hv) as Hobj.
  unfold make_row, optional in Hm. rewrite !(get_field _ _ Hobj) in Hm.
  cbn [bind] in Hm. injection Hm as Hn.
  destruct (insertWarning_run_texts _ _ _ _ _ Hi)
    as (r & Hr & Hid & _ & Hiss & _).
  rewrite <- Hn in Hid, Hiss. cbn [n_id n_issuedISO] in Hid, Hiss.
  rewrite Hf in Hiss. injection Hiss as Hiss.
  unfold get_warnings, getByDate_all. rewrite Htrim, Hre.
  cbn [negb storage bind].
  destruct (order_by_issuedISO_spec
              (filter (fun r => String.eqb (substr_1_10 (issuedISO r))
                                  (substr_1_10 iss)) tbl')) as [Hperm _].
  eexists. exists r. split; [reflexivity|]. split; [|split; assumption].
  eapply Permutation_in; [apply Permutation_sym, Hperm|].
  apply filter_In. split; [exact Hr|]. rewrite Hiss. apply String.eqb_refl.
Qed.

Lemma insert_by_issued_map (f : row -> row) r l :
  (forall x, issuedISO (f x) = issuedISO x) ->
  insert_by_issued (f r) (map f l) = map f (insert_by_issued r l).
Proof.
  intros Hf. induction l as [|x l IH]; cbn [map insert_by_issued];
    [reflexivity|].
  rewrite !Hf.
  destruct (String.leb (issuedISO r) (issuedISO x)
            && negb (String.eqb (issuedISO r) (issuedISO x)));
    cbn [map]; [reflexivity|]. now rewrite IH.
Qed.

Lemma order_by_issuedISO_map (f : row -> row) l :
  (forall x, issuedISO (f x) = issuedISO x) ->
  order_by_issuedISO (map f l) = map f (order_by_issuedISO l).
Proof.
  intros Hf. unfold order_by_issuedISO.
  change (@nil row) with (map f []) at 1. generalize (@nil row).
  induction l as [|x l IH]; intros acc; cbn [map fold_left]; [reflexivity|].
  now rewrite insert_by_issued_map, IH.
Qed.

Lemma filter_map_same {A : Type} (p : A -> bool) (f : A -> A) l :
  (forall x, p (f x) = p x) -> filter p (map f l) = map f (filter p l).
Proof.
  intros Hp. induction l as [|x l IH]; cbn [map filter]; [reflexivity|].
  rewrite Hp. destruct (p x); cbn [map]; now rewrite IH.
Qed.

(** X21.  The history keeps expired warnings.  An expire that succeeds
    changes the answer of the history query for no date but in the
    [active] flag of the rows it deactivates: the same rows, in the same
    order, every other column as it was. *)
Theorem history_keeps_expired fault v tbl tbl' :
  expireById_run fault v tbl = Ok tbl' ->
  exists k,
    expire_param v = Ok k
    /\ forall date rows,
         getByDate_all false date tbl = Ok rows ->
         exists rows',
           getByDate_all false date tbl' = Ok rows'
           /\ Forall2 (fun r r' =>
                         same_but_active r r'
                         /\ active r' = if id_is (text_affinity k) r then 0
                                        else active r) rows rows'.
Proof.
  intros He. destruct (expireById_run_ok _ _ _ _ He) as (k & Hk & _ & ->).
  exists k. split; [exact Hk|]. intros date rows Hq.
  set (f := fun r => if id_is (text_affinity k) r then deactivate r else r).
  assert (Hf : forall x, issuedISO (f x) = issuedISO x).
  { intros x. unfold f. destruct (id_is (text_affinity k) x); reflexivity. }
  unfold getByDate_all in Hq |- *. cbn [storage bind] in Hq |- *.
  injection Hq as <-. exists (map f (order_by_issuedISO
    (filter (fun r => String.eqb (substr_1_10 (issuedISO r)) date) tbl))).
  split.
  - rewrite filter_map_same by (intros x; now rewrite Hf).
    now rewrite order_by_issuedISO_map.
  - apply Forall2_map_self. intros r. apply deactivated_row.
Qed.

End Archive.

(** * The properties on the reference host *)

Lemma noon_is_noon : parse_iso_utc "2024-05-01T12:00:00.000Z" = Some noon.
Proof. vm_compute. reflexivity. Qed.

(** The example of the specification: issued at noon for thirty minutes,
    [W1] expires at half past, is active at a quarter past and no longer
    at 12:31. *)
Lemma W1_example :
  db (after (issue_run W1)) = [W1_stored]
  /\ is_active_at (noon + 900000) W1_stored = true
  /\ is_active_at (noon + 1860000) W1_stored = false.
Proof. vm_compute. repeat split. Qed.

(** C1 as stated does not hold: one issue of [W1], an explicit expire and
    then the firing of the timer the issue armed give two expire broadcasts
    for [W1] after a single issue broadcast. *)
Lemma expire_twice_in_one_episode :
  boot (host := reference_host) false noon [] [] 0 = Some (started noon)
  /\ run (host := reference_host) (started noon) episode
     = Some (after episode)
  /\ commands (host := reference_host) "issue" "W1" episode = 1%nat
  /\ expire_count (host := reference_host) "W1" (emitted (after episode))
     = 2%nat
  /\ episodes_ok (host := reference_host) "W1" false (emitted (after episode))
     = false.
Proof. vm_compute. repeat split. Qed.

Lemma expire_broadcasts_bounded_witness :
  run (host := reference_host) (started noon) episode = Some (after episode)
  /\ forallb (fun ev => negb (is_restart ev)) episode = true
  /\ (expire_count (host := reference_host) "W1" (emitted (after episode))
      + pending (host := reference_host) "W1" (timers (after episode))
      <= expire_count (host := reference_host) "W1" (emitted (started noon))
         + pending (host := reference_host) "W1" (timers (started noon))
         + commands (host := reference_host) "issue" "W1" episode
         + commands (host := reference_host) "expire" "W1" episode)%nat.
Proof.
  split; [vm_compute; reflexivity|]. split; [vm_compute; reflexivity|].
  apply (expire_broadcasts_bounded (host := reference_host) "W1"
           (started noon) episode (after episode));
    vm_compute; reflexivity.
Defined.

(** C2 as stated does not hold: after [W1] is issued twice, two timers are
    pending for it. *)
Lemma two_timers_after_reissue :
  run (host := reference_host) (started noon)
    (issue_run W1 ++ [WsMessage 0 (ws_issue W1) false])
  = Some (after (issue_run W1 ++ [WsMessage 0 (ws_issue W1) false]))
  /\ pending (host := reference_host) "W1"
       (timers (after (issue_run W1 ++ [WsMessage 0 (ws_issue W1) false])))
     = 2%nat.
Proof. vm_compute. split; reflexivity. Qed.

(** C3 as stated does not hold: issued at 12:00:00.500 for thirty minutes,
    the warning expires at 12:30:00.500, yet the active query at
    12:30:00.100, an instant before that expiry, does not return it. *)
Lemma active_query_misses_last_second :
  validateIssue (host := reference_host) W1_half = Ok tt
  /\ run (host := reference_host) (started noon) (issue_run W1_half)
     = Some (after (issue_run W1_half))
  /\ map expiresISO (db (after (issue_run W1_half)))
     = ["2024-05-01T12:30:00.500Z"]
  /\ Date_parse (host := reference_host) "2024-05-01T12:30:00.500Z"
     = Some (noon + 1800500)
  /\ noon + 1800100 < noon + 1800500
  /\ getActive_all false (noon + 1800100) (db (after (issue_run W1_half)))
     = Ok [].
Proof. vm_compute. repeat split. Qed.

Lemma issued_expiry_and_active_witness :
  persist_issue (host := reference_host) W1 false noon []
  = Ok (W1_row, [W1_stored])
  /\ new_Date (host := reference_host) (field W1 "issuedISO") = Ok (Some noon)
  /\ ToNumber (host := reference_host) (field W1 "minutes")
     = Ok (Fin (inject_Z 30))
  /\ four_digit_year (noon + 30 * 60000)
  /\ stored_active_until [W1_stored]
       (id_key (host := reference_host) (field W1 "id"))
       (noon + 30 * 60000).
Proof.
  assert (H : persist_issue (host := reference_host) W1 false noon []
              = Ok (W1_row, [W1_stored])) by (vm_compute; reflexivity).
  assert (Hy : four_digit_year (noon + 30 * 60000))
    by (unfold four_digit_year, noon; lia).
  assert (Hp : new_Date (host := reference_host) (field W1 "issuedISO")
               = Ok (Some noon)) by (vm_compute; reflexivity).
  split; [exact H|]. split; [exact Hp|]. split; [reflexivity|].
  split; [exact Hy|].
  exact (issued_expiry_and_active (host := reference_host) W1 false noon []
           W1_row [W1_stored] noon 30 H Hp eq_refl Hy).
Defined.

(** C4 as stated does not hold: a command whose polygon is the empty
    sequence passes validation and is stored, armed and broadcast. *)
Lemma empty_polygon_accepted :
  validateIssue (host := reference_host)
    (warning (VArr []) "2024-05-01T12:00:00.000Z") = Ok tt
  /\ run (host := reference_host) (started noon)
       (issue_run (warning (VArr []) "2024-05-01T12:00:00.000Z"))
     = Some (after (issue_run (warning (VArr []) "2024-05-01T12:00:00.000Z")))
  /\ map id (db (after (issue_run (warning (VArr [])
                                     "2024-05-01T12:00:00.000Z"))))
     = [Some "W1"]
  /\ map target (timers (after (issue_run (warning (VArr [])
                                             "2024-05-01T12:00:00.000Z"))))
     = [VStr "W1"]
  /\ map fst (emitted (after (issue_run (warning (VArr [])
                                           "2024-05-01T12:00:00.000Z"))))
     = ["issue"].
Proof. vm_compute. repeat split. Qed.

Lemma failed_issue_aborts_witness :
  (validateIssue (host := reference_host) W2 = Throw (Error "Missing type")
   \/ (validateIssue (host := reference_host) W2 = Ok tt
       /\ expiry_of (host := reference_host) W2 = Throw (Error "Missing type"))
   \/ (exists x n,
         validateIssue (host := reference_host) W2 = Ok tt
         /\ expiry_of (host := reference_host) W2 = Ok x
         /\ make_row W2 x = Ok n
         /\ insertWarning_run (host := reference_host) false
              (clock (after (issue_run W1))) n (db (after (issue_run W1)))
            = Throw (Error "Missing type")))
  /\ issue_aborted (Error "Missing type") (after (issue_run W1))
       (handleIssue (host := reference_host) W2 "ws" false
          (after (issue_run W1))).
Proof.
  split; [left; reflexivity|].
  apply (failed_issue_aborts (host := reference_host) W2 "ws" false
           (after (issue_run W1)) (Error "Missing type")).
  left. reflexivity.
Defined.

(** C6 as stated does not hold: the row of the warning that expires at
    12:30:00.500 is active and not yet expired when the process starts at
    12:30:00.100, and the start arms no timer. *)
Lemma restart_in_last_second_arms_nothing :
  map (fun r => (id r, active r, expiresISO r))
    (db (after (issue_run W1_half)))
  = [(Some "W1", 1, "2024-05-01T12:30:00.500Z")]
  /\ Date_parse (host := reference_host) "2024-05-01T12:30:00.500Z"
     = Some (noon + 1800500)
  /\ noon + 1800100 < noon + 1800500
  /\ option_map timers
       (boot (host := reference_host) false (noon + 1800100)
          (db (after (issue_run W1_half))) [] 0)
     = Some [].
Proof. vm_compute. repeat split. Qed.

Lemma restart_rearms_witness :
  In W1_stored [W1_stored]
  /\ active W1_stored = 1 /\ id W1_stored = Some "W1"
  /\ expiresISO W1_stored = ISO_string (noon + 1800000)
  /\ four_digit_year (noon + 1800000)
  /\ (noon + 60000) / 1000 < (noon + 1800000) / 1000
  /\ noon + 1800000 - (noon + 60000) <= TIMEOUT_MAX
  /\ exists s,
       boot (host := reference_host) false (noon + 60000) [W1_stored] [] 0
       = Some s
       /\ rearmed_at (host := reference_host) (noon + 1800000) "W1"
            (noon + 60000) [W1_stored] s.
Proof.
  assert (Hin : In W1_stored [W1_stored]) by (left; reflexivity).
  assert (He : expiresISO W1_stored = ISO_string (noon + 1800000))
    by (vm_compute; reflexivity).
  assert (Hy : four_digit_year (noon + 1800000))
    by (unfold four_digit_year, noon; lia).
  assert (Hs : (noon + 60000) / 1000 < (noon + 1800000) / 1000)
    by (vm_compute; reflexivity).
  assert (Hm : noon + 1800000 - (noon + 60000) <= TIMEOUT_MAX)
    by (vm_compute; discriminate).
  split; [exact Hin|]. split; [reflexivity|]. split; [reflexivity|].
  split; [exact He|]. split; [exact Hy|]. split; [exact Hs|].
  split; [exact Hm|].
  exact (restart_rearms (host := reference_host) [W1_stored] (noon + 60000)
           [] 0%nat W1_stored "W1" (noon + 1800000)
           Hin eq_refl eq_refl He Hy Hs Hm).
Defined.

Lemma bootstrap_precedes_events_witness :
  reachable (host := reference_host) (after (issue_run W1))
  /\ io_bootstrap_first (host := reference_host) (after (issue_run W1))
  /\ ws_bootstrap_first (host := reference_host) (after (issue_run W1)).
Proof.
  assert (H : reachable (host := reference_host) (after (issue_run W1))).
  { exists false, noon, [], [], 0%nat, (issue_run W1), (started noon).
    split; vm_compute; reflexivity. }
  split; [exact H|].
  exact (bootstrap_precedes_events (host := reference_host) _ H).
Defined.

(** C7 as stated does not hold: a socket that connects at 12:30:00.100
    gets an empty bootstrap although the row of the warning is active and
    expires at 12:30:00.500, in the future. *)
Lemma bootstrap_misses_last_second :
  run (host := reference_host) (started noon)
    (issue_run W1_half ++ [Tick 1800100; IoConnect false])
  = Some (after (issue_run W1_half ++ [Tick 1800100; IoConnect false]))
  /\ map (fun r => (id r, active r, expiresISO r))
       (db (after (issue_run W1_half ++ [Tick 1800100])))
     = [(Some "W1", 1, "2024-05-01T12:30:00.500Z")]
  /\ Date_parse (host := reference_host) "2024-05-01T12:30:00.500Z"
     = Some (noon + 1800500)
  /\ clock (after (issue_run W1_half ++ [Tick 1800100])) = noon + 1800100
  /\ noon + 1800100 < noon + 1800500
  /\ map io_inbox
       (ioSockets (after (issue_run W1_half ++ [Tick 1800100; IoConnect false])))
     = [[("bootstrap", VArr [])]].
Proof. vm_compute. repeat split. Qed.

(** C8 as stated does not hold: the row of [W1] is created at 12:00:00, and
    a re-issue of [W1] a minute later leaves a row created at 12:01:00. *)
Lemma reissue_resets_created_at :
  map (fun r => (id r, created_at r)) (db (after (issue_run W1)))
  = [(Some "W1", "2024-05-01 12:00:00")]
  /\ run (host := reference_host) (after (issue_run W1))
       [Tick 60000; WsMessage 0 (ws_issue W1) false]
     = Some (after (issue_run W1
                    ++ [Tick 60000; WsMessage 0 (ws_issue W1) false]))
  /\ map (fun r => (id r, created_at r))
       (db (after (issue_run W1
                   ++ [Tick 60000; WsMessage 0 (ws_issue W1) false])))
     = [(Some "W1", "2024-05-01 12:01:00")].
Proof. vm_compute. repeat split. Qed.

Lemma created_at_set_by_every_upsert_witness :
  insertWarning_run (host := reference_host) false noon W1_row []
  = Ok [W1_stored]
  /\ upsert_stamps (host := reference_host) noon W1_row [] [W1_stored]
  /\ expire_keeps_stamps (host := reference_host).
Proof.
  assert (H : insertWarning_run (host := reference_host) false noon W1_row []
              = Ok [W1_stored]) by (vm_compute; reflexivity).
  split; [exact H|].
  exact (created_at_set_by_every_upsert (host := reference_host) false noon
           W1_row [] [W1_stored] H).
Defined.

(** C9 as stated does not hold: the thirteenth month has no forty-fifth
    day, and the endpoint answers the query for it with a result, not with
    an error. *)
Lemma malformed_date_accepted :
  well_formed_calendar_date "2024-13-45" = false
  /\ get_warnings (QString "2024-13-45") false (db (after (issue_run W1)))
     = Json "2024-13-45" 0 [].
Proof. vm_compute. split; reflexivity. Qed.

Lemma expire_of_unknown_id_still_broadcast_witness :
  (forall k r,
     expire_param (VStr "W9") = Ok k -> In r (db (after (issue_run W1))) ->
     id_is (text_affinity (host := reference_host) k) r = false)
  /\ ((exists k, expire_param (VStr "W9") = Ok k) <->
      is_scalar (VStr "W9") = true
      \/ exists x, VStr "W9" = VArr [x] /\ is_scalar x = true)
  /\ ((exists k, expire_param (VStr "W9") = Ok k) ->
      expire_delivered (VStr "W9") "ws" (after (issue_run W1))
        (handleExpire (host := reference_host) (VStr "W9") "ws" false
           (after (issue_run W1))))
  /\ (forall fault e,
        expireById_run (host := reference_host) fault (VStr "W9")
          (db (after (issue_run W1))) = Throw e ->
        expire_refused e (after (issue_run W1))
          (handleExpire (host := reference_host) (VStr "W9") "ws" fault
             (after (issue_run W1)))).
Proof.
  assert (H : forall k r,
              expire_param (VStr "W9") = Ok k ->
              In r (db (after (issue_run W1))) ->
              id_is (text_affinity (host := reference_host) k) r = false).
  { assert (Hdb : db (after (issue_run W1)) = [W1_stored])
      by (vm_compute; reflexivity).
    rewrite Hdb. intros k r Hk [<-|[]]. injection Hk as <-. reflexivity. }
  split; [exact H|].
  exact (expire_of_unknown_id_still_broadcast (host := reference_host)
           (VStr "W9") "ws" (after (issue_run W1)) H).
Defined.

(** C10 as stated does not hold: no row has the id [true], and the expire
    command that carries it is refused by the binding of the UPDATE; the
    handler logs the error, and no expire event reaches the connected
    client. *)
Lemma expire_of_boolean_id_not_broadcast :
  run (host := reference_host) (after (issue_run W1))
    [WsMessage 0 (ws_expire (VBool true)) false]
  = Some (after (issue_run W1 ++ [WsMessage 0 (ws_expire (VBool true)) false]))
  /\ map id (db (after (issue_run W1))) = [Some "W1"]
  /\ emitted (after (issue_run W1
                     ++ [WsMessage 0 (ws_expire (VBool true)) false]))
     = emitted (after (issue_run W1))
  /\ wsClients (after (issue_run W1
                       ++ [WsMessage 0 (ws_expire (VBool true)) false]))
     = wsClients (after (issue_run W1))
  /\ console (after (issue_run W1
                     ++ [WsMessage 0 (ws_expire (VBool true)) false]))
     = (console (after (issue_run W1)) ++ [ExpireError TypeError])%list.
Proof. vm_compute. repeat split. Qed.

(** A number as an id is bound as a double: the row of the id 7 is keyed
    by the text SQLite makes of the double, and it is that row an expire of
    7 deactivates. *)
Lemma numeric_id_is_stored_as_real :
  map id (db (after (issue_run W7))) = [Some "7.0"]
  /\ map (fun r => (id r, active r))
       (db (handleExpire (host := reference_host) (VNum (Fin 7)) "ws" false
              (after (issue_run W7))))
     = [(Some "7.0", 0)]
  /\ map (fun r => (id r, active r))
       (db (handleExpire (host := reference_host) (VStr "7") "ws" false
              (after (issue_run W7))))
     = [(Some "7.0", 1)].
Proof. vm_compute. repeat split. Qed.

(** * The further properties on the reference host *)

Lemma reachable_after_issue :
  reachable (host := reference_host) (after (issue_run W1)).
Proof.
  exists false, noon, [], [], 0%nat, (issue_run W1), (started noon).
  split; vm_compute; reflexivity.
Qed.

Lemma persist_W1 :
  persist_issue (host := reference_host) W1 false (clock (started noon))
    (db (started noon))
  = Ok (W1_row, [W1_stored]).
Proof. vm_compute. reflexivity. Qed.

Lemma upsert_replaces_row_witness :
  insertWarning_run (host := reference_host) false noon W1_row [W1_stored]
  = Ok [W1_stored]
  /\ id_key (host := reference_host) (n_id W1_row) = Some "W1"
  /\ exists r,
       filter (id_is (Some "W1")) [W1_stored] = [r]
       /\ active r = 1
       /\ expiresISO r = n_expiresISO W1_row
       /\ polygon r = n_polygon W1_row
       /\ filter (fun r' => negb (id_is (Some "W1") r')) [W1_stored]
          = filter (fun r' => negb (id_is (Some "W1") r')) [W1_stored].
Proof.
  assert (H : insertWarning_run (host := reference_host) false noon W1_row
                [W1_stored] = Ok [W1_stored]) by (vm_compute; reflexivity).
  assert (Hid : id_key (host := reference_host) (n_id W1_row) = Some "W1")
    by (vm_compute; reflexivity).
  split; [exact H|]. split; [exact Hid|].
  exact (upsert_replaces_row (host := reference_host) false noon W1_row
           [W1_stored] [W1_stored] "W1" H Hid).
Defined.

Lemma ids_stay_unique_witness :
  unique_ids (db (started noon))
  /\ run (host := reference_host) (started noon) episode = Some (after episode)
  /\ unique_ids (db (after episode)).
Proof.
  assert (H0 : unique_ids (db (started noon))) by (intros w; cbn; lia).
  assert (H : run (host := reference_host) (started noon) episode
              = Some (after episode)) by (vm_compute; reflexivity).
  split; [exact H0|]. split; [exact H|].
  exact (ids_stay_unique (host := reference_host) (started noon) episode
           (after episode) H0 H).
Defined.

Lemma rows_never_deleted_witness :
  run (host := reference_host) (after (issue_run W1))
    [WsMessage 0 (ws_expire (VStr "W1")) false; Tick 1800000; Fire 0 false]
  = Some (after episode)
  /\ incl (map id (db (after (issue_run W1)))) (map id (db (after episode))).
Proof.
  assert (H : run (host := reference_host) (after (issue_run W1))
                [WsMessage 0 (ws_expire (VStr "W1")) false; Tick 1800000;
                 Fire 0 false]
              = Some (after episode)) by (vm_compute; reflexivity).
  split; [exact H|].
  exact (rows_never_deleted (host := reference_host) (after (issue_run W1))
           [WsMessage 0 (ws_expire (VStr "W1")) false; Tick 1800000;
            Fire 0 false]
           (after episode) H).
Defined.

Lemma expired_leaves_active_set_witness :
  expire_param (VStr "W1") = Ok (SText "W1")
  /\ text_affinity (host := reference_host) (SText "W1") = Some "W1"
  /\ inactive "W1"
       (db (handleExpire (host := reference_host) (VStr "W1") "ws" false
              (after (issue_run W1))))
  /\ forall now rows r,
       getActive_all false now
         (db (handleExpire (host := reference_host) (VStr "W1") "ws" false
                (after (issue_run W1)))) = Ok rows ->
       In r rows -> id r <> Some "W1".
Proof.
  assert (Hk : expire_param (VStr "W1") = Ok (SText "W1"))
    by (vm_compute; reflexivity).
  assert (Hw : text_affinity (host := reference_host) (SText "W1")
               = Some "W1") by (vm_compute; reflexivity).
  split; [exact Hk|]. split; [exact Hw|].
  exact (expired_leaves_active_set (host := reference_host) (VStr "W1") "ws"
           (after (issue_run W1)) (SText "W1") "W1" Hk Hw).
Defined.

Lemma inactive_until_reissued_witness :
  inactive "W1"
    (db (after (issue_run W1 ++ [WsMessage 0 (ws_expire (VStr "W1")) false])))
  /\ run (host := reference_host)
       (after (issue_run W1 ++ [WsMessage 0 (ws_expire (VStr "W1")) false]))
       [Tick 1800000; Fire 0 false]
     = Some (after episode)
  /\ commands (host := reference_host) "issue" "W1"
       [Tick 1800000; Fire 0 false] = 0%nat
  /\ inactive "W1" (db (after episode)).
Proof.
  assert (H0 : inactive "W1"
                 (db (after (issue_run W1
                             ++ [WsMessage 0 (ws_expire (VStr "W1")) false])))).
  { assert (Hdb : db (after (issue_run W1
                             ++ [WsMessage 0 (ws_expire (VStr "W1")) false]))
                  = [W1_expired]) by (vm_compute; reflexivity).
    rewrite Hdb. intros r [<-|[]] _. reflexivity. }
  assert (H : run (host := reference_host)
                (after (issue_run W1
                        ++ [WsMessage 0 (ws_expire (VStr "W1")) false]))
                [Tick 1800000; Fire 0 false]
              = Some (after episode)) by (vm_compute; reflexivity).
  assert (Hc : commands (host := reference_host) "issue" "W1"
                 [Tick 1800000; Fire 0 false] = 0%nat)
    by (vm_compute; reflexivity).
  split; [exact H0|]. split; [exact H|]. split; [exact Hc|].
  exact (inactive_until_reissued (host := reference_host) "W1"
           (after (issue_run W1
                   ++ [WsMessage 0 (ws_expire (VStr "W1")) false]))
           [Tick 1800000; Fire 0 false] (after episode) H0 H Hc).
Defined.

Lemma expire_idempotent_witness :
  expireById_run (host := reference_host) false (VStr "W1") [W1_stored]
  = Ok [W1_expired]
  /\ expireById_run (host := reference_host) false (VStr "W1") [W1_expired]
     = Ok [W1_expired]
  /\ exists k,
       expire_param (VStr "W1") = Ok k
       /\ Forall2 (fun r r' =>
                     same_but_active r r'
                     /\ active r'
                        = if id_is (text_affinity (host := reference_host) k) r
                          then 0 else active r)
            [W1_stored] [W1_expired].
Proof.
  assert (H : expireById_run (host := reference_host) false (VStr "W1")
                [W1_stored] = Ok [W1_expired]) by (vm_compute; reflexivity).
  split; [exact H|].
  exact (expire_idempotent (host := reference_host) false (VStr "W1")
           [W1_stored] [W1_expired] H).
Defined.

Lemma active_set_shrinks_witness :
  noon <= noon + 1860000
  /\ getActive_all false noon [W1_stored] = Ok [W1_stored]
  /\ getActive_all false (noon + 1860000) [W1_stored] = Ok []
  /\ incl [] [W1_stored].
Proof.
  assert (H0 : noon <= noon + 1860000) by lia.
  assert (H1 : getActive_all false noon [W1_stored] = Ok [W1_stored])
    by (vm_compute; reflexivity).
  assert (H2 : getActive_all false (noon + 1860000) [W1_stored] = Ok [])
    by (vm_compute; reflexivity).
  split; [exact H0|]. split; [exact H1|]. split; [exact H2|].
  exact (active_set_shrinks noon (noon + 1860000) [W1_stored] [W1_stored] []
           H0 H1 H2).
Defined.

Lemma timer_spent_by_firing_witness :
  nth_error (timers (after (issue_run W1 ++ [Tick 1800000]))) 0
  = Some {| due := noon + 1800000; target := VStr "W1" |}
  /\ due {| due := noon + 1800000; target := VStr "W1" |}
     <= clock (after (issue_run W1 ++ [Tick 1800000]))
  /\ exists s',
       step (host := reference_host)
         (after (issue_run W1 ++ [Tick 1800000])) (Fire 0 true) = Some s'
       /\ timers s'
          = remove_nth 0 (timers (after (issue_run W1 ++ [Tick 1800000])))
       /\ (true = true ->
           db s' = db (after (issue_run W1 ++ [Tick 1800000]))
           /\ emitted s' = emitted (after (issue_run W1 ++ [Tick 1800000]))
           /\ exists e,
                console s'
                = (console (after (issue_run W1 ++ [Tick 1800000]))
                   ++ [TimerError e])%list).
Proof.
  assert (H : nth_error (timers (after (issue_run W1 ++ [Tick 1800000]))) 0
              = Some {| due := noon + 1800000; target := VStr "W1" |})
    by (vm_compute; reflexivity).
  assert (Hd : due {| due := noon + 1800000; target := VStr "W1" |}
               <= clock (after (issue_run W1 ++ [Tick 1800000])))
    by (vm_compute; discriminate).
  split; [exact H|]. split; [exact Hd|].
  exact (timer_spent_by_firing (host := reference_host)
           (after (issue_run W1 ++ [Tick 1800000])) 0%nat
           {| due := noon + 1800000; target := VStr "W1" |} true H Hd).
Defined.

Lemma issue_timer_due_at_expiry_witness :
  persist_issue (host := reference_host) W1 false (clock (started noon))
    (db (started noon))
  = Ok (W1_row, [W1_stored])
  /\ new_Date (host := reference_host) (field W1 "issuedISO") = Ok (Some noon)
  /\ ToNumber (host := reference_host) (field W1 "minutes")
     = Ok (Fin (inject_Z 30))
  /\ four_digit_year (noon + 30 * 60000)
  /\ timers (handleIssue (host := reference_host) W1 "ws" false (started noon))
     = (timers (started noon) ++
        if noon + 30 * 60000 <=? clock (started noon) then []
        else [{| due := if noon + 30 * 60000 - clock (started noon)
                           <=? TIMEOUT_MAX
                        then noon + 30 * 60000 else clock (started noon) + 1;
                 target := field W1 "id" |}])%list.
Proof.
  assert (Hp : new_Date (host := reference_host) (field W1 "issuedISO")
               = Ok (Some noon)) by (vm_compute; reflexivity).
  assert (Hk : ToNumber (host := reference_host) (field W1 "minutes")
               = Ok (Fin (inject_Z 30))) by (vm_compute; reflexivity).
  assert (Hy : four_digit_year (noon + 30 * 60000))
    by (unfold four_digit_year, noon; lia).
  split; [exact persist_W1|]. split; [exact Hp|]. split; [exact Hk|].
  split; [exact Hy|].
  exact (issue_timer_due_at_expiry (host := reference_host) W1 "ws" false
           (started noon) W1_row [W1_stored] noon 30 persist_W1 Hp Hk Hy).
Defined.

Lemma issue_announces_payload_witness :
  persist_issue (host := reference_host) W1 false (clock (started noon))
    (db (started noon))
  = Ok (W1_row, [W1_stored])
  /\ exists obj r,
       emitted (handleIssue (host := reference_host) W1 "ws" false
                  (started noon))
       = (emitted (started noon) ++ [("issue", obj)])%list
       /\ field obj "expiresISO" = VStr (n_expiresISO W1_row)
       /\ (forall k, k <> "expiresISO" -> field obj k = field W1 k)
       /\ In r (db (handleIssue (host := reference_host) W1 "ws" false
                      (started noon)))
       /\ id r = id_key (host := reference_host) (field W1 "id")
       /\ expiresISO r = n_expiresISO W1_row
       /\ Forall2 (fun k k' =>
                     io_conn k' = io_conn k
                     /\ io_inbox k' = (io_inbox k ++ [("issue", obj)])%list)
            (ioSockets (started noon))
            (ioSockets (handleIssue (host := reference_host) W1 "ws" false
                          (started noon)))
       /\ Forall2 (fun c c' =>
                     ws_conn c' = ws_conn c /\ readyState c' = readyState c
                     /\ ws_inbox c'
                        = if readyState c =? 1
                          then (ws_inbox c
                                ++ [json_value
                                      (VObj [("kind", VStr "issue");
                                             ("payload", obj)])])%list
                          else ws_inbox c)
            (wsClients (started noon))
            (wsClients (handleIssue (host := reference_host) W1 "ws" false
                          (started noon))).
Proof.
  split; [exact persist_W1|].
  exact (issue_announces_payload (host := reference_host) W1 "ws" false
           (started noon) W1_row [W1_stored] persist_W1).
Defined.

Lemma issue_stores_payload_witness :
  persist_issue (host := reference_host) W1 false noon []
  = Ok (W1_row, [W1_stored])
  /\ exists r,
       In r [W1_stored]
       /\ id r = id_key (host := reference_host) (field W1 "id")
       /\ Some (type r) = id_key (host := reference_host) (field W1 "type")
       /\ Some (issuedISO r)
          = id_key (host := reference_host) (field W1 "issuedISO")
       /\ polygon r = json_value (field W1 "polygon")
       /\ wind r
          = id_key (host := reference_host) (coalesce (field W1 "wind") VNull)
       /\ hail r
          = id_key (host := reference_host) (coalesce (field W1 "hail") VNull)
       /\ threat r
          = id_key (host := reference_host)
              (coalesce (field W1 "threat") VNull)
       /\ author r
          = id_key (host := reference_host)
              (coalesce (field W1 "author") VNull)
       /\ info r
          = id_key (host := reference_host) (coalesce (field W1 "info") VNull)
       /\ possibleTag r
          = id_key (host := reference_host)
              (coalesce (field W1 "possibleTag") VNull).
Proof.
  assert (H : persist_issue (host := reference_host) W1 false noon []
              = Ok (W1_row, [W1_stored])) by (vm_compute; reflexivity).
  split; [exact H|].
  exact (issue_stores_payload (host := reference_host) W1 false noon []
           W1_row [W1_stored] H).
Defined.

Lemma validation_names_first_missing_witness :
  nullish W2 = false
  /\ required = (["id"] ++ "type" :: ["polygon"; "issuedISO"; "minutes"])%list
  /\ Forall (fun k' => nullish (field W2 k') = false) ["id"]
  /\ nullish (field W2 "type") = true
  /\ validateIssue (host := reference_host) W2
     = Throw (Error ("Missing " ++ "type")).
Proof.
  assert (H0 : nullish W2 = false) by reflexivity.
  assert (H1 : required
               = (["id"] ++ "type" :: ["polygon"; "issuedISO"; "minutes"])%list)
    by reflexivity.
  assert (H2 : Forall (fun k' => nullish (field W2 k') = false) ["id"])
    by (constructor; [vm_compute; reflexivity | constructor]).
  assert (H3 : nullish (field W2 "type") = true) by (vm_compute; reflexivity).
  split; [exact H0|]. split; [exact H1|]. split; [exact H2|].
  split; [exact H3|].
  exact (validation_names_first_missing (host := reference_host) W2 ["id"]
           "type" ["polygon"; "issuedISO"; "minutes"] H0 H1 H2 H3).
Defined.

Lemma boot_arms_future_timers_witness :
  boot (host := reference_host) false (noon + 60000) [W1_stored] [] 0
  = Some rebooted
  /\ false = false
  /\ db rebooted = [W1_stored] /\ emitted rebooted = [] /\ console rebooted = []
  /\ ioSockets rebooted = [] /\ wsClients rebooted = []
  /\ Forall (fun t => noon + 60000 < due t
                      /\ exists r, In r [W1_stored]
                                   /\ is_active_at (noon + 60000) r = true
                                   /\ target t = text_value (id r))
       (timers rebooted).
Proof.
  assert (H : boot (host := reference_host) false (noon + 60000) [W1_stored]
                [] 0 = Some rebooted) by (vm_compute; reflexivity).
  split; [exact H|].
  exact (boot_arms_future_timers (host := reference_host) false
           (noon + 60000) [W1_stored] [] 0%nat rebooted H).
Defined.

Lemma timers_have_rows_witness :
  reachable (host := reference_host) (after (issue_run W1))
  /\ timers_stored (host := reference_host) (after (issue_run W1)).
Proof.
  split; [exact reachable_after_issue|].
  exact (timers_have_rows (host := reference_host) (after (issue_run W1))
           reachable_after_issue).
Defined.

Lemma announced_issues_are_stored_witness :
  announced_stored (host := reference_host) (started noon)
  /\ run (host := reference_host) (started noon) (issue_run W1)
     = Some (after (issue_run W1))
  /\ announced_stored (host := reference_host) (after (issue_run W1)).
Proof.
  assert (H0 : announced_stored (host := reference_host) (started noon))
    by (intros obj []).
  assert (H : run (host := reference_host) (started noon) (issue_run W1)
              = Some (after (issue_run W1))) by (vm_compute; reflexivity).
  split; [exact H0|]. split; [exact H|].
  exact (announced_issues_are_stored (host := reference_host) (started noon)
           (issue_run W1) (after (issue_run W1)) H0 H).
Defined.

Lemma closed_client_is_gone_witness :
  reachable (host := reference_host) (after (issue_run W1))
  /\ step (host := reference_host) (after (issue_run W1)) (WsClose 0)
     = Some (after (issue_run W1 ++ [WsClose 0]))
  /\ run (host := reference_host) (after (issue_run W1 ++ [WsClose 0]))
       [WsConnect false]
     = Some (after (issue_run W1 ++ [WsClose 0; WsConnect false]))
  /\ has_ws 0 (after (issue_run W1 ++ [WsClose 0; WsConnect false])) = false
  /\ forall k,
       In k (wsClients (after (issue_run W1 ++ [WsClose 0; WsConnect false])))
       -> ws_conn k <> 0%nat.
Proof.
  assert (H1 : step (host := reference_host) (after (issue_run W1)) (WsClose 0)
               = Some (after (issue_run W1 ++ [WsClose 0])))
    by (vm_compute; reflexivity).
  assert (H2 : run (host := reference_host)
                 (after (issue_run W1 ++ [WsClose 0])) [WsConnect false]
               = Some (after (issue_run W1 ++ [WsClose 0; WsConnect false])))
    by (vm_compute; reflexivity).
  split; [exact reachable_after_issue|]. split; [exact H1|].
  split; [exact H2|].
  exact (closed_client_is_gone (host := reference_host)
           (after (issue_run W1)) 0%nat (after (issue_run W1 ++ [WsClose 0]))
           [WsConnect false]
           (after (issue_run W1 ++ [WsClose 0; WsConnect false]))
           reachable_after_issue H1 H2).
Defined.

Lemma closing_client_receives_nothing_witness :
  In closing_client (wsClients (after [WsConnect false; WsClosing 0]))
  /\ readyState closing_client = 2
  /\ (forall ev, In ev (io_issue_run W1) ->
      ev <> WsClose (ws_conn closing_client) /\ is_restart ev = false)
  /\ run (host := reference_host) (after [WsConnect false; WsClosing 0])
       (io_issue_run W1)
     = Some (after ([WsConnect false; WsClosing 0] ++ io_issue_run W1))
  /\ In closing_client
       (wsClients (after ([WsConnect false; WsClosing 0] ++ io_issue_run W1))).
Proof.
  assert (H0 : In closing_client
                 (wsClients (after [WsConnect false; WsClosing 0]))).
  { assert (Hws : wsClients (after [WsConnect false; WsClosing 0])
                  = [closing_client]) by (vm_compute; reflexivity).
    rewrite Hws. left. reflexivity. }
  assert (H1 : readyState closing_client = 2) by reflexivity.
  assert (H2 : forall ev, In ev (io_issue_run W1) ->
               ev <> WsClose (ws_conn closing_client)
               /\ is_restart ev = false).
  { intros ev [<-|[<-|[]]]; split; (discriminate || reflexivity). }
  assert (H3 : run (host := reference_host)
                 (after [WsConnect false; WsClosing 0]) (io_issue_run W1)
               = Some (after ([WsConnect false; WsClosing 0]
                              ++ io_issue_run W1)))
    by (vm_compute; reflexivity).
  split; [exact H0|]. split; [exact H1|]. split; [exact H2|].
  split; [exact H3|].
  exact (closing_client_receives_nothing (host := reference_host)
           (after [WsConnect false; WsClosing 0]) (io_issue_run W1)
           (after ([WsConnect false; WsClosing 0] ++ io_issue_run W1))
           closing_client H0 H1 H2 H3).
Defined.

Lemma failed_bootstrap_is_silent_witness :
  reachable (host := reference_host) (after (issue_run W1))
  /\ exists s1 c,
       step (host := reference_host) (after (issue_run W1)) (WsConnect true)
       = Some s1
       /\ wsClients s1 = (wsClients (after (issue_run W1)) ++ [c])%list
       /\ ws_conn c = connections (after (issue_run W1))
       /\ readyState c = 1 /\ ws_inbox c = []
       /\ console s1 = console (after (issue_run W1))
       /\ forall evs s2 c2,
            run (host := reference_host) s1 evs = Some s2 ->
            In c2 (wsClients s2) ->
            ws_conn c2 = connections (after (issue_run W1)) ->
            Forall (fun f => ws_event f = true) (ws_inbox c2).
Proof.
  split; [exact reachable_after_issue|].
  exact (failed_bootstrap_is_silent (host := reference_host)
           (after (issue_run W1)) reachable_after_issue).
Defined.

Lemma issued_warning_in_history_witness :
  persist_issue (host := reference_host) W1 false noon []
  = Ok (W1_row, [W1_stored])
  /\ field W1 "issuedISO" = VStr "2024-05-01T12:00:00.000Z"
  /\ exists rows r,
       get_warnings (QString (substr_1_10 "2024-05-01T12:00:00.000Z")) false
         [W1_stored]
       = Json (substr_1_10 "2024-05-01T12:00:00.000Z") (List.length rows)
           (map row_object rows)
       /\ In r rows
       /\ id r = id_key (host := reference_host) (field W1 "id")
       /\ issuedISO r = "2024-05-01T12:00:00.000Z".
Proof.
  assert (H : persist_issue (host := reference_host) W1 false noon []
              = Ok (W1_row, [W1_stored])) by (vm_compute; reflexivity).
  assert (Hf : field W1 "issuedISO" = VStr "2024-05-01T12:00:00.000Z")
    by (vm_compute; reflexivity).
  split; [exact H|]. split; [exact Hf|].
  exact (issued_warning_in_history (host := reference_host) W1 false noon []
           W1_row [W1_stored] "2024-05-01T12:00:00.000Z" H Hf).
Defined.

Lemma history_keeps_expired_witness :
  expireById_run (host := reference_host) false (VStr "W1") [W1_stored]
  = Ok [W1_expired]
  /\ exists k,
       expire_param (VStr "W1") = Ok k
       /\ forall date rows,
            getByDate_all false date [W1_stored] = Ok rows ->
            exists rows',
              getByDate_all false date [W1_expired] = Ok rows'
              /\ Forall2 (fun r r' =>
                            same_but_active r r'
                            /\ active r'
                               = if id_is (text_affinity
                                             (host := reference_host) k) r
                                 then 0 else active r) rows rows'.
Proof.
  assert (H : expireById_run (host := reference_host) false (VStr "W1")
                [W1_stored] = Ok [W1_expired]) by (vm_compute; reflexivity).
  split; [exact H|].
  exact (history_keeps_expired (host := reference_host) false (VStr "W1")
           [W1_stored] [W1_expired] H).
Defined.
